(** * Adaptive softmax of anisfeld/nets: a shallow embedding of [model.py]

    The development follows [AdaptiveSoftmax] and [AdaptiveLoss] of
    [src/model.py] and the way [src/main.py] builds them.

    - Token ids and cutoffs are Python / torch integers: [Z].
    - A 1-D [LongTensor] is a [list Z]; a [ByteTensor] mask is a [list bool].
    - A 2-D [FloatTensor] is a [Tensor]: its second dimension and its rows,
      with real entries (exact arithmetic: [R] stands for the floats).
    - Exceptions are the left summand of [result]. *)

From Stdlib Require Import Reals List ZArith Lia Lra Bool Arith Sorted.
Import ListNotations.

(** ** Exceptions *)

Inductive exn : Type :=
| AssertionError
| RuntimeError
| IndexError
| AttributeError
| ZeroDivisionError.

Definition result (A : Type) : Type := (exn + A)%type.

Definition Return {A : Type} (a : A) : result A := inr a.
Definition Raise {A : Type} (e : exn) : result A := inl e.

Definition bind {A B : Type} (c : result A) (k : A -> result B) : result B :=
  match c with
  | inl e => inl e
  | inr a => k a
  end.

Notation "x <- c ;; k" := (bind c (fun x => k))
  (at level 61, c at next level, right associativity).

(** ** Integer tensors: the operations of [set_target] and [remap_target] *)

Module LongTensor.

Open Scope Z_scope.

(** [target.ge(c)] and [target.lt(c)]. *)
Definition ge (target : list Z) (c : Z) : list bool :=
  map (fun t => c <=? t) target.

Definition lt (target : list Z) (c : Z) : list bool :=
  map (fun t => t <? c) target.

(** [a.mul(b)] on byte masks. *)
Definition mul (a b : list bool) : list bool :=
  map (fun p => andb (fst p) (snd p)) (combine a b).

(** [mask.sum()]. *)
Definition sum (mask : list bool) : nat :=
  length (filter (fun b => b) mask).

(** [mask.float().nonzero().squeeze(1)]: the positions that are set,
    in increasing order, counted from [base]. *)
Fixpoint nonzero_from (base : nat) (mask : list bool) : list nat :=
  match mask with
  | [] => []
  | b :: rest =>
      if b then base :: nonzero_from (S base) rest
      else nonzero_from (S base) rest
  end.

Definition nonzero (mask : list bool) : list nat := nonzero_from 0 mask.

(** [target[mask]]: the entries under a set bit, in order. *)
Fixpoint masked_select (target : list Z) (mask : list bool) : list Z :=
  match target, mask with
  | t :: ts, b :: bs =>
      if b then t :: masked_select ts bs else masked_select ts bs
  | _, _ => []
  end.

(** [new[mask] = v]. *)
Fixpoint masked_fill (new : list Z) (mask : list bool) (v : Z) : list Z :=
  match new, mask with
  | t :: ts, b :: bs => (if b then v else t) :: masked_fill ts bs v
  | _, _ => new
  end.

(** [t.add(c)]. *)
Definition add (t : list Z) (c : Z) : list Z := map (fun x => x + c) t.

End LongTensor.

(** ** Cutoffs *)

(** [self.cutoff[i]] inside the loops [for i in range(len(self.cutoff) - 1)],
    where both [i] and [i + 1] are in range. *)
Definition cutoff_at (cutoff : list Z) (i : nat) : Z := nth i cutoff 0%Z.

(** [target.ge(self.cutoff[i]).mul(target.lt(self.cutoff[i + 1]))], the
    membership mask shared by [set_target] and [remap_target]. *)
Definition cluster_mask (cutoff : list Z) (i : nat) (target : list Z)
  : list bool :=
  LongTensor.mul (LongTensor.ge target (cutoff_at cutoff i))
                 (LongTensor.lt target (cutoff_at cutoff (i + 1))).

(** The membership test on one id. *)
Definition in_cluster (cutoff : list Z) (i : nat) (t : Z) : bool :=
  ((cutoff_at cutoff i <=? t) && (t <? cutoff_at cutoff (i + 1)))%Z.

(** [range(len(self.cutoff) - 1)]. *)
Definition clusters (cutoff : list Z) : list nat :=
  seq 0 (length cutoff - 1).

(** The invariant of the data model: [0 < c0 < c1 < ... < V]. *)
Fixpoint increasing_from (lo : Z) (cutoff : list Z) : bool :=
  match cutoff with
  | [] => true
  | c :: rest => (lo <? c)%Z && increasing_from c rest
  end.

Definition valid_cutoff (cutoff : list Z) : bool :=
  match cutoff with
  | [] => false
  | _ => increasing_from 0 cutoff
  end.

(** ** [AdaptiveSoftmax.set_target] *)

(** What one turn of the loop appends to [self.id]. *)
Definition set_target_entry (cutoff : list Z) (target : list Z) (i : nat)
  : option (list nat) :=
  let mask := cluster_mask cutoff i target in
  if (0 <? LongTensor.sum mask)%nat
  then Some (LongTensor.nonzero mask)
  else None.

Definition set_target_ids (cutoff : list Z) (target : list Z)
  : list (option (list nat)) :=
  map (set_target_entry cutoff target) (clusters cutoff).

(** ** [AdaptiveLoss.remap_target] *)

(** What one turn of the loop appends to [new_target]: the local ids. *)
Definition remap_entry (cutoff : list Z) (target : list Z) (i : nat)
  : option (list Z) :=
  let mask := cluster_mask cutoff i target in
  if (0 <? LongTensor.sum mask)%nat
  then Some (LongTensor.add (LongTensor.masked_select target mask)
                            (- cutoff_at cutoff i)%Z)
  else None.

(** The loop threads [new_target[0]] and the list of appended entries. *)
Fixpoint remap_loop (cutoff : list Z) (target : list Z) (idx : list nat)
  (new0 : list Z) (appended : list (option (list Z)))
  : list Z * list (option (list Z)) :=
  match idx with
  | [] => (new0, appended)
  | i :: rest =>
      let mask := cluster_mask cutoff i target in
      let new0' :=
        LongTensor.masked_fill new0 mask (cutoff_at cutoff 0 + Z.of_nat i)%Z in
      remap_loop cutoff target rest new0'
        (appended ++ [remap_entry cutoff target i])
  end.

Definition remap_target (cutoff : list Z) (target : list Z)
  : list (option (list Z)) :=
  let '(new0, appended) := remap_loop cutoff target (clusters cutoff) target []
  in Some new0 :: appended.

(** What the loop of [remap_target] does to one position of
    [new_target[0]]: every cluster whose mask holds the target overwrites
    the entry with its head id. *)
Fixpoint remap_id (cutoff : list Z) (idx : list nat) (t : Z) (current : Z)
  : Z :=
  match idx with
  | [] => current
  | i :: rest =>
      remap_id cutoff rest t
        (if in_cluster cutoff i t
         then (cutoff_at cutoff 0 + Z.of_nat i)%Z else current)
  end.

(** ** Float tensors *)

(** A 2-D tensor: [size1] is [t.size(1)], [data] its rows, so that
    [t.size(0)] is the number of rows.  An empty tensor keeps its width. *)
Record Tensor : Type := mkTensor { size1 : nat; data : list (list R) }.

Definition size0 (t : Tensor) : nat := length (data t).

Definition well_shaped (t : Tensor) : Prop :=
  Forall (fun row => length row = size1 t) (data t).

(** [seq[i]] of Python, on a list. *)
Definition getitem {A : Type} (l : list A) (i : nat) : result A :=
  match nth_error l i with
  | Some a => Return a
  | None => Raise IndexError
  end.

(** [seq[-1]]. *)
Definition getlast {A : Type} (l : list A) : result A :=
  getitem l (length l - 1).

Definition Rsum (l : list R) : R := fold_right Rplus 0%R l.

(** One row of [nn.LogSoftmax]: [x_j - log (sum_k exp x_k)]. *)
Definition log_softmax (x : list R) : list R :=
  let s := ln (Rsum (map exp x)) in map (fun v => (v - s)%R) x.

Module FloatTensor.

(** [torch.zeros(n, v)]; a negative size is refused. *)
Definition zeros (n : nat) (v : Z) : result Tensor :=
  if (v <? 0)%Z then Raise RuntimeError
  else Return (mkTensor (Z.to_nat v) (repeat (repeat 0%R (Z.to_nat v)) n)).

(** The slice [start, start + len) of one row. *)
Definition slice (start len : nat) (row : list R) : list R :=
  firstn len (skipn start row).

(** [t.narrow(1, start, len)], read as a value.  torch refuses a start
    outside the dimension and a slice that is empty or runs past the
    end. *)
Definition narrow (t : Tensor) (start len : Z) : result Tensor :=
  if ((0 <=? start) && (0 <? len) && (start + len <=? Z.of_nat (size1 t)))%Z
  then Return (mkTensor (Z.to_nat len)
                 (map (slice (Z.to_nat start) (Z.to_nat len)) (data t)))
  else Raise RuntimeError.

(** Writing the rows of a view back at column [start]. *)
Definition splice (start : nat) (row view : list R) : list R :=
  firstn start row ++ view ++ skipn (start + length view) row.

Definition write_back (t : Tensor) (start : nat) (view : Tensor) : Tensor :=
  mkTensor (size1 t)
    (map (fun p => splice start (fst p) (snd p))
         (combine (data t) (data view))).

(** [t.narrow(1, start, len).op_(...)]: the in-place operation [op] runs
    on the view and its result lands in columns [start, start + len) of
    [t]. *)
Definition narrow_update (t : Tensor) (start len : Z)
  (op : Tensor -> result Tensor) : result Tensor :=
  view <- narrow t start len ;;
  view' <- op view ;;
  Return (write_back t (Z.to_nat start) view').

Definition same_shape (a b : Tensor) : bool :=
  (size1 a =? size1 b)%nat && (size0 a =? size0 b)%nat.

(** [a.add_(b)] on tensors of one shape. *)
Definition add_ (a b : Tensor) : result Tensor :=
  if same_shape a b
  then Return (mkTensor (size1 a)
                 (map (fun p => map (fun q => (fst q + snd q)%R)
                                    (combine (fst p) (snd p)))
                      (combine (data a) (data b))))
  else Raise RuntimeError.

(** [a.copy_(b)] on tensors of one shape. *)
Definition copy_ (a b : Tensor) : result Tensor :=
  if same_shape a b then Return b else Raise RuntimeError.

(** [t.expand(n, len)] of a column [t] of shape [n, 1]. *)
Definition expand (t : Tensor) (n : nat) (len : Z) : result Tensor :=
  if ((size1 t =? 1)%nat && (size0 t =? n)%nat && (0 <? len)%Z)%bool
  then Return (mkTensor (Z.to_nat len)
                 (map (fun row => repeat (nth 0 row 0%R) (Z.to_nat len))
                      (data t)))
  else Raise RuntimeError.

(** [t.index_select(0, ids)]. *)
Fixpoint select_rows (rows : list (list R)) (ids : list nat)
  : result (list (list R)) :=
  match ids with
  | [] => Return []
  | i :: rest =>
      match nth_error rows i with
      | Some row =>
          rows' <- select_rows rows rest ;; Return (row :: rows')
      | None => Raise RuntimeError
      end
  end.

Definition index_select (t : Tensor) (ids : list nat) : result Tensor :=
  rows <- select_rows (data t) ids ;; Return (mkTensor (size1 t) rows).

(** [nn.LogSoftmax()] on a 2-D tensor: along dimension 1. *)
Definition lsm (t : Tensor) : Tensor :=
  mkTensor (size1 t) (map log_softmax (data t)).

End FloatTensor.

(** ** [nn.Linear] and [nn.Sequential] *)

Record Linear : Type := mkLinear {
  in_features : nat;
  out_features : nat;
  weight : list (list R);        (* shape [out_features, in_features] *)
  bias : option (list R)         (* shape [out_features] when present *)
}.

Definition dot (w x : list R) : R :=
  Rsum (map (fun p => (fst p * snd p)%R) (combine w x)).

(** The affine map on one row. *)
Definition linear_row (l : Linear) (x : list R) : list R :=
  let wx := map (fun w => dot w x) (weight l) in
  match bias l with
  | Some b => map (fun p => (fst p + snd p)%R) (combine wx b)
  | None => wx
  end.

Definition Linear_forward (l : Linear) (input : Tensor) : result Tensor :=
  if (size1 input =? in_features l)%nat
  then Return (mkTensor (out_features l) (map (linear_row l) (data input)))
  else Raise RuntimeError.

(** A layer whose parameters have the shapes of [nn.Linear(n_in, n_out, b)]. *)
Definition Linear_shape (l : Linear) (n_in n_out : Z) (with_bias : bool)
  : bool :=
  (Z.of_nat (in_features l) =? n_in)%Z
  && (Z.of_nat (out_features l) =? n_out)%Z
  && (length (weight l) =? out_features l)%nat
  && forallb (fun w => (length w =? in_features l)%nat) (weight l)
  && match bias l, with_bias with
     | Some b, true => (length b =? out_features l)%nat
     | None, false => true
     | _, _ => false
     end.

(** [nn.Sequential(first, second)] of [AdaptiveSoftmax.__init__]. *)
Definition Sequential : Type := (Linear * Linear)%type.

Definition Sequential_forward (s : Sequential) (input : Tensor)
  : result Tensor :=
  hidden <- Linear_forward (fst s) input ;;
  Linear_forward (snd s) hidden.

Definition tail_row (s : Sequential) (x : list R) : list R :=
  linear_row (snd s) (linear_row (fst s) x).

(** ** [class AdaptiveSoftmax] *)

Record AdaptiveSoftmax : Type := mkAdaptiveSoftmax {
  nhid : Z;
  cutoff : list Z;
  output_size : Z;
  head : Linear;
  tail : list Sequential;
  id : option (list (option (list nat)))   (* unset until [set_target] *)
}.

Section Construction.

(** [nn.Linear(n_in, n_out, bias)] belongs to torch: it draws the initial
    parameters and may refuse the sizes it is given. *)
Variable new_Linear : Z -> Z -> bool -> result Linear.

(** The loop of [__init__] that fills [self.tail]. *)
Fixpoint init_tail (nhid : Z) (cutoff : list Z) (idx : list nat)
  : result (list Sequential) :=
  match idx with
  | [] => Return []
  | i :: rest =>
      let width := (nhid / 4 ^ Z.of_nat i)%Z in
      first <- new_Linear nhid width false ;;
      second <- new_Linear width
                  (cutoff_at cutoff (i + 1) - cutoff_at cutoff i)%Z false ;;
      seqs <- init_tail nhid cutoff rest ;;
      Return ((first, second) :: seqs)
  end.

(** [AdaptiveSoftmax.__init__(nhid, cutoff)]. *)
Definition AdaptiveSoftmax_init (nhid : Z) (cutoff : list Z)
  : result AdaptiveSoftmax :=
  c0 <- getitem cutoff 0 ;;
  let output_size := (c0 + Z.of_nat (length cutoff) - 1)%Z in
  head <- new_Linear nhid output_size true ;;
  tail <- init_tail nhid cutoff (clusters cutoff) ;;
  Return (mkAdaptiveSoftmax nhid cutoff output_size head tail None).

End Construction.

(** The layers [__init__] asks [nn.Linear] for, in order: input size,
    output size, bias. *)
Definition tail_requests (nhid : Z) (cutoff : list Z) (i : nat)
  : list (Z * Z * bool) :=
  let width := (nhid / 4 ^ Z.of_nat i)%Z in
  [(nhid, width, false);
   (width, (cutoff_at cutoff (i + 1) - cutoff_at cutoff i)%Z, false)].

Definition layer_requests (nhid : Z) (cutoff : list Z)
  : list (Z * Z * bool) :=
  (nhid, (cutoff_at cutoff 0 + Z.of_nat (length cutoff) - 1)%Z, true)
  :: flat_map (tail_requests nhid cutoff) (clusters cutoff).

(** [nn.Linear] builds the layer of a request. *)
Definition accepted (new_Linear : Z -> Z -> bool -> result Linear)
  (request : Z * Z * bool) : Prop :=
  exists layer,
    new_Linear (fst (fst request)) (snd (fst request)) (snd request)
    = Return layer.

(** The shapes [__init__] gives the parameters of a model. *)
Fixpoint tail_shapes (nhid : Z) (cutoff : list Z) (i : nat)
  (tail : list Sequential) : bool :=
  match tail with
  | [] => true
  | s :: rest =>
      let width := (nhid / 4 ^ Z.of_nat i)%Z in
      Linear_shape (fst s) nhid width false
      && Linear_shape (snd s) width
           (cutoff_at cutoff (i + 1) - cutoff_at cutoff i)%Z false
      && tail_shapes nhid cutoff (S i) rest
  end.

Definition init_shapes (m : AdaptiveSoftmax) : bool :=
  (output_size m =? cutoff_at (cutoff m) 0 + Z.of_nat (length (cutoff m)) - 1)%Z
  && Linear_shape (head m) (nhid m) (output_size m) true
  && (length (tail m) =? length (cutoff m) - 1)%nat
  && tail_shapes (nhid m) (cutoff m) 0 (tail m).

(** [set_target] replaces [self.id]. *)
Definition set_target (m : AdaptiveSoftmax) (target : list Z)
  : AdaptiveSoftmax :=
  mkAdaptiveSoftmax (nhid m) (cutoff m) (output_size m) (head m) (tail m)
    (Some (set_target_ids (cutoff m) target)).

(** The loop of [forward] over [self.id], from index [i].  Next to the
    output slots it records which tail classifiers were called. *)
Fixpoint forward_loop (tails : list Sequential) (input : Tensor) (i : nat)
  (ids : list (option (list nat)))
  : result (list (option Tensor) * list nat) :=
  match ids with
  | [] => Return ([], [])
  | None :: rest =>
      r <- forward_loop tails input (S i) rest ;;
      Return (None :: fst r, snd r)
  | Some sel :: rest =>
      t <- getitem tails i ;;
      rows <- FloatTensor.index_select input sel ;;
      out <- Sequential_forward t rows ;;
      r <- forward_loop tails input (S i) rest ;;
      Return (Some out :: fst r, i :: snd r)
  end.

(** [AdaptiveSoftmax.forward]: the output list and the indices of the
    tail classifiers that ran. *)
Definition forward (m : AdaptiveSoftmax) (input : Tensor)
  : result (list (option Tensor) * list nat) :=
  head_out <- Linear_forward (head m) input ;;
  match id m with
  | None => Raise AttributeError
  | Some ids =>
      r <- forward_loop (tail m) input 0 ids ;;
      Return (Some head_out :: fst r, snd r)
  end.

(** The loop of [log_prob] over [range(len(self.tail))]. *)
Fixpoint log_prob_loop (m : AdaptiveSoftmax) (input : Tensor)
  (batch_size : nat) (lsm_head : Tensor) (idx : list nat) (prob : Tensor)
  : result Tensor :=
  match idx with
  | [] => Return prob
  | i :: rest =>
      pos <- getitem (cutoff m) i ;;
      next <- getitem (cutoff m) (i + 1) ;;
      let i_size := (next - pos)%Z in
      c0 <- getitem (cutoff m) 0 ;;
      buffer <- FloatTensor.narrow lsm_head (c0 + Z.of_nat i) 1 ;;
      buffer <- FloatTensor.expand buffer batch_size i_size ;;
      t <- getitem (tail m) i ;;
      tail_out <- Sequential_forward t input ;;
      let lsm_tail := FloatTensor.lsm tail_out in
      prob' <- FloatTensor.narrow_update prob pos i_size
                 (fun view =>
                    view' <- FloatTensor.copy_ view buffer ;;
                    FloatTensor.add_ view' lsm_tail) ;;
      log_prob_loop m input batch_size lsm_head rest prob'
  end.

(** [AdaptiveSoftmax.log_prob]. *)
Definition log_prob (m : AdaptiveSoftmax) (input : Tensor) : result Tensor :=
  head_out <- Linear_forward (head m) input ;;
  let batch_size := size0 head_out in
  v <- getlast (cutoff m) ;;
  prob <- FloatTensor.zeros batch_size v ;;
  let lsm_head := FloatTensor.lsm head_out in
  prob <- FloatTensor.narrow_update prob 0 (output_size m)
            (fun view =>
               src <- FloatTensor.narrow lsm_head 0 (output_size m) ;;
               FloatTensor.add_ view src) ;;
  log_prob_loop m input batch_size lsm_head (seq 0 (length (tail m))) prob.

(** ** [class AdaptiveLoss] *)

Record AdaptiveLoss : Type := mkAdaptiveLoss { loss_cutoff : list Z }.

(** [AdaptiveLoss.__init__(cutoff)]: stores the list and builds
    [nn.CrossEntropyLoss(size_average=False)]. *)
Definition AdaptiveLoss_init (cutoff : list Z) : result AdaptiveLoss :=
  Return (mkAdaptiveLoss cutoff).

(** One term of the cross-entropy: a class outside the columns is an
    error of the criterion. *)
Definition nll_term (ncls : nat) (row : list R) (t : Z) : result R :=
  if ((0 <=? t) && (t <? Z.of_nat ncls))%Z
  then Return (- nth (Z.to_nat t) (log_softmax row) 0)%R
  else Raise RuntimeError.

Fixpoint nll_sum (ncls : nat) (rows : list (list R)) (target : list Z)
  : result R :=
  match rows, target with
  | row :: rows', t :: target' =>
      x <- nll_term ncls row t ;;
      s <- nll_sum ncls rows' target' ;;
      Return (x + s)%R
  | _, _ => Return 0%R
  end.

(** [self.criterion(input, target)]: cross-entropy summed over the rows. *)
Definition criterion (input : Tensor) (target : list Z) : result R :=
  if (size0 input =? length target)%nat
  then nll_sum (size1 input) (data input) target
  else Raise RuntimeError.

(** [t.min()] and [t.max()]; an empty tensor has neither. *)
Definition tensor_min (t : list Z) : result Z :=
  match t with
  | [] => Raise RuntimeError
  | x :: rest => Return (fold_left Z.min rest x)
  end.

Definition tensor_max (t : list Z) : result Z :=
  match t with
  | [] => Raise RuntimeError
  | x :: rest => Return (fold_left Z.max rest x)
  end.

(** The state of the loop of [AdaptiveLoss.forward]: the accumulated
    [output] and how many times [pdb.set_trace()] was reached (the debugger
    session is taken to resume the run). *)
Record LossState : Type := mkLossState { output : R; breakpoints : nat }.

(** The loop of [AdaptiveLoss.forward] over [range(len(input))], from
    index [i]; [target] is the remapped list. *)
Fixpoint loss_loop (input : list (option Tensor))
  (target : list (option (list Z))) (i : nat) (st : LossState)
  : result LossState :=
  match input with
  | [] => Return st
  | None :: rest => loss_loop rest target (S i) st
  | Some x :: rest =>
      slot <- getitem target i ;;
      match slot with
      | None => Raise AttributeError
      | Some tg =>
          lo <- tensor_min tg ;;
          hi <- tensor_max tg ;;
          if ((0 <=? lo) && (hi <=? Z.of_nat (size1 x)))%Z
          then
            match criterion x tg with
            | inr v =>
                loss_loop rest target (S i)
                  (mkLossState (output st + v) (breakpoints st))
            | inl _ =>
                loss_loop rest target (S i)
                  (mkLossState (output st) (S (breakpoints st)))
            end
          else Raise AssertionError
      end
  end.

(** The body of [AdaptiveLoss.forward] once [target] is the remapped
    list: batch size, loop, division.  Dividing by an empty batch gives no
    finite loss. *)
Definition loss_after_remap (input : list (option Tensor))
  (new_target : list (option (list Z))) : result LossState :=
  first <- getitem input 0 ;;
  match first with
  | None => Raise AttributeError
  | Some head_out =>
      let batch_size := size0 head_out in
      st <- loss_loop input new_target 0 (mkLossState 0 0) ;;
      if (batch_size =? 0)%nat then Raise ZeroDivisionError
      else Return (mkLossState (output st / INR batch_size) (breakpoints st))
  end.

(** [AdaptiveLoss.forward(input, target)]. *)
Definition AdaptiveLoss_forward (l : AdaptiveLoss)
  (input : list (option Tensor)) (target : list Z) : result LossState :=
  loss_after_remap input (remap_target (loss_cutoff l) target).

(** ** The criteria of [main.py] *)

(** [nn.CrossEntropyLoss()]: the mean of the summed cross-entropy. *)
Definition CrossEntropyLoss (input : Tensor) (target : list Z) : result R :=
  ce <- criterion input target ;;
  Return (ce / INR (size0 input))%R.

(** [nn.NLLLoss()] of [evaluate], on log-probabilities: the mean of the
    negated entries at the targets (targets inside the columns). *)
Definition NLLLoss (prob : Tensor) (target : list Z) : R :=
  (Rsum (map (fun p => (- nth (Z.to_nat (snd p)) (fst p) 0)%R)
             (combine (data prob) target))
   / INR (size0 prob))%R.

(** ** The training step of [main.py] *)

(** [model = RNNModel(..., ntokens, ..., cutoff, True)] gives the decoder
    the cutoffs [[*cutoff, ntokens]]; the criterion is
    [AdaptiveLoss([*cutoff, ntokens + 1])]. *)
Definition model_cutoff (cuts : list Z) (ntokens : Z) : list Z :=
  cuts ++ [ntokens].

Definition criterion_cutoff (cuts : list Z) (ntokens : Z) : list Z :=
  cuts ++ [(ntokens + 1)%Z].

(** [decoder.set_target(target); output = decoder(hidden);
    loss = criterion(output, targets)]. *)
Definition train_loss (m : AdaptiveSoftmax) (l : AdaptiveLoss)
  (hidden : Tensor) (target : list Z) : result LossState :=
  r <- forward (set_target m target) hidden ;;
  AdaptiveLoss_forward l (fst r) target.

(** ** Row-level quantities used in the statements *)

(** The head's log-softmax on one hidden row. *)
Definition head_lsm (m : AdaptiveSoftmax) (h : list R) : list R :=
  log_softmax (linear_row (head m) h).

(** The log-softmax of tail classifier [i] on one hidden row. *)
Definition tail_lsm (m : AdaptiveSoftmax) (i : nat) (h : list R) : list R :=
  match nth_error (tail m) i with
  | Some s => log_softmax (tail_row s h)
  | None => []
  end.

(** The columns of one row of [prob] that are final once [log_prob] has
    written the first [k] clusters: the head band, then one block per
    cluster. *)
Fixpoint prob_prefix (m : AdaptiveSoftmax) (h : list R) (k : nat) : list R :=
  match k with
  | O => firstn (Z.to_nat (cutoff_at (cutoff m) 0)) (head_lsm m h)
  | S k' =>
      prob_prefix m h k'
      ++ map (Rplus (nth (Z.to_nat (cutoff_at (cutoff m) 0) + k')
                         (head_lsm m h) 0%R))
             (tail_lsm m k' h)
  end.

(** A batch of hidden states of shape [N, nhid]. *)
Definition hidden_batch (m : AdaptiveSoftmax) (input : Tensor) : Prop :=
  well_shaped input /\ Z.of_nat (size1 input) = nhid m.

(** The entries of a dense log-probability matrix [prob] for the batch
    [input]: head-band columns hold the head's log-softmax; the columns of
    cluster [i] hold the head's entry [c0 + i] plus the cluster's tail
    log-softmax at the local id. *)
Definition dense_entries (m : AdaptiveSoftmax) (input prob : Tensor) : Prop :=
  forall r h, nth_error (data input) r = Some h ->
    exists row,
      nth_error (data prob) r = Some row
      /\ length row = size1 prob
      /\ (forall j, (0 <= j < cutoff_at (cutoff m) 0)%Z ->
            nth (Z.to_nat j) row 0%R = nth (Z.to_nat j) (head_lsm m h) 0%R)
      /\ (forall i j,
            (i < length (cutoff m) - 1)%nat ->
            (cutoff_at (cutoff m) i <= j < cutoff_at (cutoff m) (i + 1))%Z ->
            nth (Z.to_nat j) row 0%R
            = (nth (Z.to_nat (cutoff_at (cutoff m) 0 + Z.of_nat i))
                   (head_lsm m h) 0
               + nth (Z.to_nat (j - cutoff_at (cutoff m) i))
                     (tail_lsm m i h) 0)%R).

(** A small model for examples: cutoffs [1, 2] (one head token, one
    cluster of one token), hidden size 1, all parameters zero. *)
Definition example_model : AdaptiveSoftmax :=
  mkAdaptiveSoftmax 1 [1; 2]%Z 2
    (mkLinear 1 2 [[0%R]; [0%R]] (Some [0%R; 0%R]))
    [(mkLinear 1 1 [[0%R]] None, mkLinear 1 1 [[0%R]] None)]
    None.

Definition example_input : Tensor := mkTensor 1 [[0%R]; [1%R]].

(** ** The loss in the words of the specification *)

(** Cross-entropy of logits against class ids, summed over the rows. *)
Definition ce_sum (rows : list (list R)) (target : list Z) : R :=
  Rsum (map (fun p => (- nth (Z.to_nat (snd p)) (log_softmax (fst p)) 0)%R)
            (combine rows target)).

(** Steps 2 and 3 of the Adaptive Loss: the head's summed cross-entropy
    against the remapped targets, plus, for every slot that holds tail
    logits, their summed cross-entropy against the local ids. *)
Fixpoint spec_loss_sum (input : list (option Tensor))
  (new_target : list (option (list Z))) : R :=
  match input, new_target with
  | Some x :: input', Some tg :: target' =>
      (ce_sum (data x) tg + spec_loss_sum input' target')%R
  | _ :: input', _ :: target' => spec_loss_sum input' target'
  | _, _ => 0%R
  end.

(** What the specification's test for head-band batches compares the
    loss with: plain cross-entropy on the first [c0] columns of the head
    logits. *)
Definition plain_head_band_loss (c0 : Z) (head_out : Tensor)
  (target : list Z) : result R :=
  band <- FloatTensor.narrow head_out 0 c0 ;;
  CrossEntropyLoss band target.

(** A list without its [k]-th slot. *)
Definition omit {A : Type} (k : nat) (l : list A) : list A :=
  firstn k l ++ skipn (S k) l.

(** Slots on which the loop of [AdaptiveLoss.forward] neither fails its
    assertion nor reaches the debugger: wherever logits are present, the
    class ids are present, as many as the rows, and inside the columns. *)
Fixpoint slots_ok (input : list (option Tensor))
  (new_target : list (option (list Z))) : Prop :=
  match input with
  | [] => True
  | None :: input' => slots_ok input' (tl new_target)
  | Some x :: input' =>
      match new_target with
      | Some tg :: target' =>
          (tg <> []
           /\ size0 x = length tg
           /\ Forall (fun t => (0 <= t < Z.of_nat (size1 x))%Z) tg)
          /\ slots_ok input' target'
      | _ => False
      end
  end.

(** ** The batch seen cluster by cluster *)

(** The pairs (hidden row, target) of the batch whose target the mask of
    cluster [i] holds, in batch order. *)
Definition routed (cutoff : list Z) (i : nat) (rows : list (list R))
  (target : list Z) : list (list R * Z) :=
  filter (fun p => in_cluster cutoff i (snd p)) (combine rows target).

(** The slot [forward] fills for cluster [i] after [set_target]. *)
Definition forward_slot (m : AdaptiveSoftmax) (hidden : Tensor)
  (target : list Z) (i : nat) : option Tensor :=
  match set_target_entry (cutoff m) target i, nth_error (tail m) i with
  | Some _, Some s =>
      Some (mkTensor (out_features (snd s))
              (map (fun p => tail_row s (fst p))
                   (routed (cutoff m) i (data hidden) target)))
  | _, _ => None
  end.

(** Whether [set_target] found a target for cluster [i]. *)
Definition cluster_used (cutoff : list Z) (target : list Z) (i : nat) : bool :=
  (0 <? LongTensor.sum (cluster_mask cutoff i target))%nat.

(** The head class of a target: what [remap_target] leaves at its
    position of [new_target[0]]. *)
Definition route (cutoff : list Z) (t : Z) : Z :=
  remap_id cutoff (clusters cutoff) t t.

(** The summed tail cross-entropy of cluster [i] over the pairs routed to
    it. *)
Definition tail_term (m : AdaptiveSoftmax) (rows : list (list R))
  (target : list Z) (i : nat) : R :=
  Rsum (map (fun p => (- nth (Z.to_nat (snd p - cutoff_at (cutoff m) i))
                             (tail_lsm m i (fst p)) 0)%R)
            (routed (cutoff m) i rows target)).

(** ** Further quantities for statements about the router *)

(** The rows a slot of [forward]'s output holds. *)
Definition slot_rows (slot : option Tensor) : nat :=
  match slot with
  | Some x => size0 x
  | None => 0
  end.

(** An [nn.Linear] for examples: it refuses negative sizes and starts from
    zero parameters. *)
Definition zero_Linear (n_in n_out : Z) (with_bias : bool) : result Linear :=
  if ((n_in <? 0) || (n_out <? 0))%Z then Raise RuntimeError
  else Return (mkLinear (Z.to_nat n_in) (Z.to_nat n_out)
                 (repeat (repeat 0%R (Z.to_nat n_in)) (Z.to_nat n_out))
                 (if with_bias then Some (repeat 0%R (Z.to_nat n_out))
                  else None)).

(** ** [main.py]: batches of the corpus *)

(** [data.narrow(0, start, len)] on a 1-D tensor; a length of 0 gives the
    empty tensor. *)
Definition narrow0 (data : list Z) (start len : Z) : result (list Z) :=
  if ((0 <=? start) && (0 <=? len)
      && (start + len <=? Z.of_nat (length data)))%Z
  then Return (firstn (Z.to_nat len) (skipn (Z.to_nat start) data))
  else Raise RuntimeError.

(** [data.view(bsz, -1)] on a 1-D tensor: [bsz] rows of equal length; the
    elements must divide among them.  Of no element each row gets none. *)
Definition view_rows (data : list Z) (bsz : Z) : result (list (list Z)) :=
  let n := Z.of_nat (length data) in
  if ((0 <? bsz) && (n mod bsz =? 0))%Z
  then
    let width := Z.to_nat (n / bsz) in
    Return (map (fun j => firstn width (skipn (j * width) data))
                (seq 0 (Z.to_nat bsz)))
  else Raise RuntimeError.

(** [m.t().contiguous()] of a matrix with [width] columns.  A matrix is the
    list of its rows, so the transpose of [bsz] empty rows, of shape
    [0 x bsz], is the empty list. *)
Definition transpose (width : nat) (rows : list (list Z)) : list (list Z) :=
  map (fun i => map (fun row => nth i row 0%Z) rows) (seq 0 width).

(** [batchify(data, bsz)]. *)
Definition batchify (data : list Z) (bsz : Z) : result (list (list Z)) :=
  if (bsz =? 0)%Z then Raise ZeroDivisionError
  else
    let nbatch := (Z.of_nat (length data) / bsz)%Z in
    trimmed <- narrow0 data 0 (nbatch * bsz) ;;
    rows <- view_rows trimmed bsz ;;
    Return (transpose (Z.to_nat nbatch) rows).

(** A bound of a Python slice on a sequence of length [n]: a negative
    bound counts from the end, and bounds are clamped to the sequence. *)
Definition clamp_index (n k : Z) : Z :=
  if (k <? 0)%Z then Z.max (k + n) 0 else Z.min k n.

(** [t[lo:hi]] on the first dimension; the torch of this code refuses an
    empty result ([None]). *)
Definition getslice {A : Type} (t : list A) (lo hi : Z) : option (list A) :=
  let n := Z.of_nat (length t) in
  let lo' := clamp_index n lo in
  let hi' := clamp_index n hi in
  if (lo' <? hi')%Z
  then Some (firstn (Z.to_nat (hi' - lo')) (skipn (Z.to_nat lo') t))
  else None.

(** [get_batch(source, i)] with [args.bptt = bptt]: the inputs, and the
    targets flattened by [view(-1)]. *)
Definition get_batch (bptt : Z) (source : list (list Z)) (i : Z)
  : option (list (list Z) * list Z) :=
  let seq_len := Z.min bptt (Z.of_nat (length source) - 1 - i) in
  match getslice source i (i + seq_len) with
  | None => None
  | Some data =>
      match getslice source (i + 1) (i + 1 + seq_len) with
      | None => None
      | Some target => Some (data, concat target)
      end
  end.

(** [range(start, stop, step)]; a zero step is refused ([None]). *)
Definition py_range (start stop step : Z) : option (list Z) :=
  if (step =? 0)%Z then None
  else
    let count :=
      if (0 <? step)%Z
      then (if (start <? stop)%Z then (stop - start - 1) / step + 1 else 0)%Z
      else (if (stop <? start)%Z then (start - stop - 1) / (- step) + 1
            else 0)%Z in
    Some (map (fun k => (start + Z.of_nat k * step)%Z)
              (seq 0 (Z.to_nat count))).

(** The batches one pass of [train] or [evaluate] asks for:
    [get_batch(source, i)] for [i] in
    [range(0, source.size(0) - 1, args.bptt)]. *)
Definition epoch_batches (bptt : Z) (source : list (list Z))
  : option (list (option (list (list Z) * list Z))) :=
  match py_range 0 (Z.of_nat (length source) - 1) bptt with
  | None => None
  | Some starts => Some (map (get_batch bptt source) starts)
  end.

(** ** [main.py]: evaluation *)

(** [nn.NLLLoss()] as [evaluate] calls it: as many targets as rows, every
    target a column of the matrix. *)
Definition NLLLoss_call (prob : Tensor) (target : list Z) : result R :=
  if ((size0 prob =? length target)%nat
      && forallb (fun t => ((0 <=? t) && (t <? Z.of_nat (size1 prob)))%Z)
                 target)%bool
  then Return (NLLLoss prob target)
  else Raise RuntimeError.

Section Evaluation.

(** The embedding and the recurrent network are torch's: [rnn input hidden]
    stands for [self.rnn(self.encoder(input), hidden)] with the output
    viewed as [[T * B, nhid]]. *)
Variable Hidden : Type.
Variable rnn : list (list Z) -> Hidden -> Tensor * Hidden.

(** [RNNModel.log_prob(input, hidden)] with the adaptive softmax [m] as
    decoder. *)
Definition RNNModel_log_prob (m : AdaptiveSoftmax) (input : list (list Z))
  (hidden : Hidden) : result (Tensor * Hidden) :=
  let '(output, hidden') := rnn input hidden in
  decoded <- log_prob m output ;;
  Return (decoded, hidden').

(** The loop of [evaluate]; [total] is [None] while [total_loss] is still
    the integer 0, and any exception ends the run with [None]. *)
Fixpoint evaluate_loop (m : AdaptiveSoftmax) (bptt : Z)
  (source : list (list Z)) (starts : list Z) (total : option R)
  (hidden : Hidden) : option (option R) :=
  match starts with
  | [] => Some total
  | i :: rest =>
      match get_batch bptt source i with
      | None => None
      | Some (data, targets) =>
          match RNNModel_log_prob m data hidden with
          | inl _ => None
          | inr (output, hidden') =>
              match NLLLoss_call output targets with
              | inl _ => None
              | inr loss =>
                  let term := (INR (length data) * loss)%R in
                  let total' :=
                    match total with
                    | None => term
                    | Some t => (t + term)%R
                    end in
                  evaluate_loop m bptt source rest (Some total') hidden'
              end
          end
      end
  end.

(** [evaluate(data_source)] with the adaptive softmax; [hidden0] is
    [model.init_hidden(eval_batch_size)].  Indexing [total_loss[0]] fails
    when no batch ran. *)
Definition evaluate (m : AdaptiveSoftmax) (bptt : Z)
  (source : list (list Z)) (hidden0 : Hidden) : option R :=
  match py_range 0 (Z.of_nat (length source) - 1) bptt with
  | None => None
  | Some starts =>
      match evaluate_loop m bptt source starts None hidden0 with
      | Some (Some total) => Some (total / INR (length source))%R
      | _ => None
      end
  end.

End Evaluation.

Arguments RNNModel_log_prob {Hidden} rnn m input hidden.
Arguments evaluate_loop {Hidden} rnn m bptt source starts total hidden.
Arguments evaluate {Hidden} rnn m bptt source hidden0.

(** ** [main.py]: one step of [train] *)

Section TrainStep.

(** Embedding, dropout and recurrent network are torch's: [rnn input
    hidden] stands for the dropped-out output of [self.rnn] on the
    dropped-out embedding, viewed as [[T * B, nhid]]. *)
Variable Hidden : Type.
Variable rnn : list (list Z) -> Hidden -> Tensor * Hidden.

(** [RNNModel.forward(input, hidden, target)] with the adaptive softmax
    [m] as decoder. *)
Definition RNNModel_forward (m : AdaptiveSoftmax) (input : list (list Z))
  (hidden : Hidden) (target : list Z)
  : result (list (option Tensor) * Hidden) :=
  let '(output, hidden') := rnn input hidden in
  r <- forward (set_target m target) output ;;
  Return (fst r, hidden').

(** The body of the loop of [train] up to [loss = criterion(output,
    targets)], at start [i]; an exception ends it with [None]. *)
Definition train_batch (m : AdaptiveSoftmax) (l : AdaptiveLoss) (bptt : Z)
  (source : list (list Z)) (i : Z) (hidden : Hidden)
  : option (LossState * Hidden) :=
  match get_batch bptt source i with
  | None => None
  | Some (data, targets) =>
      match RNNModel_forward m data hidden targets with
      | inl _ => None
      | inr (output, hidden') =>
          match AdaptiveLoss_forward l output targets with
          | inl _ => None
          | inr st => Some (st, hidden')
          end
      end
  end.

End TrainStep.

Arguments RNNModel_forward {Hidden} rnn m input hidden target.
Arguments train_batch {Hidden} rnn m l bptt source i hidden.

(** The values an int64 tensor (a [LongTensor]) holds. *)
Definition int64 (z : Z) : Prop := (- 2 ^ 63 <= z < 2 ^ 63)%Z.

(** Position [p] of the batch is among the rows [set_target] records for
    cluster [i], the rows [forward] hands to tail classifier [i]. *)
Definition selects (cuts target : list Z) (i p : nat) : Prop :=
  exists sel,
    nth i (set_target_ids cuts target) None = Some sel /\ In p sel.

(** * Properties *)

(** ** Masks and routing *)

Lemma cluster_mask_in_cluster (cutoff : list Z) (i : nat) (target : list Z) :
  cluster_mask cutoff i target = map (in_cluster cutoff i) target.
Proof.
  unfold cluster_mask, LongTensor.mul, LongTensor.ge, LongTensor.lt, in_cluster.
  induction target as [|t ts IH]; simpl; [reflexivity|].
  now rewrite IH.
Qed.

Lemma cluster_mask_length (cutoff : list Z) (i : nat) (target : list Z) :
  length (cluster_mask cutoff i target) = length target.
Proof. rewrite cluster_mask_in_cluster. apply length_map. Qed.

Lemma increasing_from_lt (l : list Z) :
  forall lo i, increasing_from lo l = true -> (i < length l)%nat ->
               (lo < nth i l 0)%Z.
Proof.
  induction l as [|c rest IH]; intros lo i H Hi; simpl in *; [lia|].
  apply andb_true_iff in H. destruct H as [Hc Hrest].
  apply Z.ltb_lt in Hc.
  destruct i as [|i]; [exact Hc|].
  specialize (IH c i Hrest ltac:(lia)). lia.
Qed.

Lemma increasing_from_mono (l : list Z) :
  forall lo i j, increasing_from lo l = true ->
                 (i < j)%nat -> (j < length l)%nat ->
                 (nth i l 0 < nth j l 0)%Z.
Proof.
  induction l as [|c rest IH]; intros lo i j H Hij Hj; simpl in *; [lia|].
  apply andb_true_iff in H. destruct H as [_ Hrest].
  destruct j as [|j]; [lia|].
  destruct i as [|i].
  - apply (increasing_from_lt rest c j Hrest). lia.
  - apply (IH c i j Hrest); lia.
Qed.

Lemma increasing_from_weaken (l : list Z) (lo lo' : Z) :
  (lo' <= lo)%Z -> increasing_from lo l = true -> increasing_from lo' l = true.
Proof.
  destruct l as [|c rest]; simpl; [reflexivity|].
  intros Hlo H. apply andb_true_iff in H. destruct H as [Hc Hrest].
  apply andb_true_iff. split; [|exact Hrest].
  apply Z.ltb_lt. apply Z.ltb_lt in Hc. lia.
Qed.

Lemma valid_cutoff_mono (cutoff : list Z) (i j : nat) :
  valid_cutoff cutoff = true -> (i < j)%nat -> (j < length cutoff)%nat ->
  (cutoff_at cutoff i < cutoff_at cutoff j)%Z.
Proof.
  unfold valid_cutoff, cutoff_at. destruct cutoff as [|c rest]; [discriminate|].
  intros H. now apply increasing_from_mono with (lo := 0%Z).
Qed.

Lemma valid_cutoff_pos (cutoff : list Z) (i : nat) :
  valid_cutoff cutoff = true -> (i < length cutoff)%nat ->
  (0 < cutoff_at cutoff i)%Z.
Proof.
  unfold valid_cutoff, cutoff_at. destruct cutoff as [|c rest]; [discriminate|].
  intros H. now apply increasing_from_lt.
Qed.

Lemma valid_cutoff_mono_le (cutoff : list Z) (i j : nat) :
  valid_cutoff cutoff = true -> (i <= j)%nat -> (j < length cutoff)%nat ->
  (cutoff_at cutoff i <= cutoff_at cutoff j)%Z.
Proof.
  intros H Hij Hj. destruct (Nat.eq_dec i j) as [->|Hne]; [lia|].
  apply Z.lt_le_incl. apply valid_cutoff_mono; auto; lia.
Qed.

(** Some cluster holds every id between the first and the last cutoff. *)
Lemma cluster_exists (l : list Z) :
  forall c t, (c <= t)%Z -> (t < last (c :: l) 0)%Z ->
    exists i, (i < length l)%nat /\
              (nth i (c :: l) 0 <= t)%Z /\ (t < nth (i + 1) (c :: l) 0)%Z.
Proof.
  induction l as [|c' rest IH]; intros c t Hlo Hhi.
  - simpl in Hhi. lia.
  - destruct (Z_lt_dec t c') as [Hlt|Hge].
    + exists 0%nat. simpl. repeat split; try lia.
    + destruct (IH c' t ltac:(lia)) as [i [Hi [H1 H2]]].
      { exact Hhi. }
      exists (S i). simpl length. split; [lia|].
      split; [exact H1|exact H2].
Qed.

Lemma in_cluster_true (cutoff : list Z) (i : nat) (t : Z) :
  in_cluster cutoff i t = true <->
  (cutoff_at cutoff i <= t < cutoff_at cutoff (i + 1))%Z.
Proof.
  unfold in_cluster. rewrite andb_true_iff, Z.leb_le, Z.ltb_lt. tauto.
Qed.

Lemma in_cluster_unique (cutoff : list Z) (i j : nat) (t : Z) :
  valid_cutoff cutoff = true ->
  (i < length cutoff - 1)%nat -> (j < length cutoff - 1)%nat ->
  in_cluster cutoff i t = true -> in_cluster cutoff j t = true -> i = j.
Proof.
  intros Hv Hi Hj Hti Htj.
  apply in_cluster_true in Hti. apply in_cluster_true in Htj.
  destruct (Nat.lt_trichotomy i j) as [Hlt|[Heq|Hgt]]; [|exact Heq|].
  - assert (cutoff_at cutoff (i + 1) <= cutoff_at cutoff j)%Z
      by (apply valid_cutoff_mono_le; auto; lia).
    lia.
  - assert (cutoff_at cutoff (j + 1) <= cutoff_at cutoff i)%Z
      by (apply valid_cutoff_mono_le; auto; lia).
    lia.
Qed.

(** C7: under valid cutoffs the membership masks of [set_target] and
    [remap_target] partition the ids from [c0] up to [V]: at every batch
    position whose target lies in that range exactly one cluster index
    below [K] has its mask bit set. *)
Theorem cluster_masks_partition (cutoff : list Z) (target : list Z)
  (p : nat) (t : Z) :
  valid_cutoff cutoff = true ->
  nth_error target p = Some t ->
  (cutoff_at cutoff 0 <= t < last cutoff 0)%Z ->
  exists i, ((i < length cutoff - 1)%nat /\
             nth p (cluster_mask cutoff i target) false = true) /\
            forall j, (j < length cutoff - 1)%nat ->
                      nth p (cluster_mask cutoff j target) false = true ->
                      j = i.
Proof.
  intros Hv Hp [Hlo Hhi].
  assert (Hbit : forall i, nth p (cluster_mask cutoff i target) false
                           = in_cluster cutoff i t).
  { intros i. rewrite cluster_mask_in_cluster.
    apply nth_error_nth. rewrite nth_error_map, Hp. reflexivity. }
  destruct cutoff as [|c rest]; [discriminate|].
  destruct (cluster_exists rest c t Hlo Hhi) as [i [Hi [H1 H2]]].
  exists i. split.
  - split; [simpl; lia|].
    rewrite Hbit. apply in_cluster_true. unfold cutoff_at. lia.
  - intros j Hj Hjt. rewrite Hbit in Hjt.
    apply (in_cluster_unique (c :: rest) j i t Hv Hj); [simpl; lia|exact Hjt|].
    apply in_cluster_true. unfold cutoff_at. lia.
Qed.

Lemma cluster_masks_partition_witness :
  exists i, ((i < 2)%nat /\
             nth 2 (cluster_mask [4; 7; 10]%Z i [0; 5; 8; 2]%Z) false = true) /\
            forall j, (j < 2)%nat ->
                      nth 2 (cluster_mask [4; 7; 10]%Z j [0; 5; 8; 2]%Z) false
                      = true -> j = i.
Proof.
  apply (cluster_masks_partition [4; 7; 10]%Z [0; 5; 8; 2]%Z 2 8%Z).
  - reflexivity.
  - reflexivity.
  - unfold cutoff_at. simpl. lia.
Defined.

(** ** The structure of [remap_target] *)

Lemma remap_loop_appended (cutoff target : list Z) (idx : list nat) :
  forall new0 appended,
    snd (remap_loop cutoff target idx new0 appended)
    = appended ++ map (remap_entry cutoff target) idx.
Proof.
  induction idx as [|i rest IH]; intros new0 appended; simpl.
  - now rewrite app_nil_r.
  - rewrite IH, <- app_assoc. reflexivity.
Qed.

Lemma masked_fill_pointwise (v : Z) (f : Z -> bool) (g : Z -> Z -> Z)
  (target : list Z) :
  forall new0,
    LongTensor.masked_fill (map (fun p => g (fst p) (snd p))
                                (combine target new0))
                           (map f target) v
    = map (fun p => if f (fst p) then v else g (fst p) (snd p))
          (combine target new0).
Proof.
  induction target as [|t ts IH]; intros new0; simpl; [reflexivity|].
  destruct new0 as [|n ns]; simpl; [reflexivity|].
  now rewrite IH.
Qed.

Lemma remap_loop_new0 (cutoff target : list Z) (idx : list nat) :
  forall (g : Z -> Z -> Z) new0 appended,
    fst (remap_loop cutoff target idx
           (map (fun p => g (fst p) (snd p)) (combine target new0)) appended)
    = map (fun p => remap_id cutoff idx (fst p) (g (fst p) (snd p)))
          (combine target new0).
Proof.
  induction idx as [|i rest IH]; intros g new0 appended; simpl.
  - reflexivity.
  - rewrite cluster_mask_in_cluster, masked_fill_pointwise.
    rewrite (IH (fun t n => if in_cluster cutoff i t
                            then (cutoff_at cutoff 0 + Z.of_nat i)%Z
                            else g t n)).
    reflexivity.
Qed.

Lemma combine_diag (l : list Z) :
  combine l l = map (fun t => (t, t)) l.
Proof. induction l as [|t ts IH]; simpl; [reflexivity|now rewrite IH]. Qed.

(** [remap_target] in closed form. *)
Lemma remap_target_closed (cutoff target : list Z) :
  remap_target cutoff target
  = Some (map (fun t => remap_id cutoff (clusters cutoff) t t) target)
    :: map (remap_entry cutoff target) (clusters cutoff).
Proof.
  unfold remap_target.
  pose proof (remap_loop_appended cutoff target (clusters cutoff) target [])
    as Happ.
  pose proof (remap_loop_new0 cutoff target (clusters cutoff)
                (fun _ n => n) target []) as Hnew.
  assert (Hid : map (fun p : Z * Z => snd p) (combine target target) = target).
  { rewrite combine_diag, map_map. simpl. apply map_id. }
  simpl in Hnew. rewrite Hid in Hnew.
  destruct (remap_loop cutoff target (clusters cutoff) target [])
    as [new0 appended].
  simpl in Happ, Hnew. subst new0 appended.
  rewrite combine_diag, map_map. reflexivity.
Qed.

Lemma masked_select_nonzero (target : list Z) :
  forall mask pre,
    length mask = length target ->
    LongTensor.masked_select target mask
    = map (fun p => nth p (pre ++ target) 0%Z)
          (LongTensor.nonzero_from (length pre) mask).
Proof.
  induction target as [|t ts IH]; intros mask pre Hlen;
    destruct mask as [|b bs]; simpl in *; try reflexivity; try lia.
  assert (Hstep : LongTensor.masked_select ts bs
                  = map (fun p => nth p (pre ++ t :: ts) 0%Z)
                        (LongTensor.nonzero_from (S (length pre)) bs)).
  { rewrite (IH bs (pre ++ [t])) by lia.
    rewrite <- app_assoc, length_app. simpl.
    now rewrite Nat.add_1_r. }
  destruct b; simpl.
  - rewrite nth_middle. now rewrite Hstep.
  - exact Hstep.
Qed.

(** ** The scenario of the specification *)

(** C6, as the code has it: with cutoffs [4, 7, 10] there are two
    clusters; target 5 (position 1) goes to cluster 0 with local id 1,
    target 8 (position 2) goes to cluster 1 with local id 1, positions 0
    and 3 stay in the head band, and the remapped vector is
    [0, 4, 5, 2]. *)
Theorem scenario_routing :
  remap_target [4; 7; 10]%Z [0; 5; 8; 2]%Z
  = [Some [0; 4; 5; 2]%Z; Some [1%Z]; Some [1%Z]]
  /\ set_target_ids [4; 7; 10]%Z [0; 5; 8; 2]%Z
     = [Some [1%nat]; Some [2%nat]].
Proof. split; reflexivity. Qed.

(** The remapped vector of the scenario is not [0, 4, 4, 2], and target 8
    does not get the local id 4. *)
Lemma scenario_routing_counterexample :
  ~ (nth 0 (remap_target [4; 7; 10]%Z [0; 5; 8; 2]%Z) None
     = Some [0; 4; 4; 2]%Z
     /\ exists i, nth (S i) (remap_target [4; 7; 10]%Z [0; 5; 8; 2]%Z) None
                  = Some [1; 4]%Z).
Proof.
  intros [H _]. vm_compute in H. discriminate H.
Qed.

(** ** [set_target] against [remap_target] in the set-up of [main.py] *)

Lemma in_cluster_main (cuts : list Z) (ntokens : Z) (i : nat) (t : Z) :
  (i < length cuts)%nat -> (t < ntokens)%Z ->
  in_cluster (model_cutoff cuts ntokens) i t
  = in_cluster (criterion_cutoff cuts ntokens) i t.
Proof.
  intros Hi Ht. unfold in_cluster, cutoff_at, model_cutoff, criterion_cutoff.
  rewrite (app_nth1 cuts [ntokens]), (app_nth1 cuts [(ntokens + 1)%Z]) by lia.
  destruct (Nat.eq_dec (i + 1) (length cuts)) as [Heq|Hne].
  - rewrite Heq, !nth_middle.
    replace (t <? ntokens)%Z with true by (symmetry; apply Z.ltb_lt; lia).
    replace (t <? ntokens + 1)%Z with true by (symmetry; apply Z.ltb_lt; lia).
    reflexivity.
  - rewrite (app_nth1 cuts [ntokens]), (app_nth1 cuts [(ntokens + 1)%Z])
      by lia.
    reflexivity.
Qed.

Lemma cluster_mask_main (cuts : list Z) (ntokens : Z) (i : nat)
  (target : list Z) :
  (i < length cuts)%nat -> Forall (fun t => (t < ntokens)%Z) target ->
  cluster_mask (model_cutoff cuts ntokens) i target
  = cluster_mask (criterion_cutoff cuts ntokens) i target.
Proof.
  intros Hi Hall. rewrite !cluster_mask_in_cluster.
  apply map_ext_in. intros t Ht.
  apply in_cluster_main; [exact Hi|].
  rewrite Forall_forall in Hall. now apply Hall.
Qed.

Lemma clusters_main (cuts : list Z) (v : Z) :
  clusters (cuts ++ [v]) = seq 0 (length cuts).
Proof.
  unfold clusters. rewrite length_app. simpl.
  now replace (length cuts + 1 - 1)%nat with (length cuts) by lia.
Qed.

(** C10: for targets below the vocabulary size, [set_target] on the
    model's cutoffs and [remap_target] on the criterion's cutoffs (one more
    in the last place) build the same mask for every cluster; the rows
    selected for a cluster and its local ids are both absent or both
    present, and then the k-th local id is the target at the k-th selected
    row minus the cluster's lower cutoff. *)
Theorem set_target_agrees_with_remap_target (cuts : list Z) (ntokens : Z)
  (target : list Z) (i : nat) :
  Forall (fun t => (0 <= t < ntokens)%Z) target ->
  (i < length cuts)%nat ->
  cluster_mask (model_cutoff cuts ntokens) i target
  = cluster_mask (criterion_cutoff cuts ntokens) i target
  /\ nth (S i) (remap_target (criterion_cutoff cuts ntokens) target) None
     = option_map (map (fun p => (nth p target 0 - cutoff_at cuts i)%Z))
         (nth i (set_target_ids (model_cutoff cuts ntokens) target) None).
Proof.
  intros Hall Hi.
  assert (Hlt : Forall (fun t => (t < ntokens)%Z) target).
  { eapply Forall_impl; [|exact Hall]. simpl. intros; lia. }
  pose proof (cluster_mask_main cuts ntokens i target Hi Hlt) as Hmask.
  split; [exact Hmask|].
  rewrite remap_target_closed. simpl nth.
  unfold set_target_ids, model_cutoff, criterion_cutoff.
  rewrite !clusters_main.
  rewrite (nth_indep _ None (remap_entry (cuts ++ [(ntokens + 1)%Z]) target 0))
    by (rewrite length_map, length_seq; exact Hi).
  rewrite (nth_indep _ None (set_target_entry (cuts ++ [ntokens]) target 0))
    by (rewrite length_map, length_seq; exact Hi).
  rewrite !map_nth, !seq_nth by exact Hi. simpl.
  unfold remap_entry, set_target_entry.
  fold (model_cutoff cuts ntokens). fold (criterion_cutoff cuts ntokens).
  rewrite Hmask.
  destruct (0 <? LongTensor.sum _)%nat; simpl; [|reflexivity].
  f_equal. unfold LongTensor.add, LongTensor.nonzero.
  rewrite (masked_select_nonzero target _ [])
    by apply cluster_mask_length.
  simpl. rewrite map_map.
  apply map_ext. intros p.
  unfold cutoff_at, criterion_cutoff. rewrite app_nth1 by exact Hi. lia.
Qed.

Lemma set_target_agrees_with_remap_target_witness :
  cluster_mask (model_cutoff [4; 7]%Z 10) 1 [0; 5; 8; 2]%Z
  = cluster_mask (criterion_cutoff [4; 7]%Z 10) 1 [0; 5; 8; 2]%Z
  /\ nth 2 (remap_target (criterion_cutoff [4; 7]%Z 10) [0; 5; 8; 2]%Z) None
     = option_map (map (fun p => (nth p [0; 5; 8; 2] 0 - cutoff_at [4; 7] 1)%Z))
         (nth 1 (set_target_ids (model_cutoff [4; 7]%Z 10) [0; 5; 8; 2]%Z)
              None).
Proof.
  apply (set_target_agrees_with_remap_target [4; 7]%Z 10 [0; 5; 8; 2]%Z 1).
  - repeat constructor; lia.
  - simpl. lia.
Defined.

(** ** Shapes of the layers *)

Lemma Linear_shape_spec (l : Linear) (n_in n_out : Z) (b : bool) :
  Linear_shape l n_in n_out b = true ->
  Z.of_nat (in_features l) = n_in /\ Z.of_nat (out_features l) = n_out /\
  length (weight l) = out_features l /\
  match bias l with
  | Some v => length v = out_features l
  | None => True
  end.
Proof.
  unfold Linear_shape. rewrite !andb_true_iff.
  intros [[[[H1 H2] H3] _] H5].
  apply Z.eqb_eq in H1. apply Z.eqb_eq in H2. apply Nat.eqb_eq in H3.
  repeat split; auto.
  destruct (bias l), b; try discriminate; auto.
  now apply Nat.eqb_eq in H5.
Qed.

Lemma linear_row_length (l : Linear) (n_in n_out : Z) (b : bool) (x : list R) :
  Linear_shape l n_in n_out b = true ->
  length (linear_row l x) = out_features l.
Proof.
  intros H. destruct (Linear_shape_spec l n_in n_out b H) as [_ [_ [Hw Hb]]].
  unfold linear_row. destruct (bias l) as [v|].
  - rewrite length_map, length_combine, length_map. lia.
  - now rewrite length_map.
Qed.

Lemma log_softmax_length (x : list R) : length (log_softmax x) = length x.
Proof. unfold log_softmax. apply length_map. Qed.

Lemma tail_shapes_nth (nhid : Z) (cutoff : list Z) (tail : list Sequential) :
  forall base i s,
    tail_shapes nhid cutoff base tail = true ->
    nth_error tail i = Some s ->
    Linear_shape (fst s) nhid (nhid / 4 ^ Z.of_nat (base + i))%Z false = true
    /\ Linear_shape (snd s) (nhid / 4 ^ Z.of_nat (base + i))%Z
         (cutoff_at cutoff (base + i + 1) - cutoff_at cutoff (base + i))%Z
         false = true.
Proof.
  induction tail as [|s0 rest IH]; intros base i s H Hn.
  - destruct i; discriminate.
  - simpl in H. rewrite !andb_true_iff in H. destruct H as [[H1 H2] H3].
    destruct i as [|i]; simpl in Hn.
    + injection Hn as <-. rewrite Nat.add_0_r. now split.
    + replace (base + S i)%nat with (S base + i)%nat by lia.
      now apply IH.
Qed.

Lemma init_shapes_spec (m : AdaptiveSoftmax) :
  init_shapes m = true ->
  output_size m
  = (cutoff_at (cutoff m) 0 + Z.of_nat (length (cutoff m)) - 1)%Z
  /\ Linear_shape (head m) (nhid m) (output_size m) true = true
  /\ length (tail m) = (length (cutoff m) - 1)%nat
  /\ tail_shapes (nhid m) (cutoff m) 0 (tail m) = true.
Proof.
  unfold init_shapes. rewrite !andb_true_iff.
  intros [[[H1 H2] H3] H4].
  apply Z.eqb_eq in H1. apply Nat.eqb_eq in H3. auto.
Qed.

(** Strictly increasing integers leave room for every index in between. *)
Lemma valid_cutoff_gap (cutoff : list Z) (i : nat) :
  valid_cutoff cutoff = true ->
  forall j, (i <= j)%nat -> (j < length cutoff)%nat ->
            (cutoff_at cutoff i + Z.of_nat (j - i) <= cutoff_at cutoff j)%Z.
Proof.
  intros Hv j. induction j as [|j IH]; intros Hij Hj.
  - replace i with 0%nat by lia. simpl. lia.
  - destruct (Nat.eq_dec i (S j)) as [->|Hne].
    + rewrite Nat.sub_diag. simpl. lia.
    + specialize (IH ltac:(lia) ltac:(lia)).
      pose proof (valid_cutoff_mono cutoff j (S j) Hv ltac:(lia) Hj).
      replace (S j - i)%nat with (S (j - i)) by lia. lia.
Qed.

Lemma getitem_nth {A : Type} (l : list A) (i : nat) (d : A) :
  (i < length l)%nat -> getitem l i = Return (nth i l d).
Proof.
  intros Hi. unfold getitem.
  destruct (nth_error l i) as [a|] eqn:E.
  - now rewrite (nth_error_nth l i d E).
  - apply nth_error_None in E. lia.
Qed.

Lemma combine_map_same {A B C : Type} (f : A -> B) (g : A -> C) (l : list A) :
  combine (map f l) (map g l) = map (fun x => (f x, g x)) l.
Proof. induction l as [|x xs IH]; simpl; [reflexivity|now rewrite IH]. Qed.

(** ** Tensor operations on batches given row by row *)

Lemma narrow_rows {A : Type} (F : A -> list R) (rows : list A) (n : nat)
  (start len : Z) :
  (0 <= start)%Z -> (0 < len)%Z -> (start + len <= Z.of_nat n)%Z ->
  FloatTensor.narrow (mkTensor n (map F rows)) start len
  = Return (mkTensor (Z.to_nat len)
              (map (fun h => FloatTensor.slice (Z.to_nat start) (Z.to_nat len)
                               (F h)) rows)).
Proof.
  intros H1 H2 H3. unfold FloatTensor.narrow. simpl.
  replace (0 <=? start)%Z with true by (symmetry; apply Z.leb_le; lia).
  replace (0 <? len)%Z with true by (symmetry; apply Z.ltb_lt; lia).
  replace (start + len <=? Z.of_nat n)%Z with true
    by (symmetry; apply Z.leb_le; lia).
  simpl. now rewrite map_map.
Qed.

Lemma expand_rows {A : Type} (F : A -> list R) (rows : list A) (len : Z) :
  (0 < len)%Z ->
  FloatTensor.expand (mkTensor 1 (map F rows)) (length rows) len
  = Return (mkTensor (Z.to_nat len)
              (map (fun h => repeat (nth 0 (F h) 0%R) (Z.to_nat len)) rows)).
Proof.
  intros H. unfold FloatTensor.expand, size0. simpl.
  rewrite length_map, Nat.eqb_refl.
  replace (0 <? len)%Z with true by (symmetry; apply Z.ltb_lt; lia).
  simpl. now rewrite map_map.
Qed.

Lemma same_shape_rows {A : Type} (F G : A -> list R) (rows : list A)
  (n : nat) :
  FloatTensor.same_shape (mkTensor n (map F rows)) (mkTensor n (map G rows))
  = true.
Proof.
  unfold FloatTensor.same_shape, size0. simpl.
  now rewrite !length_map, !Nat.eqb_refl.
Qed.

Lemma add_rows {A : Type} (F G : A -> list R) (rows : list A) (n : nat) :
  FloatTensor.add_ (mkTensor n (map F rows)) (mkTensor n (map G rows))
  = Return (mkTensor n
              (map (fun h => map (fun q => (fst q + snd q)%R)
                                 (combine (F h) (G h))) rows)).
Proof.
  unfold FloatTensor.add_. rewrite same_shape_rows. simpl.
  now rewrite combine_map_same, map_map.
Qed.

Lemma copy_rows {A : Type} (F G : A -> list R) (rows : list A) (n : nat) :
  FloatTensor.copy_ (mkTensor n (map F rows)) (mkTensor n (map G rows))
  = Return (mkTensor n (map G rows)).
Proof. unfold FloatTensor.copy_. now rewrite same_shape_rows. Qed.

Lemma narrow_update_rows {A : Type} (F G : A -> list R) (rows : list A)
  (n k : nat) (start len : Z) (op : Tensor -> result Tensor) :
  (0 <= start)%Z -> (0 < len)%Z -> (start + len <= Z.of_nat n)%Z ->
  op (mkTensor (Z.to_nat len)
        (map (fun h => FloatTensor.slice (Z.to_nat start) (Z.to_nat len) (F h))
             rows))
  = Return (mkTensor k (map G rows)) ->
  FloatTensor.narrow_update (mkTensor n (map F rows)) start len op
  = Return (mkTensor n
              (map (fun h => FloatTensor.splice (Z.to_nat start) (F h) (G h))
                   rows)).
Proof.
  intros H1 H2 H3 Hop. unfold FloatTensor.narrow_update.
  rewrite narrow_rows by assumption. simpl. rewrite Hop. simpl.
  unfold FloatTensor.write_back. simpl.
  now rewrite combine_map_same, map_map.
Qed.

Lemma splice_app (P J B : list R) (a : nat) :
  length P = a ->
  FloatTensor.splice a (P ++ J) B = P ++ B ++ skipn (length B) J.
Proof.
  intros <-. unfold FloatTensor.splice.
  rewrite firstn_app, Nat.sub_diag, firstn_all. simpl. rewrite app_nil_r.
  rewrite skipn_app, skipn_all2 by lia. simpl.
  now replace (length P + length B - length P)%nat with (length B) by lia.
Qed.

Lemma add_repeat (x : R) (l : list R) (n : nat) :
  length l = n ->
  map (fun q => (fst q + snd q)%R) (combine (repeat x n) l) = map (Rplus x) l.
Proof.
  intros <-. induction l as [|y ys IH]; simpl; [reflexivity|now rewrite IH].
Qed.

Lemma add_zeros (l : list R) (n : nat) :
  length l = n ->
  map (fun q => (fst q + snd q)%R) (combine (repeat 0%R n) l) = l.
Proof.
  intros H. rewrite add_repeat by exact H.
  rewrite <- (map_id l) at 2. apply map_ext. intros y. apply Rplus_0_l.
Qed.

Lemma nth_skipn_zero (l : list R) (s : nat) (d : R) :
  nth 0 (skipn s l) d = nth s l d.
Proof.
  revert l. induction s as [|s IH]; intros l; [reflexivity|].
  destruct l as [|y ys]; [reflexivity|]. simpl. apply IH.
Qed.

Lemma slice_one (l : list R) (s : nat) (d : R) :
  nth 0 (FloatTensor.slice s 1 l) d = nth s l d.
Proof.
  unfold FloatTensor.slice. rewrite <- (nth_skipn_zero l s d).
  destruct (skipn s l); reflexivity.
Qed.

Lemma skipn_zeros (x : R) (k n : nat) :
  skipn k (repeat x n) = repeat x (n - k).
Proof.
  revert n. induction k as [|k IH]; intros n; simpl.
  - now rewrite Nat.sub_0_r.
  - destruct n as [|n]; simpl; [reflexivity|apply IH].
Qed.

Lemma slice_all (l : list R) (n : nat) :
  length l = n -> FloatTensor.slice 0 n l = l.
Proof. intros <-. unfold FloatTensor.slice. simpl. apply firstn_all. Qed.

Lemma slice_repeat (x : R) (n k : nat) :
  (k <= n)%nat -> FloatTensor.slice 0 k (repeat x n) = repeat x k.
Proof.
  intros H. unfold FloatTensor.slice. simpl.
  replace n with (k + (n - k))%nat by lia.
  rewrite repeat_app, firstn_app, repeat_length, Nat.sub_diag. simpl.
  rewrite app_nil_r. rewrite <- (repeat_length x k) at 1. apply firstn_all.
Qed.

(** ** Sums of exponentials *)

Lemma Rsum_app (a b : list R) : Rsum (a ++ b) = (Rsum a + Rsum b)%R.
Proof.
  unfold Rsum. induction a as [|x xs IH]; simpl; [lra|].
  rewrite IH. lra.
Qed.

Lemma Rsum_exp_single (x : R) : Rsum (map exp [x]) = exp x.
Proof. unfold Rsum. simpl. lra. Qed.

Lemma Rsum_scale (k : R) (l : list R) :
  Rsum (map (fun v => (k * v)%R) l) = (k * Rsum l)%R.
Proof.
  unfold Rsum. induction l as [|x xs IH]; simpl; [lra|].
  rewrite IH. lra.
Qed.

Lemma Rsum_exp_pos (x : list R) : x <> [] -> (0 < Rsum (map exp x))%R.
Proof.
  assert (Hge : forall l, (0 <= Rsum (map exp l))%R).
  { induction l as [|y ys IH]; unfold Rsum in *; simpl; [lra|].
    pose proof (exp_pos y). lra. }
  destruct x as [|y ys]; [congruence|]. intros _.
  unfold Rsum. simpl. pose proof (exp_pos y). pose proof (Hge ys).
  unfold Rsum in *. lra.
Qed.

(** A log-softmax is the logarithm of a probability vector. *)
Lemma log_softmax_normalised (x : list R) :
  x <> [] -> Rsum (map exp (log_softmax x)) = 1%R.
Proof.
  intros Hx. pose proof (Rsum_exp_pos x Hx) as Hpos.
  unfold log_softmax. rewrite map_map.
  rewrite (map_ext _ (fun v => (/ Rsum (map exp x) * exp v)%R)).
  - rewrite <- (map_map exp (fun e => (/ Rsum (map exp x) * e)%R)).
    rewrite Rsum_scale. field. lra.
  - intros v. unfold Rminus. rewrite exp_plus, exp_Ropp, exp_ln by exact Hpos.
    lra.
Qed.

Lemma Rsum_exp_shift (k : R) (l : list R) :
  Rsum (map exp (map (Rplus k) l)) = (exp k * Rsum (map exp l))%R.
Proof.
  rewrite map_map. rewrite <- Rsum_scale, map_map.
  f_equal. apply map_ext. intros v. apply exp_plus.
Qed.

Lemma firstn_succ (l : list R) (n : nat) (d : R) :
  (n < length l)%nat -> firstn (S n) l = firstn n l ++ [nth n l d].
Proof.
  revert l. induction n as [|n IH]; intros l Hn.
  - destruct l; simpl in *; [lia|reflexivity].
  - destruct l as [|y ys]; simpl in *; [lia|].
    f_equal. apply IH. lia.
Qed.

Lemma nth_firstn_lt (l : list R) (j n : nat) (d : R) :
  (j < n)%nat -> nth j (firstn n l) d = nth j l d.
Proof.
  revert l n. induction j as [|j IH]; intros l n Hj.
  - destruct n; [lia|]. destruct l; reflexivity.
  - destruct n; [lia|]. destruct l; [reflexivity|].
    simpl. apply IH. lia.
Qed.

(** ** [log_prob]: the buffer after each cluster *)

Section LogProb.

Variable m : AdaptiveSoftmax.
Variable input : Tensor.
Hypothesis Hshapes : init_shapes m = true.
Hypothesis Hvalid : valid_cutoff (cutoff m) = true.
Hypothesis Hbatch : hidden_batch m input.

Let c (i : nat) : Z := cutoff_at (cutoff m) i.
Let K : nat := (length (cutoff m) - 1)%nat.

Lemma cutoff_nonempty : (0 < length (cutoff m))%nat.
Proof.
  pose proof Hvalid as Hv. unfold valid_cutoff in Hv.
  destruct (cutoff m); [discriminate Hv|simpl; lia].
Qed.

Lemma c_pos (i : nat) : (i <= K)%nat -> (0 < c i)%Z.
Proof.
  intros Hi. apply valid_cutoff_pos; [exact Hvalid|].
  pose proof cutoff_nonempty. unfold K in Hi. lia.
Qed.

Lemma c_step (i : nat) : (i < K)%nat -> (c i < c (i + 1))%Z.
Proof.
  intros Hi. apply valid_cutoff_mono; [exact Hvalid|lia|].
  unfold K in Hi. lia.
Qed.

Lemma c_le (i j : nat) : (i <= j)%nat -> (j <= K)%nat -> (c i <= c j)%Z.
Proof.
  intros Hij Hj. apply valid_cutoff_mono_le; [exact Hvalid|exact Hij|].
  pose proof cutoff_nonempty. unfold K in Hj. lia.
Qed.

Lemma output_size_eq : output_size m = (c 0 + Z.of_nat K)%Z.
Proof.
  destruct (init_shapes_spec m Hshapes) as [H _].
  pose proof cutoff_nonempty. rewrite H. unfold c, K. lia.
Qed.

Lemma output_size_le : (output_size m <= c K)%Z.
Proof.
  rewrite output_size_eq.
  pose proof (valid_cutoff_gap (cutoff m) 0 Hvalid K ltac:(lia)) as H.
  rewrite Nat.sub_0_r in H. apply H.
  pose proof cutoff_nonempty. unfold K. lia.
Qed.

Lemma head_out_features :
  Z.of_nat (out_features (head m)) = output_size m.
Proof.
  destruct (init_shapes_spec m Hshapes) as [_ [H _]].
  now destruct (Linear_shape_spec _ _ _ _ H) as [_ [H2 _]].
Qed.

Lemma head_lsm_length (h : list R) :
  length (head_lsm m h) = Z.to_nat (output_size m).
Proof.
  destruct (init_shapes_spec m Hshapes) as [_ [H _]].
  unfold head_lsm. rewrite log_softmax_length.
  rewrite (linear_row_length _ _ _ _ h H).
  rewrite <- head_out_features. now rewrite Nat2Z.id.
Qed.

Lemma head_forward :
  Linear_forward (head m) input
  = Return (mkTensor (out_features (head m))
              (map (linear_row (head m)) (data input))).
Proof.
  destruct (init_shapes_spec m Hshapes) as [_ [H _]].
  destruct (Linear_shape_spec _ _ _ _ H) as [Hin _].
  destruct Hbatch as [_ Hsz].
  unfold Linear_forward.
  replace (size1 input =? in_features (head m))%nat with true; [reflexivity|].
  symmetry. apply Nat.eqb_eq. lia.
Qed.

Lemma tail_lookup (i : nat) :
  (i < K)%nat -> exists s, nth_error (tail m) i = Some s.
Proof.
  intros Hi. destruct (init_shapes_spec m Hshapes) as [_ [_ [Hlen _]]].
  destruct (nth_error (tail m) i) as [s|] eqn:E; [now exists s|].
  apply nth_error_None in E. unfold K in Hi. lia.
Qed.

Lemma tail_out_features (i : nat) (s : Sequential) :
  nth_error (tail m) i = Some s ->
  Z.of_nat (out_features (snd s)) = (c (i + 1) - c i)%Z.
Proof.
  intros Hs. destruct (init_shapes_spec m Hshapes) as [_ [_ [_ Ht]]].
  destruct (tail_shapes_nth _ _ _ 0 i s Ht Hs) as [_ H2].
  now destruct (Linear_shape_spec _ _ _ _ H2) as [_ [H _]].
Qed.

Lemma tail_forward (i : nat) (s : Sequential) (x : Tensor) :
  nth_error (tail m) i = Some s ->
  Z.of_nat (size1 x) = nhid m ->
  Sequential_forward s x
  = Return (mkTensor (out_features (snd s)) (map (tail_row s) (data x))).
Proof.
  intros Hs Hx. destruct (init_shapes_spec m Hshapes) as [_ [_ [_ Ht]]].
  destruct (tail_shapes_nth _ _ _ 0 i s Ht Hs) as [H1 H2].
  destruct (Linear_shape_spec _ _ _ _ H1) as [Hin1 [Hout1 _]].
  destruct (Linear_shape_spec _ _ _ _ H2) as [Hin2 _].
  unfold Sequential_forward, Linear_forward.
  replace (size1 x =? in_features (fst s))%nat with true
    by (symmetry; apply Nat.eqb_eq; lia).
  simpl.
  replace (out_features (fst s) =? in_features (snd s))%nat with true
    by (symmetry; apply Nat.eqb_eq; lia).
  simpl. unfold tail_row. now rewrite map_map.
Qed.

Lemma tail_lsm_length (i : nat) (h : list R) :
  (i < K)%nat ->
  length (tail_lsm m i h) = Z.to_nat (c (i + 1) - c i).
Proof.
  intros Hi. destruct (tail_lookup i Hi) as [s Hs].
  destruct (init_shapes_spec m Hshapes) as [_ [_ [_ Ht]]].
  destruct (tail_shapes_nth _ _ _ 0 i s Ht Hs) as [_ H2].
  unfold tail_lsm. rewrite Hs, log_softmax_length.
  unfold tail_row. rewrite (linear_row_length _ _ _ _ _ H2).
  rewrite <- (tail_out_features i s Hs). now rewrite Nat2Z.id.
Qed.

Lemma prob_prefix_length (h : list R) (k : nat) :
  (k <= K)%nat -> length (prob_prefix m h k) = Z.to_nat (c k).
Proof.
  induction k as [|k IH]; intros Hk.
  - simpl. rewrite length_firstn, head_lsm_length, output_size_eq.
    fold (c 0). pose proof (c_pos 0 ltac:(lia)). lia.
  - simpl. rewrite length_app, length_map, IH by lia.
    rewrite tail_lsm_length by lia.
    pose proof (c_step k ltac:(lia)). pose proof (c_pos k ltac:(lia)).
    replace (S k) with (k + 1)%nat by lia. lia.
Qed.

Lemma lsm_head_rows :
  FloatTensor.lsm (mkTensor (out_features (head m))
                     (map (linear_row (head m)) (data input)))
  = mkTensor (out_features (head m)) (map (head_lsm m) (data input)).
Proof. unfold FloatTensor.lsm. simpl. now rewrite map_map. Qed.

Lemma log_prob_loop_spec (n : nat) :
  forall (i : nat) (J : list R -> list R),
    (i + n = K)%nat ->
    (forall h, In h (data input) ->
               length (J h) = (Z.to_nat (c K) - Z.to_nat (c i))%nat) ->
    log_prob_loop m input (length (data input))
      (mkTensor (out_features (head m)) (map (head_lsm m) (data input)))
      (seq i n)
      (mkTensor (Z.to_nat (c K))
         (map (fun h => prob_prefix m h i ++ J h) (data input)))
    = Return (mkTensor (Z.to_nat (c K))
                (map (fun h => prob_prefix m h K) (data input))).
Proof.
  induction n as [|n IH]; intros i J Hi HJ.
  - simpl. unfold Return. do 2 f_equal.
    replace i with K by lia.
    apply map_ext_in. intros h Hh.
    specialize (HJ h Hh). replace i with K in HJ by lia.
    rewrite Nat.sub_diag in HJ. apply length_zero_iff_nil in HJ.
    rewrite HJ. apply app_nil_r.
  - assert (HiK : (i < K)%nat) by lia.
    pose proof cutoff_nonempty as Hne.
    pose proof (c_pos i ltac:(lia)) as Hci.
    pose proof (c_pos 0 ltac:(lia)) as Hc0.
    pose proof (c_step i HiK) as Hstep.
    pose proof (c_le (i + 1) K ltac:(lia) ltac:(lia)) as HcK.
    destruct (tail_lookup i HiK) as [s Hs].
    simpl seq. cbn [log_prob_loop].
    rewrite (getitem_nth (cutoff m) i 0%Z) by (unfold K in HiK; lia).
    rewrite (getitem_nth (cutoff m) (i + 1) 0%Z) by (unfold K in HiK; lia).
    rewrite (getitem_nth (cutoff m) 0 0%Z) by lia.
    cbn [bind Return].
    fold (cutoff_at (cutoff m) i) (cutoff_at (cutoff m) (i + 1))
         (cutoff_at (cutoff m) 0).
    fold (c i) (c (i + 1)) (c 0).
    rewrite narrow_rows;
      [|lia|lia|rewrite head_out_features, output_size_eq; lia].
    cbn [bind Return]. change (Z.to_nat 1) with 1%nat.
    rewrite expand_rows by lia. cbn [bind Return].
    unfold getitem at 1. rewrite Hs. cbn [bind Return].
    destruct Hbatch as [_ Hsz].
    rewrite (tail_forward i s input Hs Hsz). cbn [bind Return].
    unfold FloatTensor.lsm. cbn [size1 data]. rewrite map_map.
    assert (Hout : out_features (snd s) = Z.to_nat (c (i + 1) - c i)).
    { rewrite <- (tail_out_features i s Hs). now rewrite Nat2Z.id. }
    rewrite Hout.
    erewrite narrow_update_rows;
      [|lia|lia|lia|rewrite copy_rows; cbn [bind Return]; apply add_rows].
    cbn [bind Return].
    replace (seq (S i) n) with (seq (i + 1) n) by (f_equal; lia).
    rewrite <- (IH (i + 1)%nat
                  (fun h => skipn (Z.to_nat (c (i + 1) - c i)) (J h)));
      [|lia|].
    + do 2 f_equal. apply map_ext_in. intros h Hh.
      rewrite splice_app by (apply prob_prefix_length; lia).
      assert (Hlen : length (log_softmax (tail_row s h))
                     = Z.to_nat (c (i + 1) - c i)).
      { rewrite <- (tail_lsm_length i h HiK). unfold tail_lsm. now rewrite Hs. }
      rewrite add_repeat by exact Hlen.
      rewrite length_map, Hlen.
      replace (i + 1)%nat with (S i) by lia. cbn [prob_prefix].
      rewrite <- app_assoc. do 2 f_equal.
      unfold tail_lsm. rewrite Hs.
      rewrite slice_one. do 2 f_equal.
      fold (c 0). rewrite Z2Nat.inj_add, Nat2Z.id by lia. reflexivity.
    + intros h Hh. rewrite length_skipn, (HJ h Hh). lia.
Qed.

Lemma log_prob_rows :
  log_prob m input
  = Return (mkTensor (Z.to_nat (c K))
              (map (fun h => prob_prefix m h K) (data input))).
Proof.
  pose proof cutoff_nonempty as Hne.
  pose proof (c_pos 0 ltac:(lia)) as Hc0.
  pose proof (c_pos K ltac:(lia)) as HcK.
  pose proof output_size_le as Hle.
  pose proof output_size_eq as Hos.
  destruct (init_shapes_spec m Hshapes) as [_ [_ [Htl _]]].
  unfold log_prob. rewrite head_forward. cbn [bind Return].
  unfold getlast. rewrite (getitem_nth (cutoff m) _ 0%Z) by lia.
  cbn [bind Return]. fold (cutoff_at (cutoff m) (length (cutoff m) - 1)).
  fold K. fold (c K).
  unfold FloatTensor.zeros.
  replace (c K <? 0)%Z with false by (symmetry; apply Z.ltb_ge; lia).
  cbn [bind Return]. unfold size0. cbn [data]. rewrite length_map.
  rewrite <- (map_const (repeat 0%R (Z.to_nat (c K))) (data input)).
  rewrite lsm_head_rows.
  erewrite narrow_update_rows;
    [|lia|lia|lia|
     rewrite narrow_rows;
       [cbn [bind Return]; apply add_rows
       |lia|lia|rewrite head_out_features; lia]].
  cbn [bind Return]. change (Z.to_nat 0) with 0%nat.
  rewrite Htl. fold K.
  rewrite <- (log_prob_loop_spec K 0
                (fun h => skipn (Z.to_nat (c 0)) (head_lsm m h)
                          ++ repeat 0%R (Z.to_nat (c K)
                                         - Z.to_nat (output_size m))));
    [|lia|].
  - do 2 f_equal. apply map_ext_in. intros h Hh.
    rewrite slice_repeat by lia.
    rewrite slice_all by apply head_lsm_length.
    rewrite add_zeros by apply head_lsm_length.
    unfold FloatTensor.splice. cbn [firstn app prob_prefix].
    rewrite head_lsm_length. cbn [Nat.add].
    fold (c 0). rewrite app_assoc, firstn_skipn.
    f_equal. apply skipn_zeros.
  - intros h Hh. rewrite length_app, length_skipn, repeat_length.
    rewrite head_lsm_length. lia.
Qed.

Lemma prob_prefix_extends (h : list R) (k k' : nat) :
  (k <= k')%nat ->
  exists rest, prob_prefix m h k' = prob_prefix m h k ++ rest.
Proof.
  induction k' as [|k' IH]; intros Hk.
  - replace k with 0%nat by lia. exists []. now rewrite app_nil_r.
  - destruct (Nat.eq_dec k (S k')) as [->|Hne].
    + exists []. now rewrite app_nil_r.
    + destruct (IH ltac:(lia)) as [rest Hrest].
      eexists. cbn [prob_prefix]. rewrite Hrest, <- app_assoc. reflexivity.
Qed.

Lemma prob_prefix_head (h : list R) (j : nat) :
  (j < Z.to_nat (c 0))%nat ->
  nth j (prob_prefix m h K) 0%R = nth j (head_lsm m h) 0%R.
Proof.
  intros Hj. destruct (prob_prefix_extends h 0 K ltac:(lia)) as [rest ->].
  rewrite app_nth1 by (rewrite prob_prefix_length; [exact Hj|lia]).
  cbn [prob_prefix]. now apply nth_firstn_lt.
Qed.

Lemma prob_prefix_cluster (h : list R) (i j : nat) :
  (i < K)%nat -> (Z.to_nat (c i) <= j < Z.to_nat (c (i + 1)))%nat ->
  nth j (prob_prefix m h K) 0%R
  = (nth (Z.to_nat (c 0) + i) (head_lsm m h) 0
     + nth (j - Z.to_nat (c i)) (tail_lsm m i h) 0)%R.
Proof.
  intros Hi Hj.
  pose proof (c_pos i ltac:(lia)) as Hci. pose proof (c_step i Hi) as Hstep.
  destruct (prob_prefix_extends h (S i) K ltac:(lia)) as [rest ->].
  rewrite app_nth1
    by (rewrite prob_prefix_length by lia;
        replace (S i) with (i + 1)%nat by lia; lia).
  cbn [prob_prefix].
  rewrite app_nth2 by (rewrite prob_prefix_length by lia; lia).
  rewrite prob_prefix_length by lia.
  set (x := nth (Z.to_nat (cutoff_at (cutoff m) 0) + i) (head_lsm m h) 0%R).
  rewrite (nth_indep _ 0%R (x + 0)%R)
    by (rewrite length_map, tail_lsm_length by exact Hi; lia).
  now rewrite (map_nth (Rplus x)).
Qed.

Lemma head_lsm_normalised (h : list R) :
  Rsum (map exp (head_lsm m h)) = 1%R.
Proof.
  unfold head_lsm. apply log_softmax_normalised.
  intros Hnil. pose proof (head_lsm_length h) as Hlen.
  unfold head_lsm in Hlen. rewrite log_softmax_length, Hnil in Hlen.
  pose proof output_size_eq. pose proof (c_pos 0 ltac:(lia)).
  simpl in Hlen. lia.
Qed.

Lemma tail_lsm_normalised (i : nat) (h : list R) :
  (i < K)%nat -> Rsum (map exp (tail_lsm m i h)) = 1%R.
Proof.
  intros Hi. pose proof (tail_lsm_length i h Hi) as Hlen.
  pose proof (c_step i Hi) as Hstep.
  unfold tail_lsm in *. destruct (nth_error (tail m) i) as [s|].
  - apply log_softmax_normalised. intros Hnil.
    rewrite log_softmax_length, Hnil in Hlen. simpl in Hlen. lia.
  - simpl in Hlen. lia.
Qed.

Lemma prob_prefix_mass (h : list R) (k : nat) :
  (k <= K)%nat ->
  Rsum (map exp (prob_prefix m h k))
  = Rsum (map exp (firstn (Z.to_nat (c 0) + k) (head_lsm m h))).
Proof.
  induction k as [|k IH]; intros Hk.
  - cbn [prob_prefix]. now rewrite Nat.add_0_r.
  - cbn [prob_prefix]. rewrite map_app, Rsum_app, IH by lia.
    rewrite Rsum_exp_shift, tail_lsm_normalised by lia.
    replace (Z.to_nat (c 0) + S k)%nat with (S (Z.to_nat (c 0) + k)) by lia.
    rewrite (firstn_succ _ _ 0%R).
    + rewrite map_app, Rsum_app, Rsum_exp_single. unfold c. lra.
    + rewrite head_lsm_length, output_size_eq.
      pose proof (c_pos 0 ltac:(lia)). lia.
Qed.

Lemma prob_row_normalised (h : list R) :
  Rsum (map exp (prob_prefix m h K)) = 1%R.
Proof.
  rewrite prob_prefix_mass by lia.
  rewrite firstn_all2; [apply head_lsm_normalised|].
  rewrite head_lsm_length, output_size_eq.
  pose proof (c_pos 0 ltac:(lia)). lia.
Qed.

End LogProb.

(** ** The dense log-probability matrix *)

Lemma last_cutoff_at (cutoff : list Z) :
  last cutoff 0%Z = cutoff_at cutoff (length cutoff - 1).
Proof.
  unfold cutoff_at. induction cutoff as [|c rest IH]; [reflexivity|].
  destruct rest as [|c' rest']; [reflexivity|].
  change (last (c :: c' :: rest') 0%Z) with (last (c' :: rest') 0%Z).
  rewrite IH. simpl. now rewrite Nat.sub_0_r.
Qed.

(** C1: on a batch of shape [N, H] and valid cutoffs, [log_prob] returns an
    [N, V] matrix; in every row, entry [j] below [c0] is the head
    log-softmax's entry [j], and entry [j] in the range of cluster [i] is
    the head log-softmax's entry [c0 + i] plus the tail log-softmax of
    cluster [i] at [j - c_i]. *)
Theorem log_prob_entries (m : AdaptiveSoftmax) (input : Tensor) :
  init_shapes m = true ->
  valid_cutoff (cutoff m) = true ->
  hidden_batch m input ->
  exists prob,
    log_prob m input = Return prob
    /\ size0 prob = size0 input
    /\ Z.of_nat (size1 prob) = last (cutoff m) 0%Z
    /\ dense_entries m input prob.
Proof.
  intros Hs Hv Hb. eexists. split; [apply (log_prob_rows m input Hs Hv Hb)|].
  pose proof (cutoff_nonempty m Hv) as Hne.
  pose proof (c_pos m Hv (length (cutoff m) - 1) ltac:(lia)) as HV.
  split; [unfold size0; simpl; apply length_map|].
  split.
  { simpl. rewrite Z2Nat.id by lia. symmetry. apply last_cutoff_at. }
  intros r h Hr. exists (prob_prefix m h (length (cutoff m) - 1)).
  split; [simpl; now rewrite nth_error_map, Hr|].
  split; [simpl; apply (prob_prefix_length m Hs Hv); lia|].
  split.
  - intros j Hj. apply (prob_prefix_head m Hs Hv). lia.
  - intros i j Hi Hj.
    pose proof (c_pos m Hv i ltac:(lia)) as Hci.
    pose proof (c_pos m Hv 0 ltac:(lia)) as Hc0.
    rewrite (prob_prefix_cluster m Hs Hv h i (Z.to_nat j) Hi) by lia.
    f_equal; f_equal; lia.
Qed.

Lemma log_prob_entries_witness :
  exists prob,
    log_prob example_model example_input = Return prob
    /\ size0 prob = size0 example_input
    /\ Z.of_nat (size1 prob) = last (cutoff example_model) 0%Z
    /\ dense_entries example_model example_input prob.
Proof.
  apply (log_prob_entries example_model example_input).
  - reflexivity.
  - reflexivity.
  - split; [repeat constructor|reflexivity].
Defined.

(** The assembled rows have the entries of the data model. *)
Lemma assembled_rows_dense (m : AdaptiveSoftmax) (input : Tensor) :
  init_shapes m = true ->
  valid_cutoff (cutoff m) = true ->
  dense_entries m input
    (mkTensor (Z.to_nat (cutoff_at (cutoff m) (length (cutoff m) - 1)))
       (map (fun h => prob_prefix m h (length (cutoff m) - 1)) (data input))).
Proof.
  intros Hs Hv. pose proof (cutoff_nonempty m Hv) as Hne.
  intros r h Hr. exists (prob_prefix m h (length (cutoff m) - 1)).
  split; [simpl; now rewrite nth_error_map, Hr|].
  split; [simpl; apply (prob_prefix_length m Hs Hv); lia|].
  split.
  - intros j Hj. apply (prob_prefix_head m Hs Hv). lia.
  - intros i j Hi Hj.
    pose proof (c_pos m Hv i ltac:(lia)) as Hci.
    pose proof (c_pos m Hv 0 ltac:(lia)) as Hc0.
    rewrite (prob_prefix_cluster m Hs Hv h i (Z.to_nat j) Hi) by lia.
    f_equal; f_equal; lia.
Qed.

(** C2: in exact arithmetic every row of the dense matrix returned by
    [log_prob] is a log-probability distribution over the vocabulary: the
    matrix has one row per hidden state and [V] columns (the last cutoff),
    its entries are those of the data model (head log-softmax in the head
    band, head entry [c0 + i] plus tail log-softmax in cluster [i]), every
    row has [V] entries, and the exponentials of the entries of a row sum
    to one. *)
Theorem log_prob_rows_sum_to_one (m : AdaptiveSoftmax) (input : Tensor) :
  init_shapes m = true ->
  valid_cutoff (cutoff m) = true ->
  hidden_batch m input ->
  exists prob,
    log_prob m input = Return prob
    /\ size0 prob = size0 input
    /\ Z.of_nat (size1 prob) = last (cutoff m) 0%Z
    /\ dense_entries m input prob
    /\ Forall (fun row => Z.of_nat (length row) = last (cutoff m) 0%Z
                          /\ Rsum (map exp row) = 1%R)
              (data prob).
Proof.
  intros Hs Hv Hb. eexists. split; [apply (log_prob_rows m input Hs Hv Hb)|].
  pose proof (cutoff_nonempty m Hv) as Hne.
  pose proof (c_pos m Hv (length (cutoff m) - 1) ltac:(lia)) as HV.
  assert (Hwidth : Z.of_nat (Z.to_nat (cutoff_at (cutoff m)
                                         (length (cutoff m) - 1)))
                   = last (cutoff m) 0%Z)
    by (rewrite Z2Nat.id by lia; symmetry; apply last_cutoff_at).
  split; [unfold size0; simpl; apply length_map|].
  split; [exact Hwidth|].
  split; [now apply assembled_rows_dense|].
  cbn [data]. apply Forall_forall. intros row Hrow.
  apply in_map_iff in Hrow. destruct Hrow as [h [<- _]]. split.
  - rewrite (prob_prefix_length m Hs Hv) by lia. exact Hwidth.
  - apply (prob_row_normalised m Hs Hv).
Qed.

Lemma log_prob_rows_sum_to_one_witness :
  exists prob,
    log_prob example_model example_input = Return prob
    /\ size0 prob = size0 example_input
    /\ Z.of_nat (size1 prob) = last (cutoff example_model) 0%Z
    /\ dense_entries example_model example_input prob
    /\ Forall (fun row => Z.of_nat (length row)
                          = last (cutoff example_model) 0%Z
                          /\ Rsum (map exp row) = 1%R)
              (data prob).
Proof.
  apply (log_prob_rows_sum_to_one example_model example_input).
  - reflexivity.
  - reflexivity.
  - split; [repeat constructor|reflexivity].
Defined.

(** ** The criterion and the loop of [AdaptiveLoss.forward] *)

Lemma nll_sum_in_range (ncls : nat) (rows : list (list R)) :
  forall target,
    Forall (fun t => (0 <= t < Z.of_nat ncls)%Z) target ->
    nll_sum ncls rows target = Return (ce_sum rows target).
Proof.
  induction rows as [|row rows IH]; intros target Hall.
  - destruct target; reflexivity.
  - destruct target as [|t ts]; [reflexivity|].
    inversion Hall as [|? ? Ht Hts]; subst.
    cbn [nll_sum]. unfold nll_term.
    replace (0 <=? t)%Z with true by (symmetry; apply Z.leb_le; lia).
    replace (t <? Z.of_nat ncls)%Z with true by (symmetry; apply Z.ltb_lt; lia).
    cbn [andb bind Return]. rewrite (IH ts Hts). reflexivity.
Qed.

Lemma criterion_in_range (x : Tensor) (tg : list Z) :
  size0 x = length tg ->
  Forall (fun t => (0 <= t < Z.of_nat (size1 x))%Z) tg ->
  criterion x tg = Return (ce_sum (data x) tg).
Proof.
  intros Hlen Hall. unfold criterion.
  rewrite Hlen, Nat.eqb_refl. now apply nll_sum_in_range.
Qed.

Lemma fold_min_bounds (lo hi : Z) (l : list Z) :
  forall a, (lo <= a <= hi)%Z -> Forall (fun t => (lo <= t <= hi)%Z) l ->
            (lo <= fold_left Z.min l a <= hi)%Z.
Proof.
  induction l as [|t ts IH]; intros a Ha Hall; simpl; [exact Ha|].
  inversion Hall; subst. apply IH; [lia|assumption].
Qed.

Lemma fold_max_bounds (lo hi : Z) (l : list Z) :
  forall a, (lo <= a <= hi)%Z -> Forall (fun t => (lo <= t <= hi)%Z) l ->
            (lo <= fold_left Z.max l a <= hi)%Z.
Proof.
  induction l as [|t ts IH]; intros a Ha Hall; simpl; [exact Ha|].
  inversion Hall; subst. apply IH; [lia|assumption].
Qed.

Lemma tensor_min_bounds (lo hi : Z) (tg : list Z) :
  tg <> [] -> Forall (fun t => (lo <= t <= hi)%Z) tg ->
  exists a, tensor_min tg = Return a /\ (lo <= a <= hi)%Z.
Proof.
  destruct tg as [|t ts]; [congruence|]. intros _ Hall.
  inversion Hall; subst. eexists. split; [reflexivity|].
  now apply fold_min_bounds.
Qed.

Lemma tensor_max_bounds (lo hi : Z) (tg : list Z) :
  tg <> [] -> Forall (fun t => (lo <= t <= hi)%Z) tg ->
  exists a, tensor_max tg = Return a /\ (lo <= a <= hi)%Z.
Proof.
  destruct tg as [|t ts]; [congruence|]. intros _ Hall.
  inversion Hall; subst. eexists. split; [reflexivity|].
  now apply fold_max_bounds.
Qed.

Lemma tl_skipn {A : Type} (l : list A) (i : nat) :
  tl (skipn i l) = skipn (S i) l.
Proof.
  revert l. induction i as [|i IH]; intros l.
  - destruct l; reflexivity.
  - destruct l as [|a l']; [reflexivity|]. apply (IH l').
Qed.

Lemma nth_error_skipn_head {A : Type} (l : list A) (i : nat) (a : A)
  (rest : list A) :
  skipn i l = a :: rest -> nth_error l i = Some a /\ skipn (S i) l = rest.
Proof.
  intros H. split.
  - revert l H. induction i as [|i IH]; intros l H.
    + simpl in H. now subst l.
    + destruct l as [|b l']; [discriminate|]. apply (IH l' H).
  - rewrite <- tl_skipn, H. reflexivity.
Qed.

Lemma spec_loss_sum_nil (input : list (option Tensor)) :
  spec_loss_sum input [] = 0%R.
Proof. destruct input as [|[x|] rest]; reflexivity. Qed.

(** On consistent slots the loop adds up the cross-entropies of the
    specification and never stops at the debugger. *)
Lemma loss_loop_ok (target : list (option (list Z)))
  (input : list (option Tensor)) :
  forall i st,
    slots_ok input (skipn i target) ->
    loss_loop input target i st
    = Return (mkLossState (output st + spec_loss_sum input (skipn i target))
                          (breakpoints st)).
Proof.
  induction input as [|[x|] rest IH]; intros i st Hok.
  - simpl. destruct st as [o b]. simpl. unfold Return. do 2 f_equal. lra.
  - cbn [slots_ok] in Hok.
    destruct (skipn i target) as [|[tg|] target'] eqn:E; try contradiction.
    destruct Hok as [[Hne [Hlen Hall]] Hrest].
    destruct (nth_error_skipn_head target i _ _ E) as [Hnth Hskip].
    cbn [loss_loop]. unfold getitem. rewrite Hnth. cbn [bind Return].
    assert (Hall' : Forall (fun t => (0 <= t <= Z.of_nat (size1 x) - 1)%Z) tg).
    { eapply Forall_impl; [|exact Hall]. simpl. intros; lia. }
    destruct (tensor_min_bounds _ _ tg Hne Hall') as [lo [-> Hlo]].
    destruct (tensor_max_bounds _ _ tg Hne Hall') as [hi [-> Hhi]].
    cbn [bind Return].
    replace (0 <=? lo)%Z with true by (symmetry; apply Z.leb_le; lia).
    replace (hi <=? Z.of_nat (size1 x))%Z with true
      by (symmetry; apply Z.leb_le; lia).
    cbn [andb]. rewrite (criterion_in_range x tg Hlen Hall). unfold Return.
    rewrite IH by (rewrite Hskip; exact Hrest).
    rewrite Hskip. cbn [output breakpoints spec_loss_sum].
    unfold Return. do 2 f_equal. lra.
  - cbn [slots_ok] in Hok. rewrite tl_skipn in Hok.
    cbn [loss_loop]. rewrite IH by exact Hok.
    unfold Return. do 2 f_equal. f_equal.
    rewrite <- tl_skipn.
    destruct (skipn i target) as [|a l']; [|reflexivity].
    simpl. now rewrite spec_loss_sum_nil.
Qed.

(** ** Batches whose targets all lie in the head band *)

Lemma remap_id_outside (cutoff : list Z) (t : Z) (idx : list nat) :
  forall current,
    Forall (fun i => in_cluster cutoff i t = false) idx ->
    remap_id cutoff idx t current = current.
Proof.
  induction idx as [|i rest IH]; intros current Hall; [reflexivity|].
  inversion Hall as [|? ? Hi Hrest]; subst.
  cbn [remap_id]. rewrite Hi. now apply IH.
Qed.

Lemma in_cluster_below_head (cutoff : list Z) (t : Z) (i : nat) :
  valid_cutoff cutoff = true -> (t < cutoff_at cutoff 0)%Z ->
  (i < length cutoff - 1)%nat ->
  in_cluster cutoff i t = false.
Proof.
  intros Hv Ht Hi.
  pose proof (valid_cutoff_mono_le cutoff 0 i Hv ltac:(lia) ltac:(lia)).
  unfold in_cluster. apply andb_false_iff. left. apply Z.leb_gt. lia.
Qed.

Lemma clusters_bound (cutoff : list Z) :
  Forall (fun i => (i < length cutoff - 1)%nat) (clusters cutoff).
Proof.
  apply Forall_forall. intros i Hi. unfold clusters in Hi.
  apply in_seq in Hi. lia.
Qed.

Lemma remap_id_below_head (cutoff : list Z) (t : Z) :
  valid_cutoff cutoff = true -> (t < cutoff_at cutoff 0)%Z ->
  remap_id cutoff (clusters cutoff) t t = t.
Proof.
  intros Hv Ht. apply remap_id_outside.
  eapply Forall_impl; [|apply clusters_bound].
  intros i Hi. now apply in_cluster_below_head.
Qed.

Lemma slots_ok_none (tails : list (option Tensor)) :
  Forall (fun s => s = None) tails ->
  forall new_target, slots_ok tails new_target.
Proof.
  induction 1 as [|s rest Hs _ IH]; intros new_target; [exact I|].
  subst s. cbn [slots_ok]. apply IH.
Qed.

Lemma spec_loss_sum_none (tails : list (option Tensor)) :
  Forall (fun s => s = None) tails ->
  forall new_target, spec_loss_sum tails new_target = 0%R.
Proof.
  induction 1 as [|s rest Hs _ IH]; intros new_target; [reflexivity|].
  subst s. destruct new_target as [|a l']; [reflexivity|]. apply IH.
Qed.

(** The loss of a head-band batch, as a value. *)
Lemma head_band_loss_value (l : AdaptiveLoss) (head_out : Tensor)
  (tails : list (option Tensor)) (target : list Z) :
  valid_cutoff (loss_cutoff l) = true ->
  Forall (fun s => s = None) tails ->
  target <> [] ->
  size0 head_out = length target ->
  Forall (fun t => (0 <= t < cutoff_at (loss_cutoff l) 0)%Z) target ->
  (cutoff_at (loss_cutoff l) 0 <= Z.of_nat (size1 head_out))%Z ->
  AdaptiveLoss_forward l (Some head_out :: tails) target
  = Return (mkLossState (ce_sum (data head_out) target / INR (size0 head_out))
                        0).
Proof.
  intros Hv Hnone Hne Hlen Hall Hwidth.
  unfold AdaptiveLoss_forward. rewrite remap_target_closed.
  assert (Hsame : map (fun t => remap_id (loss_cutoff l)
                                  (clusters (loss_cutoff l)) t t) target
                  = target).
  { rewrite <- (map_id target) at 2. apply map_ext_in. intros t Ht.
    rewrite Forall_forall in Hall. specialize (Hall t Ht).
    apply remap_id_below_head; [exact Hv|lia]. }
  rewrite Hsame. unfold loss_after_remap.
  cbn [getitem nth_error bind Return].
  rewrite loss_loop_ok.
  - cbn [bind Return skipn spec_loss_sum output breakpoints].
    rewrite (spec_loss_sum_none tails Hnone).
    destruct (size0 head_out =? 0)%nat eqn:E.
    + apply Nat.eqb_eq in E. destruct target; [congruence|simpl in Hlen; lia].
    + unfold Return. do 2 f_equal. unfold Rdiv. ring.
  - cbn [skipn slots_ok]. split; [|now apply slots_ok_none].
    split; [exact Hne|]. split; [exact Hlen|].
    eapply Forall_impl; [|exact Hall]. simpl. intros; lia.
Qed.

(** C4, as the code has it: when every target is a head-band id, the
    adaptive loss is the plain mean cross-entropy of the whole head output
    (all of its [c0 + K] columns, the cluster columns included) against the
    raw targets. *)
Theorem head_band_loss_is_plain_cross_entropy (l : AdaptiveLoss)
  (head_out : Tensor) (tails : list (option Tensor)) (target : list Z) :
  valid_cutoff (loss_cutoff l) = true ->
  Forall (fun s => s = None) tails ->
  target <> [] ->
  size0 head_out = length target ->
  Forall (fun t => (0 <= t < cutoff_at (loss_cutoff l) 0)%Z) target ->
  (cutoff_at (loss_cutoff l) 0 <= Z.of_nat (size1 head_out))%Z ->
  exists v,
    CrossEntropyLoss head_out target = Return v
    /\ AdaptiveLoss_forward l (Some head_out :: tails) target
       = Return (mkLossState v 0).
Proof.
  intros Hv Hnone Hne Hlen Hall Hwidth.
  exists (ce_sum (data head_out) target / INR (size0 head_out))%R. split.
  - unfold CrossEntropyLoss. rewrite criterion_in_range; [reflexivity|exact Hlen|].
    eapply Forall_impl; [|exact Hall]. simpl. intros; lia.
  - now apply head_band_loss_value.
Qed.

Lemma head_band_loss_is_plain_cross_entropy_witness :
  exists v,
    CrossEntropyLoss (mkTensor 2 [[0%R; 0%R]]) [0%Z] = Return v
    /\ AdaptiveLoss_forward (mkAdaptiveLoss [1; 2]%Z)
         [Some (mkTensor 2 [[0%R; 0%R]]); None] [0%Z]
       = Return (mkLossState v 0).
Proof.
  apply (head_band_loss_is_plain_cross_entropy (mkAdaptiveLoss [1; 2]%Z)
           (mkTensor 2 [[0%R; 0%R]]) [None] [0%Z]).
  - reflexivity.
  - repeat constructor.
  - discriminate.
  - reflexivity.
  - repeat constructor; unfold cutoff_at; simpl; lia.
  - unfold cutoff_at. simpl. lia.
Defined.

(** Against the first [c0] columns alone the two differ: with cutoffs
    [1, 2], head logits [0, 0] and target 0 the adaptive loss is [ln 2],
    the cross-entropy on the first column is 0. *)
Lemma head_band_loss_counterexample :
  exists v w,
    AdaptiveLoss_forward (mkAdaptiveLoss [1; 2]%Z)
      [Some (mkTensor 2 [[0%R; 0%R]]); None] [0%Z]
    = Return (mkLossState v 0)
    /\ plain_head_band_loss 1 (mkTensor 2 [[0%R; 0%R]]) [0%Z] = Return w
    /\ v <> w.
Proof.
  exists (ln 2), 0%R. split; [|split].
  - rewrite head_band_loss_value.
    + unfold Return. do 2 f_equal.
      unfold ce_sum, log_softmax, Rsum, size0. simpl.
      rewrite exp_0. replace (1 + (1 + 0))%R with 2%R by lra. field.
    + reflexivity.
    + repeat constructor.
    + discriminate.
    + reflexivity.
    + repeat constructor; unfold cutoff_at; simpl; lia.
    + unfold cutoff_at. simpl. lia.
  - unfold plain_head_band_loss, FloatTensor.narrow. cbn [size1 data].
    cbn [Z.leb Z.ltb Z.add Z.of_nat andb Z.compare Pos.compare
         Pos.compare_cont Pos.of_succ_nat Pos.succ Pos.add].
    simpl. unfold CrossEntropyLoss, criterion, size0. simpl.
    unfold nll_term. simpl. unfold Return. f_equal.
    unfold log_softmax, Rsum. simpl.
    rewrite exp_0. replace (1 + 0)%R with 1%R by lra. rewrite ln_1. field.
  - pose proof ln_lt_2. lra.
Qed.

(** ** The assertion of [AdaptiveLoss.forward] *)

(** C9 fails on the code at the boundary: the assertion compares the largest
    local id with [input[i].size(1)] by [<=].  With criterion cutoffs
    [1, 3], a tail output of one column and target 2, the local id 1 is no
    column of the tail output, yet the assertion passes, the criterion's
    error is caught, the debugger is entered and the loop goes on: the call
    returns the head term alone. *)
Theorem assertion_admits_local_id_equal_to_width :
  exists v,
    AdaptiveLoss_forward (mkAdaptiveLoss [1; 3]%Z)
      [Some (mkTensor 2 [[0%R; 0%R]]); Some (mkTensor 1 [[0%R]])] [2%Z]
    = Return (mkLossState v 1)
    /\ nth 1 (remap_target [1; 3]%Z [2%Z]) None = Some [1%Z]
    /\ criterion (mkTensor 1 [[0%R]]) [1%Z] = Raise RuntimeError.
Proof.
  eexists. split; [|split]; reflexivity.
Qed.

(** One past the boundary the assertion does fail. *)
Lemma assertion_rejects_local_id_beyond_width :
  AdaptiveLoss_forward (mkAdaptiveLoss [1; 4]%Z)
    [Some (mkTensor 2 [[0%R; 0%R]]); Some (mkTensor 1 [[0%R]])] [3%Z]
  = Raise AssertionError.
Proof. reflexivity. Qed.

(** ** [forward] after [set_target] *)

Lemma select_rows_mask (f : Z -> bool) (rows : list (list R)) :
  forall target pre,
    length rows = length target ->
    FloatTensor.select_rows (pre ++ rows)
      (LongTensor.nonzero_from (length pre) (map f target))
    = Return (map fst (filter (fun p => f (snd p)) (combine rows target))).
Proof.
  induction rows as [|r rs IH]; intros target pre Hlen;
    destruct target as [|t ts]; simpl in Hlen; try lia; [reflexivity|].
  specialize (IH ts (pre ++ [r]) ltac:(lia)).
  rewrite <- app_assoc, length_app in IH. simpl in IH.
  rewrite Nat.add_1_r in IH.
  cbn [map LongTensor.nonzero_from combine filter snd].
  destruct (f t).
  - cbn [FloatTensor.select_rows]. rewrite nth_error_app2 by lia.
    rewrite Nat.sub_diag. cbn [nth_error]. rewrite IH. reflexivity.
  - exact IH.
Qed.

Lemma masked_select_routed (f : Z -> bool) (rows : list (list R)) :
  forall target,
    length rows = length target ->
    LongTensor.masked_select target (map f target)
    = map snd (filter (fun p => f (snd p)) (combine rows target)).
Proof.
  induction rows as [|r rs IH]; intros target Hlen;
    destruct target as [|t ts]; simpl in Hlen; try lia; [reflexivity|].
  cbn [map LongTensor.masked_select combine filter snd].
  destruct (f t); cbn [map snd]; rewrite (IH ts) by lia; reflexivity.
Qed.

Lemma mask_sum_routed (f : Z -> bool) (rows : list (list R)) :
  forall target,
    length rows = length target ->
    LongTensor.sum (map f target)
    = length (filter (fun p => f (snd p)) (combine rows target)).
Proof.
  unfold LongTensor.sum.
  induction rows as [|r rs IH]; intros target Hlen;
    destruct target as [|t ts]; simpl in Hlen; try lia; [reflexivity|].
  cbn [map combine filter snd].
  destruct (f t); cbn [length]; rewrite (IH ts) by lia; reflexivity.
Qed.

Lemma set_target_entry_used (cutoff target : list Z) (i : nat) :
  set_target_entry cutoff target i
  = if cluster_used cutoff target i
    then Some (LongTensor.nonzero (cluster_mask cutoff i target))
    else None.
Proof. reflexivity. Qed.

Section Training.

Variable m : AdaptiveSoftmax.
Variable hidden : Tensor.
Variable target : list Z.
Hypothesis Hshapes : init_shapes m = true.
Hypothesis Hbatch : hidden_batch m hidden.
Hypothesis Hlen : length target = size0 hidden.

Lemma cluster_used_routed (i : nat) :
  cluster_used (cutoff m) target i = true
  <-> routed (cutoff m) i (data hidden) target <> [].
Proof.
  unfold cluster_used, routed. rewrite cluster_mask_in_cluster.
  rewrite (mask_sum_routed _ (data hidden)) by (symmetry; exact Hlen).
  rewrite Nat.ltb_lt.
  destruct (filter _ _); simpl; split; intros; try lia; congruence.
Qed.

Lemma forward_loop_closed (n : nat) :
  forall i,
    (i + n <= length (tail m))%nat ->
    forward_loop (tail m) hidden i
      (map (set_target_entry (cutoff m) target) (seq i n))
    = Return (map (forward_slot m hidden target) (seq i n),
              filter (cluster_used (cutoff m) target) (seq i n)).
Proof.
  induction n as [|n IH]; intros i Hi; [reflexivity|].
  cbn [seq map filter]. unfold forward_slot at 1.
  rewrite !set_target_entry_used.
  destruct (cluster_used (cutoff m) target i).
  - cbn [forward_loop].
    destruct (nth_error (tail m) i) as [s|] eqn:Hs;
      [|apply nth_error_None in Hs; lia].
    unfold getitem. rewrite Hs. cbn [bind Return].
    unfold FloatTensor.index_select, LongTensor.nonzero.
    rewrite cluster_mask_in_cluster.
    rewrite (select_rows_mask _ (data hidden) target [])
      by (symmetry; exact Hlen).
    cbn [bind Return].
    destruct Hbatch as [_ Hsz].
    rewrite (tail_forward m Hshapes i s _ Hs) by exact Hsz.
    cbn [bind Return data]. rewrite IH by lia. cbn [bind Return fst snd].
    unfold routed. rewrite map_map. reflexivity.
  - cbn [forward_loop]. rewrite IH by lia. reflexivity.
Qed.

Lemma forward_closed :
  forward (set_target m target) hidden
  = Return (Some (mkTensor (out_features (head m))
                    (map (linear_row (head m)) (data hidden)))
            :: map (forward_slot m hidden target) (clusters (cutoff m)),
            filter (cluster_used (cutoff m) target) (clusters (cutoff m))).
Proof.
  destruct (init_shapes_spec m Hshapes) as [_ [Hhead [Htl _]]].
  destruct (Linear_shape_spec _ _ _ _ Hhead) as [Hin _].
  destruct Hbatch as [_ Hsz].
  unfold forward. cbn [set_target head id tail].
  unfold Linear_forward.
  replace (size1 hidden =? in_features (head m))%nat with true
    by (symmetry; apply Nat.eqb_eq; lia).
  cbn [bind Return]. unfold set_target_ids, clusters.
  rewrite forward_loop_closed by lia. reflexivity.
Qed.

End Training.

(** ** An empty cluster *)

Lemma nth_error_omit_before {A : Type} (l : list A) (k j : nat) :
  (j < k)%nat -> nth_error (omit k l) j = nth_error l j.
Proof.
  revert l j. induction k as [|k IH]; intros l j Hj; [lia|].
  destruct l as [|a l']; [destruct j; reflexivity|].
  destruct j as [|j]; [reflexivity|].
  unfold omit in *. cbn [firstn skipn app nth_error]. apply IH. lia.
Qed.

Lemma nth_error_omit_after {A : Type} (l : list A) (k j : nat) :
  (k <= j)%nat -> nth_error (omit k l) j = nth_error l (S j).
Proof.
  revert l j. induction k as [|k IH]; intros l j Hj.
  - unfold omit. simpl. destruct l as [|a l']; [|reflexivity].
    destruct j; reflexivity.
  - destruct l as [|a l']; [destruct j; reflexivity|].
    destruct j as [|j]; [lia|].
    unfold omit in *. cbn [firstn skipn app nth_error]. apply IH. lia.
Qed.

Lemma loss_loop_shift (target : list (option (list Z))) (k : nat)
  (post : list (option Tensor)) :
  forall j st,
    (k <= j)%nat ->
    loss_loop post target (S j) st = loss_loop post (omit k target) j st.
Proof.
  induction post as [|[x|] rest IH]; intros j st Hj; [reflexivity| |].
  - cbn [loss_loop]. unfold getitem.
    rewrite (nth_error_omit_after target k j Hj).
    destruct (nth_error target (S j)) as [[tg|]|]; cbn [bind Return Raise];
      try reflexivity.
    destruct (tensor_min tg) as [e|lo]; [reflexivity|].
    destruct (tensor_max tg) as [e|hi]; [reflexivity|].
    cbn [bind].
    destruct ((0 <=? lo)%Z && (hi <=? Z.of_nat (size1 x))%Z); [|reflexivity].
    destruct (criterion x tg); apply IH; lia.
  - cbn [loss_loop]. apply IH. lia.
Qed.

Lemma loss_loop_omit (target : list (option (list Z)))
  (post pre : list (option Tensor)) :
  forall i st,
    loss_loop (pre ++ None :: post) target i st
    = loss_loop (pre ++ post) (omit (i + length pre) target) i st.
Proof.
  induction pre as [|[x|] rest IH]; intros i st.
  - cbn [app length loss_loop]. rewrite Nat.add_0_r.
    apply loss_loop_shift. lia.
  - cbn [app length loss_loop]. unfold getitem.
    rewrite (nth_error_omit_before target (i + S (length rest)) i)
      by lia.
    replace (i + S (length rest))%nat with (S i + length rest)%nat by lia.
    destruct (nth_error target i) as [[tg|]|]; cbn [bind Return Raise];
      try reflexivity.
    destruct (tensor_min tg) as [e|lo]; [reflexivity|].
    destruct (tensor_max tg) as [e|hi]; [reflexivity|].
    cbn [bind].
    destruct ((0 <=? lo)%Z && (hi <=? Z.of_nat (size1 x))%Z); [|reflexivity].
    destruct (criterion x tg); apply IH.
  - cbn [app length loss_loop].
    replace (i + S (length rest))%nat with (S i + length rest)%nat by lia.
    apply IH.
Qed.

Lemma nth_error_split_none {A : Type} (l : list (option A)) (k : nat) :
  nth_error l k = Some None ->
  l = firstn k l ++ None :: skipn (S k) l /\ length (firstn k l) = k.
Proof.
  revert l. induction k as [|k IH]; intros l H.
  - destruct l as [|a l']; [discriminate|]. simpl in H.
    injection H as ->. now split.
  - destruct l as [|a l']; [discriminate|]. simpl in H.
    destruct (IH l' H) as [H1 H2]. split.
    + change (a :: l' = a :: (firstn k l' ++ None :: skipn (S k) l')).
      now f_equal.
    + cbn [firstn length]. now rewrite H2.
Qed.

(** A slot that holds no logits may be left out, together with its slot
    of the remapped targets. *)
Lemma loss_after_remap_omit (input : list (option Tensor))
  (new_target : list (option (list Z))) (k : nat) :
  (0 < k)%nat -> nth_error input k = Some None ->
  loss_after_remap input new_target
  = loss_after_remap (omit k input) (omit k new_target).
Proof.
  intros Hk Hnone. unfold loss_after_remap, getitem.
  rewrite (nth_error_omit_before input k 0 Hk).
  destruct (nth_error input 0) as [[head_out|]|]; try reflexivity.
  cbn [bind Return].
  destruct (nth_error_split_none input k Hnone) as [Hsplit Hlenk].
  rewrite Hsplit at 1. rewrite loss_loop_omit.
  rewrite Hlenk. reflexivity.
Qed.

(** C5: when no target of the batch falls in cluster [i], [forward] leaves
    [None] in the cluster's output slot and does not call its tail
    classifier, and the loss is the one computed with the cluster's slot
    left out of the outputs and of the remapped targets. *)
Theorem empty_cluster_is_skipped (m : AdaptiveSoftmax) (l : AdaptiveLoss)
  (hidden : Tensor) (target : list Z) (i : nat) :
  init_shapes m = true ->
  hidden_batch m hidden ->
  length target = size0 hidden ->
  (i < length (cutoff m) - 1)%nat ->
  LongTensor.sum (cluster_mask (cutoff m) i target) = 0%nat ->
  exists out calls,
    forward (set_target m target) hidden = Return (out, calls)
    /\ nth_error out (S i) = Some None
    /\ ~ In i calls
    /\ train_loss m l hidden target
       = loss_after_remap (omit (S i) out)
           (omit (S i) (remap_target (loss_cutoff l) target)).
Proof.
  intros Hs Hb Hlen Hi Hzero.
  pose proof (forward_closed m hidden target Hs Hb Hlen) as Hfw.
  assert (Hunused : cluster_used (cutoff m) target i = false).
  { unfold cluster_used. now rewrite Hzero. }
  assert (Hslot : nth_error
                    (map (forward_slot m hidden target) (clusters (cutoff m))) i
                  = Some None).
  { rewrite nth_error_map. unfold clusters.
    rewrite (nth_error_nth' _ 0%nat) by (rewrite length_seq; exact Hi).
    rewrite seq_nth by exact Hi. cbn [option_map Nat.add].
    unfold forward_slot. rewrite set_target_entry_used, Hunused. reflexivity. }
  eexists. eexists. split; [exact Hfw|].
  split; [exact Hslot|]. split.
  - intros Hin. apply filter_In in Hin. destruct Hin as [_ Hused].
    congruence.
  - unfold train_loss. rewrite Hfw. cbn [bind Return fst].
    unfold AdaptiveLoss_forward.
    apply loss_after_remap_omit; [lia|exact Hslot].
Qed.

Lemma empty_cluster_is_skipped_witness :
  exists out calls,
    forward (set_target example_model [0%Z; 0%Z]) example_input
    = Return (out, calls)
    /\ nth_error out 1 = Some None
    /\ ~ In 0%nat calls
    /\ train_loss example_model (mkAdaptiveLoss [1; 3]%Z) example_input
         [0%Z; 0%Z]
       = loss_after_remap (omit 1 out)
           (omit 1 (remap_target
                      (loss_cutoff (mkAdaptiveLoss [1; 3]%Z)) [0%Z; 0%Z])).
Proof.
  apply (empty_cluster_is_skipped example_model (mkAdaptiveLoss [1; 3]%Z)
           example_input [0%Z; 0%Z] 0).
  - reflexivity.
  - split; [repeat constructor|reflexivity].
  - reflexivity.
  - simpl. lia.
  - reflexivity.
Defined.

(** ** Sums over the batch and over the clusters *)

Lemma Rsum_filter {A : Type} (f : A -> bool) (g : A -> R) (l : list A) :
  Rsum (map g (filter f l))
  = Rsum (map (fun p => if f p then g p else 0%R) l).
Proof.
  unfold Rsum. induction l as [|a l' IH]; [reflexivity|].
  cbn [filter map fold_right]. destruct (f a); cbn [map fold_right];
    rewrite IH; lra.
Qed.

Lemma Rsum_plus {A : Type} (a b : A -> R) (l : list A) :
  (Rsum (map a l) + Rsum (map b l))%R = Rsum (map (fun p => (a p + b p)%R) l).
Proof.
  unfold Rsum. induction l as [|x l' IH]; cbn [map fold_right]; [lra|].
  rewrite <- IH. lra.
Qed.

Lemma Rsum_zero {A : Type} (l : list A) : Rsum (map (fun _ => 0%R) l) = 0%R.
Proof.
  unfold Rsum. induction l as [|x l' IH]; cbn [map fold_right]; [reflexivity|].
  rewrite IH. lra.
Qed.

Lemma Rsum_swap {A B : Type} (F : A -> B -> R) (idx : list A) (l : list B) :
  Rsum (map (fun i => Rsum (map (F i) l)) idx)
  = Rsum (map (fun p => Rsum (map (fun i => F i p) idx)) l).
Proof.
  induction idx as [|i rest IH].
  - cbn [map]. now rewrite Rsum_zero.
  - cbn [map]. change (Rsum (?x :: ?xs)) with (x + Rsum xs)%R.
    rewrite IH, Rsum_plus. reflexivity.
Qed.

Lemma Rsum_indicator_none (f : nat -> bool) (g : nat -> R) (idx : list nat) :
  Forall (fun i => f i = false) idx ->
  Rsum (map (fun i => if f i then g i else 0%R) idx) = 0%R.
Proof.
  induction 1 as [|i rest Hi _ IH]; [reflexivity|].
  cbn [map]. change (Rsum (?x :: ?xs)) with (x + Rsum xs)%R.
  rewrite Hi, IH. lra.
Qed.

Lemma Rsum_indicator_one (f : nat -> bool) (g : nat -> R) (i0 : nat)
  (idx : list nat) :
  NoDup idx -> In i0 idx -> f i0 = true ->
  (forall j, In j idx -> f j = true -> j = i0) ->
  Rsum (map (fun i => if f i then g i else 0%R) idx) = g i0.
Proof.
  induction 1 as [|i rest Hnotin Hnd IH]; intros Hin Hi0 Huniq; [contradiction|].
  cbn [map]. change (Rsum (?x :: ?xs)) with (x + Rsum xs)%R.
  destruct (Nat.eq_dec i i0) as [->|Hne].
  - rewrite Hi0, Rsum_indicator_none; [lra|].
    apply Forall_forall. intros j Hj.
    destruct (f j) eqn:E; [|reflexivity].
    assert (j = i0) by (apply Huniq; [now right|exact E]). subst j.
    contradiction.
  - destruct (f i) eqn:E.
    + exfalso. apply Hne. apply Huniq; [now left|exact E].
    + rewrite IH; [lra| |exact Hi0|].
      * destruct Hin as [Heq|Hin]; [congruence|exact Hin].
      * intros j Hj. apply Huniq. now right.
Qed.

Lemma combine_map_both {A B C D : Type} (f : A -> C) (g : B -> D)
  (l : list A) :
  forall l', combine (map f l) (map g l')
             = map (fun p => (f (fst p), g (snd p))) (combine l l').
Proof.
  induction l as [|a l1 IH]; intros l'; [reflexivity|].
  destruct l' as [|b l2]; [reflexivity|].
  cbn [map combine fst snd]. now rewrite IH.
Qed.

(** ** Routing of one target *)

Lemma remap_id_hit (cutoff : list Z) (t : Z) (i0 : nat) (idx : list nat) :
  forall current,
    in_cluster cutoff i0 t = true ->
    (forall j, In j idx -> in_cluster cutoff j t = true -> j = i0) ->
    In i0 idx \/ current = (cutoff_at cutoff 0 + Z.of_nat i0)%Z ->
    remap_id cutoff idx t current = (cutoff_at cutoff 0 + Z.of_nat i0)%Z.
Proof.
  induction idx as [|i rest IH]; intros current Hi0 Huniq Hor.
  - destruct Hor as [Hin|Hcur]; [contradiction|]. subst current. reflexivity.
  - cbn [remap_id].
    assert (Hrest : forall j, In j rest -> in_cluster cutoff j t = true ->
                              j = i0)
      by (intros j Hj; apply Huniq; now right).
    destruct (in_cluster cutoff i t) eqn:E.
    + assert (i = i0) by (apply Huniq; [now left|exact E]). subst i.
      apply IH; auto.
    + apply IH; auto.
      destruct Hor as [[Heq|Hin]|Hcur]; auto.
      subst i. congruence.
Qed.

Lemma route_cluster (cutoff : list Z) (t : Z) (i0 : nat) :
  valid_cutoff cutoff = true -> (i0 < length cutoff - 1)%nat ->
  in_cluster cutoff i0 t = true ->
  route cutoff t = (cutoff_at cutoff 0 + Z.of_nat i0)%Z.
Proof.
  intros Hv Hi Hin. unfold route. apply remap_id_hit; [exact Hin| |].
  - intros j Hj Hjt. unfold clusters in Hj. apply in_seq in Hj.
    apply (in_cluster_unique cutoff j i0 t Hv); auto. lia.
  - left. unfold clusters. apply in_seq. lia.
Qed.

Lemma target_cases (cutoff : list Z) (t : Z) :
  valid_cutoff cutoff = true ->
  (0 <= t < cutoff_at cutoff (length cutoff - 1))%Z ->
  (t < cutoff_at cutoff 0)%Z
  \/ exists i, (i < length cutoff - 1)%nat /\ in_cluster cutoff i t = true.
Proof.
  intros Hv Ht. destruct (Z_lt_dec t (cutoff_at cutoff 0)) as [Hlt|Hge];
    [now left|right].
  rewrite <- last_cutoff_at in Ht.
  destruct cutoff as [|c rest]; [discriminate|].
  destruct (cluster_exists rest c t) as [i [Hi [H1 H2]]].
  - unfold cutoff_at in Hge. simpl in Hge. lia.
  - lia.
  - exists i. split; [simpl; lia|].
    apply in_cluster_true. unfold cutoff_at. lia.
Qed.

(** ** The training loss on consistent cutoffs *)

Section TrainingLoss.

Variable m : AdaptiveSoftmax.
Variable hidden : Tensor.
Variable target : list Z.
Hypothesis Hshapes : init_shapes m = true.
Hypothesis Hvalid : valid_cutoff (cutoff m) = true.
Hypothesis Hbatch : hidden_batch m hidden.
Hypothesis Hlen : length target = size0 hidden.
Hypothesis Hrange :
  Forall (fun t => (0 <= t < cutoff_at (cutoff m) (length (cutoff m) - 1))%Z)
         target.

Let K : nat := (length (cutoff m) - 1)%nat.

Lemma routed_in (i : nat) (p : list R * Z) :
  In p (routed (cutoff m) i (data hidden) target) ->
  in_cluster (cutoff m) i (snd p) = true.
Proof. unfold routed. intros H. apply filter_In in H. tauto. Qed.

(** The slot of cluster [i] in the outputs against its slot in the
    remapped targets. *)
Lemma slot_pair (i : nat) :
  (i < K)%nat ->
  match forward_slot m hidden target i, remap_entry (cutoff m) target i with
  | Some x, Some tg =>
      (tg <> [] /\ size0 x = length tg
       /\ Forall (fun t => (0 <= t < Z.of_nat (size1 x))%Z) tg)
      /\ ce_sum (data x) tg = tail_term m (data hidden) target i
  | None, None => tail_term m (data hidden) target i = 0%R
  | _, _ => False
  end.
Proof.
  intros Hi. destruct (tail_lookup m Hshapes i Hi) as [s Hs].
  unfold forward_slot, remap_entry. cbv zeta.
  rewrite set_target_entry_used, Hs.
  fold (cluster_used (cutoff m) target i).
  pose proof (cluster_used_routed m hidden target Hlen i) as Hused.
  destruct (cluster_used (cutoff m) target i).
  - assert (Hne : routed (cutoff m) i (data hidden) target <> [])
      by now apply Hused.
    rewrite cluster_mask_in_cluster.
    rewrite (masked_select_routed _ (data hidden)) by (symmetry; exact Hlen).
    fold (routed (cutoff m) i (data hidden) target).
    unfold LongTensor.add. rewrite map_map.
    split; [split; [|split]|].
    + destruct (routed (cutoff m) i (data hidden) target);
        [congruence|discriminate].
    + unfold size0. cbn [data]. now rewrite !length_map.
    + cbn [size1]. rewrite (tail_out_features m Hshapes i s Hs).
      apply Forall_forall. intros t Ht. apply in_map_iff in Ht.
      destruct Ht as [p [<- Hp]]. apply routed_in in Hp.
      apply in_cluster_true in Hp. lia.
    + unfold ce_sum, tail_term. cbn [data].
      rewrite combine_map_same, map_map. cbn [fst snd].
      f_equal. apply map_ext. intros p.
      unfold tail_lsm. rewrite Hs. reflexivity.
  - destruct (routed (cutoff m) i (data hidden) target) as [|p ps] eqn:E.
    + unfold tail_term. rewrite E. reflexivity.
    + assert (Hfalse : false = true) by (apply Hused; discriminate).
      discriminate.
Qed.

Lemma tail_slots (idx : list nat) :
  Forall (fun i => (i < K)%nat) idx ->
  slots_ok (map (forward_slot m hidden target) idx)
           (map (remap_entry (cutoff m) target) idx)
  /\ spec_loss_sum (map (forward_slot m hidden target) idx)
                   (map (remap_entry (cutoff m) target) idx)
     = Rsum (map (tail_term m (data hidden) target) idx).
Proof.
  induction 1 as [|i rest Hi _ [IH1 IH2]]; [split; [exact I|reflexivity]|].
  pose proof (slot_pair i Hi) as Hp.
  cbn [map slots_ok spec_loss_sum].
  change (Rsum (?x :: ?xs)) with (x + Rsum xs)%R.
  destruct (forward_slot m hidden target i) as [x|],
           (remap_entry (cutoff m) target i) as [tg|]; try contradiction.
  - destruct Hp as [Hok Hce]. split; [split; assumption|].
    now rewrite Hce, IH2.
  - split; [exact IH1|]. rewrite Hp, IH2. lra.
Qed.

Lemma route_range (t : Z) :
  (0 <= t < cutoff_at (cutoff m) K)%Z ->
  (0 <= route (cutoff m) t < output_size m)%Z.
Proof.
  intros Ht. pose proof (cutoff_nonempty m Hvalid) as Hne.
  pose proof (c_pos m Hvalid 0 ltac:(lia)) as Hc0.
  rewrite (output_size_eq m Hshapes Hvalid).
  destruct (target_cases (cutoff m) t Hvalid Ht) as [Hlt|[i [Hi Hin]]].
  - unfold route. rewrite remap_id_below_head by assumption. lia.
  - rewrite (route_cluster (cutoff m) t i Hvalid Hi Hin). fold K in Hi. lia.
Qed.

(** The negated log-probability of one target under the assembled row. *)
Lemma row_decomposition (h : list R) (t : Z) :
  (0 <= t < cutoff_at (cutoff m) K)%Z ->
  (- nth (Z.to_nat (route (cutoff m) t)) (head_lsm m h) 0
   + Rsum (map (fun i =>
                  if in_cluster (cutoff m) i t
                  then (- nth (Z.to_nat (t - cutoff_at (cutoff m) i))
                              (tail_lsm m i h) 0)%R
                  else 0%R)
               (clusters (cutoff m))))%R
  = (- nth (Z.to_nat t) (prob_prefix m h K) 0)%R.
Proof.
  unfold K. intros Ht. pose proof (cutoff_nonempty m Hvalid) as Hne.
  pose proof (c_pos m Hvalid 0 ltac:(lia)) as Hc0.
  destruct (target_cases (cutoff m) t Hvalid Ht) as [Hlt|[i [Hi Hin]]].
  - unfold route. rewrite remap_id_below_head by assumption.
    rewrite Rsum_indicator_none.
    + rewrite (prob_prefix_head m Hshapes Hvalid) by lia. lra.
    + eapply Forall_impl; [|apply clusters_bound].
      intros j Hj. now apply in_cluster_below_head.
  - rewrite (route_cluster (cutoff m) t i Hvalid Hi Hin).
    rewrite (Rsum_indicator_one (fun j => in_cluster (cutoff m) j t) _ i).
    + pose proof Hin as Hbounds. apply in_cluster_true in Hbounds.
      pose proof (c_pos m Hvalid i ltac:(lia)) as Hci.
      rewrite (prob_prefix_cluster m Hshapes Hvalid h i (Z.to_nat t) Hi)
        by lia.
      rewrite Z2Nat.inj_add, Nat2Z.id by lia.
      rewrite Z2Nat.inj_sub by lia. lra.
    + apply seq_NoDup.
    + unfold clusters. apply in_seq. lia.
    + exact Hin.
    + intros j Hj Hjt. unfold clusters in Hj. apply in_seq in Hj.
      apply (in_cluster_unique (cutoff m) j i t Hvalid); auto. lia.
Qed.

Lemma combine_target_range (p : list R * Z) :
  In p (combine (data hidden) target) ->
  (0 <= snd p < cutoff_at (cutoff m) K)%Z.
Proof.
  intros Hp. destruct p as [h t]. apply in_combine_r in Hp.
  rewrite Forall_forall in Hrange. apply (Hrange t Hp).
Qed.

(** Head term plus tail terms is the summed negated log-probability of
    the targets under the rows [log_prob] assembles. *)
Lemma spec_sum_is_nll :
  (ce_sum (map (linear_row (head m)) (data hidden))
          (map (route (cutoff m)) target)
   + Rsum (map (tail_term m (data hidden) target) (clusters (cutoff m))))%R
  = Rsum (map (fun p => (- nth (Z.to_nat (snd p))
                               (prob_prefix m (fst p) K) 0)%R)
              (combine (data hidden) target)).
Proof.
  unfold ce_sum. rewrite combine_map_both, map_map. cbn [fst snd].
  unfold tail_term, routed.
  rewrite (map_ext _ (fun i =>
             Rsum (map (fun p =>
                          if in_cluster (cutoff m) i (snd p)
                          then (- nth (Z.to_nat (snd p - cutoff_at (cutoff m) i))
                                      (tail_lsm m i (fst p)) 0)%R
                          else 0%R)
                       (combine (data hidden) target))))
    by (intros i; apply Rsum_filter).
  rewrite (Rsum_swap
             (fun i p => if in_cluster (cutoff m) i (snd p)
                         then (- nth (Z.to_nat (snd p - cutoff_at (cutoff m) i))
                                     (tail_lsm m i (fst p)) 0)%R
                         else 0%R)).
  rewrite Rsum_plus. f_equal. apply map_ext_in. intros p Hp.
  apply (row_decomposition (fst p) (snd p)).
  now apply combine_target_range.
Qed.

(** The value of the training step when model and criterion share the
    cutoffs. *)
Lemma training_value :
  target <> [] ->
  let out :=
    Some (mkTensor (out_features (head m))
            (map (linear_row (head m)) (data hidden)))
    :: map (forward_slot m hidden target) (clusters (cutoff m)) in
  let new_target := remap_target (cutoff m) target in
  loss_after_remap out new_target
  = Return (mkLossState (spec_loss_sum out new_target / INR (size0 hidden)) 0)
  /\ (spec_loss_sum out new_target / INR (size0 hidden))%R
     = NLLLoss (mkTensor (Z.to_nat (cutoff_at (cutoff m) K))
                  (map (fun h => prob_prefix m h K) (data hidden)))
               target.
Proof.
  intros Hne out new_target. subst out new_target.
  rewrite remap_target_closed.
  destruct (tail_slots (clusters (cutoff m)) (clusters_bound (cutoff m)))
    as [Hok Hsum].
  split.
  - unfold loss_after_remap. cbn [getitem nth_error bind Return].
    rewrite loss_loop_ok.
    + cbn [bind Return output breakpoints skipn].
      assert (Hn : size0 (mkTensor (out_features (head m))
                            (map (linear_row (head m)) (data hidden)))
                   = size0 hidden)
        by (unfold size0; cbn [data]; apply length_map).
      rewrite !Hn.
      destruct (size0 hidden =? 0)%nat eqn:E.
      * apply Nat.eqb_eq in E. destruct target; [congruence|].
        simpl in Hlen. lia.
      * unfold Return. do 2 f_equal. unfold Rdiv. ring.
    + cbn [skipn slots_ok]. split; [|exact Hok].
      split; [|split].
      * destruct target; [congruence|discriminate].
      * unfold size0. cbn [data]. rewrite !length_map. symmetry. exact Hlen.
      * cbn [size1]. rewrite (head_out_features m Hshapes).
        apply Forall_forall. intros r Hr. apply in_map_iff in Hr.
        destruct Hr as [t [<- Ht]]. apply route_range.
        rewrite Forall_forall in Hrange. apply (Hrange t Ht).
  - cbn [spec_loss_sum data]. rewrite Hsum.
    fold (route (cutoff m)).
    change (map (fun t => remap_id (cutoff m) (clusters (cutoff m)) t t) target)
      with (map (route (cutoff m)) target).
    rewrite spec_sum_is_nll. unfold NLLLoss, size0. cbn [data].
    rewrite length_map. f_equal. f_equal.
    rewrite <- (map_id target) at 2.
    rewrite combine_map_both, map_map. reflexivity.
Qed.

End TrainingLoss.

(** ** The training loss in the set-up of [main.py] *)

Lemma in_cluster_last_cutoff (cuts : list Z) (v v' : Z) (i : nat) (t : Z) :
  (i < length cuts)%nat -> (t < v)%Z -> (v <= v')%Z ->
  in_cluster (cuts ++ [v']) i t = in_cluster (cuts ++ [v]) i t.
Proof.
  intros Hi Ht Hv. unfold in_cluster, cutoff_at.
  rewrite (app_nth1 cuts [v]), (app_nth1 cuts [v']) by lia.
  destruct (Nat.eq_dec (i + 1) (length cuts)) as [Heq|Hne].
  - rewrite Heq, !nth_middle.
    replace (t <? v)%Z with true by (symmetry; apply Z.ltb_lt; lia).
    replace (t <? v')%Z with true by (symmetry; apply Z.ltb_lt; lia).
    reflexivity.
  - rewrite (app_nth1 cuts [v]), (app_nth1 cuts [v']) by lia.
    reflexivity.
Qed.

Lemma remap_id_last_cutoff (cuts : list Z) (v v' : Z) (t : Z)
  (idx : list nat) :
  forall current,
    Forall (fun i => (i < length cuts)%nat) idx -> (t < v)%Z -> (v <= v')%Z ->
    remap_id (cuts ++ [v']) idx t current = remap_id (cuts ++ [v]) idx t current.
Proof.
  induction idx as [|i rest IH]; intros current Hall Ht Hv; [reflexivity|].
  inversion Hall as [|? ? Hi Hrest]; subst.
  cbn [remap_id]. rewrite (in_cluster_last_cutoff cuts v v' i t Hi Ht Hv).
  assert (Hc0 : cutoff_at (cuts ++ [v']) 0 = cutoff_at (cuts ++ [v]) 0).
  { unfold cutoff_at.
    rewrite (app_nth1 cuts [v]), (app_nth1 cuts [v']) by lia. reflexivity. }
  rewrite Hc0. now apply IH.
Qed.

(** A criterion whose last cutoff is at or above the vocabulary size
    remaps in-vocabulary targets as the model's own cutoffs would. *)
Lemma remap_target_last_cutoff (cuts : list Z) (v v' : Z) (target : list Z) :
  Forall (fun t => (t < v)%Z) target -> (v <= v')%Z ->
  remap_target (cuts ++ [v']) target = remap_target (cuts ++ [v]) target.
Proof.
  intros Hall Hv. rewrite !remap_target_closed, !clusters_main.
  assert (Hidx : Forall (fun i => (i < length cuts)%nat) (seq 0 (length cuts))).
  { apply Forall_forall. intros i Hi. apply in_seq in Hi. lia. }
  f_equal; [f_equal|].
  - apply map_ext_in. intros t Ht. rewrite Forall_forall in Hall.
    apply remap_id_last_cutoff; auto.
  - apply map_ext_in. intros i Hi. apply in_seq in Hi.
    unfold remap_entry. rewrite !cluster_mask_in_cluster.
    assert (Hmask : map (in_cluster (cuts ++ [v']) i) target
                    = map (in_cluster (cuts ++ [v]) i) target).
    { apply map_ext_in. intros t Ht. rewrite Forall_forall in Hall.
      apply in_cluster_last_cutoff; auto. lia. }
    rewrite Hmask. unfold cutoff_at.
    rewrite (app_nth1 cuts [v]), (app_nth1 cuts [v']) by lia.
    reflexivity.
Qed.

(** C3: for a batch of targets in the vocabulary, the training step
    returns, without reaching the debugger, the head's summed cross-entropy
    against the remapped targets plus the summed cross-entropy of every
    tail output present against its local ids, divided by the batch size;
    and this is the mean over the batch of the negated log-probability
    [log_prob] gives the target, that is, of
    [- log P_head(route) - log P_tail(target | route)]. *)
Theorem training_loss_is_mean_nll (cuts : list Z) (ntokens v' : Z)
  (m : AdaptiveSoftmax) (l : AdaptiveLoss) (hidden : Tensor)
  (target : list Z) :
  cutoff m = model_cutoff cuts ntokens ->
  loss_cutoff l = cuts ++ [v'] ->
  (ntokens <= v')%Z ->
  init_shapes m = true ->
  valid_cutoff (cutoff m) = true ->
  hidden_batch m hidden ->
  length target = size0 hidden ->
  target <> [] ->
  Forall (fun t => (0 <= t < ntokens)%Z) target ->
  exists out calls prob loss,
    forward (set_target m target) hidden = Return (out, calls)
    /\ train_loss m l hidden target = Return (mkLossState loss 0)
    /\ loss = (spec_loss_sum out (remap_target (loss_cutoff l) target)
               / INR (length target))%R
    /\ log_prob m hidden = Return prob
    /\ loss = NLLLoss prob target.
Proof.
  intros Hm Hl Hv Hs Hvalid Hb Hlen Hne Hrange.
  assert (Hlast : cutoff_at (cutoff m) (length (cutoff m) - 1) = ntokens).
  { rewrite <- last_cutoff_at, Hm. unfold model_cutoff. apply last_last. }
  assert (Hrange' :
            Forall (fun t => (0 <= t < cutoff_at (cutoff m)
                                         (length (cutoff m) - 1))%Z) target)
    by now rewrite Hlast.
  assert (Hremap : remap_target (loss_cutoff l) target
                   = remap_target (cutoff m) target).
  { rewrite Hl, Hm. unfold model_cutoff.
    apply remap_target_last_cutoff; [|exact Hv].
    eapply Forall_impl; [|exact Hrange]. simpl. intros; lia. }
  pose proof (forward_closed m hidden target Hs Hb Hlen) as Hfw.
  destruct (training_value m hidden target Hs Hvalid Hlen Hrange' Hne)
    as [Hloss Hnll].
  do 4 eexists.
  split; [exact Hfw|].
  split; [|split; [|split]].
  - unfold train_loss. rewrite Hfw. cbn [bind Return fst].
    unfold AdaptiveLoss_forward. rewrite Hremap. exact Hloss.
  - rewrite Hremap, Hlen. reflexivity.
  - apply (log_prob_rows m hidden Hs Hvalid Hb).
  - exact Hnll.
Qed.

Lemma training_loss_is_mean_nll_witness :
  exists out calls prob loss,
    forward (set_target example_model [0%Z; 1%Z]) example_input
    = Return (out, calls)
    /\ train_loss example_model (mkAdaptiveLoss [1; 3]%Z) example_input
         [0%Z; 1%Z]
       = Return (mkLossState loss 0)
    /\ loss = (spec_loss_sum out
                 (remap_target (loss_cutoff (mkAdaptiveLoss [1; 3]%Z))
                               [0%Z; 1%Z])
               / INR (length [0%Z; 1%Z]))%R
    /\ log_prob example_model example_input = Return prob
    /\ loss = NLLLoss prob [0%Z; 1%Z].
Proof.
  apply (training_loss_is_mean_nll [1%Z] 2 3 example_model
           (mkAdaptiveLoss [1; 3]%Z) example_input [0%Z; 1%Z]).
  - reflexivity.
  - reflexivity.
  - lia.
  - reflexivity.
  - reflexivity.
  - split; [repeat constructor|reflexivity].
  - reflexivity.
  - discriminate.
  - repeat constructor; lia.
Defined.

(** ** Construction *)

Lemma init_tail_shapes (new_Linear : Z -> Z -> bool -> result Linear)
  (n : Z) (cuts : list Z) (len : nat) :
  (forall a b bias layer, new_Linear a b bias = Return layer ->
                          Linear_shape layer a b bias = true) ->
  forall base seqs,
    init_tail new_Linear n cuts (seq base len) = Return seqs ->
    tail_shapes n cuts base seqs = true /\ length seqs = len.
Proof.
  intros Hnew. induction len as [|len IH]; intros base seqs H.
  - injection H as <-. now split.
  - cbn [seq init_tail] in H.
    destruct (new_Linear n (n / 4 ^ Z.of_nat base)%Z false)
      as [e|first] eqn:E1; [discriminate|].
    cbn [bind] in H.
    destruct (new_Linear (n / 4 ^ Z.of_nat base)%Z
                (cutoff_at cuts (base + 1) - cutoff_at cuts base)%Z false)
      as [e|second] eqn:E2; [discriminate|].
    cbn [bind] in H.
    destruct (init_tail new_Linear n cuts (seq (S base) len))
      as [e|rest] eqn:E3; [discriminate|].
    cbn [bind Return] in H. injection H as <-.
    destruct (IH (S base) rest E3) as [Hrest Hlen].
    split; [|simpl; now rewrite Hlen].
    cbn [tail_shapes fst snd].
    rewrite (Hnew _ _ _ _ E1), (Hnew _ _ _ _ E2), Hrest. reflexivity.
Qed.

(** A model built by [__init__] has the shapes assumed of a model
    throughout, provided [nn.Linear] returns layers of the sizes asked
    for. *)
Lemma init_gives_shapes (new_Linear : Z -> Z -> bool -> result Linear)
  (n : Z) (cuts : list Z) (m : AdaptiveSoftmax) :
  (forall a b bias layer, new_Linear a b bias = Return layer ->
                          Linear_shape layer a b bias = true) ->
  AdaptiveSoftmax_init new_Linear n cuts = Return m ->
  init_shapes m = true.
Proof.
  intros Hnew H. unfold AdaptiveSoftmax_init in H.
  destruct cuts as [|c0 rest]; [discriminate|].
  cbn [getitem nth_error bind Return] in H.
  destruct (new_Linear n (c0 + Z.of_nat (length (c0 :: rest)) - 1)%Z true)
    as [e|hd] eqn:E1; [discriminate|].
  cbn [bind] in H.
  destruct (init_tail new_Linear n (c0 :: rest) (clusters (c0 :: rest)))
    as [e|tl] eqn:E2; [discriminate|].
  cbn [bind Return] in H. injection H as <-.
  unfold clusters in E2.
  destruct (init_tail_shapes new_Linear n (c0 :: rest) _ Hnew 0 tl E2)
    as [Hshapes Hlen].
  pose proof (Hnew _ _ _ _ E1) as Hhead.
  unfold init_shapes. cbn [output_size cutoff head tail nhid].
  rewrite !andb_true_iff. repeat split.
  - apply Z.eqb_eq. reflexivity.
  - exact Hhead.
  - apply Nat.eqb_eq. exact Hlen.
  - exact Hshapes.
Qed.

Lemma init_tail_returns (new_Linear : Z -> Z -> bool -> result Linear)
  (nhid : Z) (cutoff : list Z) (idx : list nat) :
  (exists seqs, init_tail new_Linear nhid cutoff idx = Return seqs)
  <-> Forall (accepted new_Linear) (flat_map (tail_requests nhid cutoff) idx).
Proof.
  induction idx as [|i rest IH].
  - split; [constructor|]. intros _. now exists [].
  - cbn [init_tail flat_map tail_requests app]. split.
    + intros [seqs H].
      destruct (new_Linear nhid (nhid / 4 ^ Z.of_nat i)%Z false)
        as [e|first] eqn:E1; [discriminate|].
      cbn [bind] in H.
      destruct (new_Linear (nhid / 4 ^ Z.of_nat i)%Z
                  (cutoff_at cutoff (i + 1) - cutoff_at cutoff i)%Z false)
        as [e|second] eqn:E2; [discriminate|].
      cbn [bind] in H.
      destruct (init_tail new_Linear nhid cutoff rest) as [e|seqs'] eqn:E3;
        [discriminate|].
      constructor; [now exists first|].
      constructor; [now exists second|].
      apply IH. now exists seqs'.
    + intros H. inversion H as [|? ? [first H1] H']; subst.
      inversion H' as [|? ? [second H2] H'']; subst.
      apply IH in H''. destruct H'' as [seqs' H3].
      cbn [fst snd] in H1, H2. rewrite H1. cbn [bind Return].
      rewrite H2. cbn [bind Return]. rewrite H3. cbn [bind Return].
      now eexists.
Qed.

Lemma AdaptiveSoftmax_init_returns
  (new_Linear : Z -> Z -> bool -> result Linear) (n : Z) (cuts : list Z) :
  cuts <> [] ->
  ((exists m, AdaptiveSoftmax_init new_Linear n cuts = Return m)
   <-> Forall (accepted new_Linear) (layer_requests n cuts))
  /\ (forall m, AdaptiveSoftmax_init new_Linear n cuts = Return m ->
                cutoff m = cuts /\ nhid m = n /\ id m = None).
Proof.
  intros Hne.
  assert (Hlen : (0 < length cuts)%nat)
    by (destruct cuts; [congruence|simpl; lia]).
  unfold AdaptiveSoftmax_init, layer_requests.
  rewrite (getitem_nth cuts 0 0%Z Hlen). cbn [bind Return].
  fold (cutoff_at cuts 0).
  pose proof (init_tail_returns new_Linear n cuts (clusters cuts)) as Htail.
  set (os := (cutoff_at cuts 0 + Z.of_nat (length cuts) - 1)%Z).
  split; [split|].
  - intros [m H].
    destruct (new_Linear n os true) as [e|hd] eqn:E1; [discriminate|].
    cbn [bind] in H.
    destruct (init_tail new_Linear n cuts (clusters cuts))
      as [e|tl] eqn:E2; [discriminate|].
    constructor; [now exists hd|].
    apply Htail. now exists tl.
  - intros H. inversion H as [|? ? [hd H1] H']; subst.
    apply Htail in H'. destruct H' as [tl H2].
    cbn [fst snd] in H1. rewrite H1. cbn [bind Return]. rewrite H2.
    cbn [bind Return]. now eexists.
  - intros m H.
    destruct (new_Linear n os true) as [e|hd]; [discriminate|].
    cbn [bind] in H.
    destruct (init_tail new_Linear n cuts (clusters cuts))
      as [e|tl]; [discriminate|].
    cbn [bind Return] in H. injection H as <-. repeat split.
Qed.

Lemma zero_Linear_refuses (a b : Z) (with_bias : bool) :
  (a < 0 \/ b < 0)%Z -> exists e, zero_Linear a b with_bias = Raise e.
Proof.
  intros H. exists RuntimeError. unfold zero_Linear.
  replace ((a <? 0) || (b <? 0))%Z with true; [reflexivity|].
  symmetry. apply orb_true_iff.
  destruct H as [H|H]; [left|right]; apply Z.ltb_lt; exact H.
Qed.

Lemma zero_Linear_accepts (a b : Z) (with_bias : bool) :
  (0 <= a)%Z -> (0 <= b)%Z ->
  exists layer, zero_Linear a b with_bias = Return layer.
Proof.
  intros Ha Hb. unfold zero_Linear.
  replace ((a <? 0) || (b <? 0))%Z with false; [now eexists|].
  symmetry. apply orb_false_iff. split; apply Z.ltb_ge; assumption.
Qed.

(** The layers [__init__] asks for are all built exactly when no requested
    size is negative. *)
Lemma layer_requests_accepted
  (new_Linear : Z -> Z -> bool -> result Linear) (n : Z) (cuts : list Z) :
  (forall a b with_bias, (a < 0 \/ b < 0)%Z ->
                         exists e, new_Linear a b with_bias = Raise e) ->
  (forall a b with_bias, (0 <= a)%Z -> (0 <= b)%Z ->
                         exists layer, new_Linear a b with_bias = Return layer) ->
  (0 <= n)%Z ->
  Forall (accepted new_Linear) (layer_requests n cuts)
  <-> (0 <= cutoff_at cuts 0 + Z.of_nat (length cuts) - 1)%Z
      /\ forall i, (i < length cuts - 1)%nat ->
                   (cutoff_at cuts i <= cutoff_at cuts (i + 1))%Z.
Proof.
  intros Hrefuse Haccept Hn.
  assert (Hneg : forall a b with_bias,
             accepted new_Linear (a, b, with_bias) -> (0 <= b)%Z).
  { intros a b with_bias [layer Hl]. cbn [fst snd] in Hl.
    destruct (Z_lt_dec b 0) as [Hb|Hb]; [|lia].
    destruct (Hrefuse a b with_bias (or_intror Hb)) as [e He].
    rewrite He in Hl. discriminate. }
  assert (Hwidth : forall i, (0 <= n / 4 ^ Z.of_nat i)%Z).
  { intros i. apply Z.div_pos; [exact Hn|]. apply Z.pow_pos_nonneg; lia. }
  unfold layer_requests. split.
  - intros Hall. inversion Hall as [|? ? Hhead Htail]; subst. split.
    + exact (Hneg _ _ _ Hhead).
    + intros i Hi. rewrite Forall_forall in Htail.
      assert (Hin : In (n / 4 ^ Z.of_nat i,
                        cutoff_at cuts (i + 1) - cutoff_at cuts i, false)%Z
                       (flat_map (tail_requests n cuts) (clusters cuts))).
      { apply in_flat_map. exists i. split.
        - unfold clusters. apply in_seq. lia.
        - unfold tail_requests. right. now left. }
      pose proof (Hneg _ _ _ (Htail _ Hin)). lia.
  - intros [Hhead Hsteps]. constructor.
    + apply (Haccept n _ true Hn Hhead).
    + apply Forall_forall. intros req Hreq. apply in_flat_map in Hreq.
      destruct Hreq as [i [Hi Hreq]]. unfold clusters in Hi.
      apply in_seq in Hi. unfold tail_requests in Hreq.
      destruct Hreq as [<-|[<-|[]]]; unfold accepted; cbn [fst snd].
      * apply Haccept; [exact Hn|apply Hwidth].
      * apply Haccept; [apply Hwidth|].
        specialize (Hsteps i ltac:(lia)). lia.
Qed.

(** C8, as the code has it: neither constructor checks the cutoffs
    itself.  [AdaptiveLoss.__init__] accepts every list and stores it.
    [AdaptiveSoftmax.__init__] fails at construction exactly when
    [nn.Linear] refuses a layer size, that is (for an [nn.Linear] that
    refuses negative sizes and builds the others) when some cutoff is below
    the one before it, which includes a cutoff above the vocabulary size
    appended last, or when the head width [c0 + len(cutoff) - 1] is
    negative.  A list with equal neighbours is built, and the model stores
    the list as given. *)
Theorem construction_fails_on_decreasing_cutoffs
  (new_Linear : Z -> Z -> bool -> result Linear) (n : Z) (cuts : list Z) :
  (forall a b with_bias, (a < 0 \/ b < 0)%Z ->
                         exists e, new_Linear a b with_bias = Raise e) ->
  (forall a b with_bias, (0 <= a)%Z -> (0 <= b)%Z ->
                         exists layer, new_Linear a b with_bias = Return layer) ->
  (0 <= n)%Z ->
  cuts <> [] ->
  AdaptiveLoss_init cuts = Return (mkAdaptiveLoss cuts)
  /\ ((exists i, (i < length cuts - 1)%nat
                 /\ (cutoff_at cuts (i + 1) < cutoff_at cuts i)%Z) ->
      exists e, AdaptiveSoftmax_init new_Linear n cuts = Raise e)
  /\ ((exists m, AdaptiveSoftmax_init new_Linear n cuts = Return m)
      <-> (0 <= cutoff_at cuts 0 + Z.of_nat (length cuts) - 1)%Z
          /\ forall i, (i < length cuts - 1)%nat ->
                       (cutoff_at cuts i <= cutoff_at cuts (i + 1))%Z)
  /\ (forall m, AdaptiveSoftmax_init new_Linear n cuts = Return m ->
                cutoff m = cuts /\ nhid m = n /\ id m = None).
Proof.
  intros Hrefuse Haccept Hn Hne.
  destruct (AdaptiveSoftmax_init_returns new_Linear n cuts Hne)
    as [Hiff Hstored].
  pose proof (layer_requests_accepted new_Linear n cuts Hrefuse Haccept Hn)
    as Hsizes.
  split; [reflexivity|]. split; [|split; [|exact Hstored]].
  - intros [i [Hi Hdown]].
    destruct (AdaptiveSoftmax_init new_Linear n cuts) as [e|m] eqn:E;
      [now exists e|].
    exfalso.
    assert (Hret : exists m', @inr exn AdaptiveSoftmax m = Return m')
      by now exists m.
    apply Hiff in Hret. apply Hsizes in Hret. destruct Hret as [_ Hsteps].
    specialize (Hsteps i Hi). lia.
  - rewrite Hiff. exact Hsizes.
Qed.

Lemma construction_fails_on_decreasing_cutoffs_witness :
  AdaptiveLoss_init [7; 4; 11]%Z = Return (mkAdaptiveLoss [7; 4; 11]%Z)
  /\ ((exists i, (i < length [7; 4; 11]%Z - 1)%nat
                 /\ (cutoff_at [7; 4; 11]%Z (i + 1)
                     < cutoff_at [7; 4; 11]%Z i)%Z) ->
      exists e, AdaptiveSoftmax_init zero_Linear 8 [7; 4; 11]%Z = Raise e)
  /\ ((exists m, AdaptiveSoftmax_init zero_Linear 8 [7; 4; 11]%Z = Return m)
      <-> (0 <= cutoff_at [7; 4; 11]%Z 0
                + Z.of_nat (length [7; 4; 11]%Z) - 1)%Z
          /\ forall i, (i < length [7; 4; 11]%Z - 1)%nat ->
                       (cutoff_at [7; 4; 11]%Z i
                        <= cutoff_at [7; 4; 11]%Z (i + 1))%Z)
  /\ (forall m, AdaptiveSoftmax_init zero_Linear 8 [7; 4; 11]%Z = Return m ->
                cutoff m = [7; 4; 11]%Z /\ nhid m = 8%Z /\ id m = None).
Proof.
  apply (construction_fails_on_decreasing_cutoffs zero_Linear 8 [7; 4; 11]%Z).
  - apply zero_Linear_refuses.
  - apply zero_Linear_accepts.
  - lia.
  - discriminate.
Defined.

(** Not every invalid configuration fails at construction: the cutoffs
    [4, 4, 10] are not increasing and [0, 5, 10] have an empty head band,
    yet the model is built from either (its second cluster, or its head
    band, is empty); and the criterion is built from the decreasing
    [7, 4, 11]. *)
Lemma construction_counterexample :
  valid_cutoff [4; 4; 10]%Z = false
  /\ (exists m, AdaptiveSoftmax_init zero_Linear 8 [4; 4; 10]%Z = Return m)
  /\ valid_cutoff [0; 5; 10]%Z = false
  /\ (exists m, AdaptiveSoftmax_init zero_Linear 8 [0; 5; 10]%Z = Return m)
  /\ valid_cutoff [7; 4; 11]%Z = false
  /\ AdaptiveLoss_init [7; 4; 11]%Z = Return (mkAdaptiveLoss [7; 4; 11]%Z).
Proof.
  split; [reflexivity|]. split; [eexists; reflexivity|].
  split; [reflexivity|]. split; [eexists; reflexivity|].
  split; reflexivity.
Qed.

(** * Further properties of the router, the loss and the assembler *)

(** ** What [set_target] selects *)

Lemma nonzero_from_spec (mask : list bool) :
  forall base,
    StronglySorted lt (LongTensor.nonzero_from base mask)
    /\ forall p, In p (LongTensor.nonzero_from base mask)
                 <-> (base <= p)%nat
                     /\ nth_error mask (p - base) = Some true.
Proof.
  induction mask as [|b rest IH]; intros base.
  - split; [constructor|]. intros p. simpl. split; [contradiction|].
    intros [_ H]. destruct (p - base)%nat; discriminate.
  - destruct (IH (S base)) as [Hsorted Hin].
    assert (Hrest : forall p, In p (LongTensor.nonzero_from (S base) rest)
                              <-> (base < p)%nat
                                  /\ nth_error (b :: rest) (p - base)
                                     = Some true).
    { intros p. rewrite Hin. split; intros [Hp Hn]; (split; [lia|]).
      - replace (p - base)%nat with (S (p - S base)) by lia. exact Hn.
      - replace (p - base)%nat with (S (p - S base)) in Hn by lia. exact Hn. }
    cbn [LongTensor.nonzero_from]. destruct b.
    + split.
      * constructor; [exact Hsorted|].
        apply Forall_forall. intros p Hp. apply Hrest in Hp. lia.
      * intros p. cbn [In]. rewrite Hrest. split.
        -- intros [<-|[Hp Hn]]; [|split; [lia|exact Hn]].
           split; [lia|]. now rewrite Nat.sub_diag.
        -- intros [Hp Hn]. destruct (Nat.eq_dec base p) as [->|Hne];
             [now left|right]. split; [lia|exact Hn].
    + split; [exact Hsorted|]. intros p. rewrite Hrest. split.
      * intros [Hp Hn]. split; [lia|exact Hn].
      * intros [Hp Hn]. split; [|exact Hn].
        destruct (Nat.eq_dec base p) as [->|Hne]; [|lia].
        rewrite Nat.sub_diag in Hn. discriminate.
Qed.

Lemma mask_sum_zero (f : Z -> bool) (target : list Z) :
  LongTensor.sum (map f target) = 0%nat <->
  Forall (fun t => f t = false) target.
Proof.
  unfold LongTensor.sum. induction target as [|t ts IH]; simpl.
  - split; [constructor|reflexivity].
  - destruct (f t) eqn:E; simpl.
    + split; [lia|]. intros H. inversion H; congruence.
    + rewrite IH. split; [now constructor|]. intros H. now inversion H.
Qed.

(** X1: the rows [set_target] selects for a cluster are listed in strictly
    increasing order and are exactly the batch positions whose target lies
    in the cluster's range; the entry is [None] exactly when no target
    does. *)
Theorem set_target_selects_exactly (cuts target : list Z) (i : nat) :
  (i < length cuts - 1)%nat ->
  match nth i (set_target_ids cuts target) None with
  | Some sel =>
      StronglySorted lt sel
      /\ sel <> []
      /\ forall p, In p sel
                   <-> exists t, nth_error target p = Some t
                                 /\ (cutoff_at cuts i <= t
                                     < cutoff_at cuts (i + 1))%Z
  | None =>
      Forall (fun t => ~ (cutoff_at cuts i <= t < cutoff_at cuts (i + 1))%Z)
             target
  end.
Proof.
  intros Hi. unfold set_target_ids, clusters.
  rewrite (nth_indep _ None (set_target_entry cuts target 0))
    by (rewrite length_map, length_seq; exact Hi).
  rewrite map_nth, seq_nth by exact Hi. cbn [Nat.add].
  unfold set_target_entry. cbv zeta. rewrite cluster_mask_in_cluster.
  destruct (0 <? LongTensor.sum (map (in_cluster cuts i) target))%nat eqn:E.
  - apply Nat.ltb_lt in E.
    destruct (nonzero_from_spec (map (in_cluster cuts i) target) 0)
      as [Hsorted Hin].
    split; [exact Hsorted|]. split.
    + intros Hnil. unfold LongTensor.sum in E.
      assert (Hnone : Forall (fun t => in_cluster cuts i t = false) target).
      { apply Forall_forall. intros t Ht.
        destruct (in_cluster cuts i t) eqn:Et; [|reflexivity].
        apply In_nth_error in Ht. destruct Ht as [p Hp].
        assert (Hmem : In p (LongTensor.nonzero
                               (map (in_cluster cuts i) target))).
        { apply Hin. split; [lia|].
          rewrite Nat.sub_0_r, nth_error_map, Hp. simpl. now rewrite Et. }
        rewrite Hnil in Hmem. contradiction. }
      apply mask_sum_zero in Hnone. unfold LongTensor.sum in Hnone. lia.
    + intros p. unfold LongTensor.nonzero. rewrite Hin, Nat.sub_0_r.
      rewrite nth_error_map. split.
      * intros [_ Hn]. destruct (nth_error target p) as [t|]; [|discriminate].
        exists t. split; [reflexivity|].
        apply in_cluster_true. simpl in Hn. congruence.
      * intros [t [Hp Ht]]. split; [lia|]. rewrite Hp. simpl.
        f_equal. now apply in_cluster_true.
  - apply Nat.ltb_ge in E.
    assert (Hz : LongTensor.sum (map (in_cluster cuts i) target) = 0%nat)
      by lia.
    apply mask_sum_zero in Hz.
    eapply Forall_impl; [|exact Hz]. intros t Ht Hrange.
    apply in_cluster_true in Hrange. congruence.
Qed.

Lemma set_target_selects_exactly_witness :
  match nth 0 (set_target_ids [4; 7; 10]%Z [0; 5; 8; 6]%Z) None with
  | Some sel =>
      StronglySorted lt sel
      /\ sel <> []
      /\ forall p, In p sel
                   <-> exists t, nth_error [0; 5; 8; 6]%Z p = Some t
                                 /\ (cutoff_at [4; 7; 10]%Z 0 <= t
                                     < cutoff_at [4; 7; 10]%Z (0 + 1))%Z
  | None =>
      Forall (fun t => ~ (cutoff_at [4; 7; 10]%Z 0 <= t
                          < cutoff_at [4; 7; 10]%Z (0 + 1))%Z)
             [0; 5; 8; 6]%Z
  end.
Proof.
  apply (set_target_selects_exactly [4; 7; 10]%Z [0; 5; 8; 6]%Z 0).
  simpl. lia.
Defined.

(** ** What [forward] puts in its slots *)

Lemma mask_sum_filter (f : Z -> bool) (target : list Z) :
  LongTensor.sum (map f target) = length (filter f target).
Proof.
  unfold LongTensor.sum. induction target as [|t ts IH]; [reflexivity|].
  simpl. destruct (f t); simpl; now rewrite IH.
Qed.

Lemma filter_nonempty_exists (f : Z -> bool) (target : list Z) :
  (0 < length (filter f target))%nat <-> Exists (fun t => f t = true) target.
Proof.
  induction target as [|t ts IH]; simpl.
  - split; [lia|]. intros H. inversion H.
  - destruct (f t) eqn:E; simpl.
    + split; [intros _; now constructor|lia].
    + rewrite IH. split; [now constructor 2|].
      intros H. inversion H; [congruence|assumption].
Qed.

Lemma filter_sorted (f : nat -> bool) (l : list nat) :
  StronglySorted lt l -> StronglySorted lt (filter f l).
Proof.
  induction 1 as [|a l Hsorted IH Hall]; [constructor|].
  simpl. destruct (f a); [|exact IH].
  constructor; [exact IH|].
  apply Forall_forall. intros x Hx. apply filter_In in Hx.
  rewrite Forall_forall in Hall. apply Hall. tauto.
Qed.

Lemma seq_sorted (n : nat) : forall a, StronglySorted lt (seq a n).
Proof.
  induction n as [|n IH]; intros a; [constructor|].
  simpl. constructor; [apply IH|].
  apply Forall_forall. intros x Hx. apply in_seq in Hx. lia.
Qed.

Lemma forward_slot_rows (m : AdaptiveSoftmax) (hidden : Tensor)
  (target : list Z) (i : nat) :
  init_shapes m = true ->
  length target = size0 hidden ->
  (i < length (cutoff m) - 1)%nat ->
  match forward_slot m hidden target i with
  | Some x =>
      size0 x = length (filter (in_cluster (cutoff m) i) target)
      /\ (0 < size0 x)%nat
      /\ Z.of_nat (size1 x)
         = (cutoff_at (cutoff m) (i + 1) - cutoff_at (cutoff m) i)%Z
  | None => length (filter (in_cluster (cutoff m) i) target) = 0%nat
  end.
Proof.
  intros Hs Hlen Hi. destruct (tail_lookup m Hs i Hi) as [s Hsome].
  unfold forward_slot. rewrite set_target_entry_used, Hsome.
  unfold cluster_used. rewrite cluster_mask_in_cluster.
  assert (Hcount : length (routed (cutoff m) i (data hidden) target)
                   = length (filter (in_cluster (cutoff m) i) target)).
  { unfold routed.
    rewrite <- (mask_sum_routed _ (data hidden)) by (symmetry; exact Hlen).
    apply mask_sum_filter. }
  rewrite mask_sum_filter.
  destruct (0 <? length (filter (in_cluster (cutoff m) i) target))%nat eqn:E.
  - apply Nat.ltb_lt in E. unfold size0. cbn [data size1].
    rewrite length_map, Hcount. split; [reflexivity|]. split; [exact E|].
    apply (tail_out_features m Hs i s Hsome).
  - apply Nat.ltb_ge in E. lia.
Qed.

(** X2: after [set_target], [forward] returns one slot per cutoff (the
    head's, then one per cluster); it calls the tail classifiers of exactly
    the clusters that hold a target, each once and in increasing order; a
    cluster's slot holds one row per target of the cluster and as many
    columns as the cluster has ids, and is [None] when the cluster holds no
    target. *)
Theorem forward_slots (m : AdaptiveSoftmax) (hidden : Tensor)
  (target : list Z) :
  init_shapes m = true ->
  hidden_batch m hidden ->
  length target = size0 hidden ->
  exists out calls,
    forward (set_target m target) hidden = Return (out, calls)
    /\ length out = S (length (cutoff m) - 1)
    /\ StronglySorted lt calls
    /\ (forall i, In i calls
                  <-> (i < length (cutoff m) - 1)%nat
                      /\ Exists (fun t => in_cluster (cutoff m) i t = true)
                                target)
    /\ forall i, (i < length (cutoff m) - 1)%nat ->
         match nth (S i) out None with
         | Some x =>
             size0 x = length (filter (in_cluster (cutoff m) i) target)
             /\ (0 < size0 x)%nat
             /\ Z.of_nat (size1 x)
                = (cutoff_at (cutoff m) (i + 1) - cutoff_at (cutoff m) i)%Z
         | None => length (filter (in_cluster (cutoff m) i) target) = 0%nat
         end.
Proof.
  intros Hs Hb Hlen.
  do 2 eexists. split; [apply (forward_closed m hidden target Hs Hb Hlen)|].
  split; [cbn [length]; unfold clusters; now rewrite length_map, length_seq|].
  split; [apply filter_sorted, seq_sorted|].
  split.
  - intros i. rewrite filter_In. unfold clusters. rewrite in_seq.
    unfold cluster_used. rewrite cluster_mask_in_cluster, mask_sum_filter.
    rewrite Nat.ltb_lt, filter_nonempty_exists. split.
    + intros [Hi He]. split; [lia|exact He].
    + intros [Hi He]. split; [lia|exact He].
  - intros i Hi. cbn [nth]. unfold clusters.
    rewrite (nth_indep _ None (forward_slot m hidden target 0))
      by (rewrite length_map, length_seq; exact Hi).
    rewrite map_nth, seq_nth by exact Hi. cbn [Nat.add].
    now apply forward_slot_rows.
Qed.

Lemma forward_slots_witness :
  exists out calls,
    forward (set_target example_model [0%Z; 1%Z]) example_input
    = Return (out, calls)
    /\ length out = S (length (cutoff example_model) - 1)
    /\ StronglySorted lt calls
    /\ (forall i, In i calls
                  <-> (i < length (cutoff example_model) - 1)%nat
                      /\ Exists (fun t => in_cluster (cutoff example_model) i t
                                          = true) [0%Z; 1%Z])
    /\ forall i, (i < length (cutoff example_model) - 1)%nat ->
         match nth (S i) out None with
         | Some x =>
             size0 x
             = length (filter (in_cluster (cutoff example_model) i)
                              [0%Z; 1%Z])
             /\ (0 < size0 x)%nat
             /\ Z.of_nat (size1 x)
                = (cutoff_at (cutoff example_model) (i + 1)
                   - cutoff_at (cutoff example_model) i)%Z
         | None =>
             length (filter (in_cluster (cutoff example_model) i) [0%Z; 1%Z])
             = 0%nat
         end.
Proof.
  apply (forward_slots example_model example_input [0%Z; 1%Z]).
  - reflexivity.
  - split; [repeat constructor|reflexivity].
  - reflexivity.
Defined.

(** ** One tail row per target outside the head band *)

Lemma list_sum_plus {A : Type} (a b : A -> nat) (l : list A) :
  (list_sum (map a l) + list_sum (map b l))%nat
  = list_sum (map (fun x => (a x + b x)%nat) l).
Proof.
  induction l as [|x l' IH]; [reflexivity|]. simpl. rewrite <- IH. lia.
Qed.

Lemma list_sum_indicator_none (f : nat -> bool) (idx : list nat) :
  Forall (fun i => f i = false) idx ->
  list_sum (map (fun i => if f i then 1%nat else 0%nat) idx) = 0%nat.
Proof.
  induction 1 as [|i rest Hi _ IH]; [reflexivity|].
  simpl. now rewrite Hi, IH.
Qed.

Lemma list_sum_indicator_one (f : nat -> bool) (i0 : nat) (idx : list nat) :
  NoDup idx -> In i0 idx -> f i0 = true ->
  (forall j, In j idx -> f j = true -> j = i0) ->
  list_sum (map (fun i => if f i then 1%nat else 0%nat) idx) = 1%nat.
Proof.
  induction 1 as [|i rest Hnotin Hnd IH]; intros Hin Hi0 Huniq; [contradiction|].
  cbn [map list_sum fold_right].
  destruct (Nat.eq_dec i i0) as [->|Hne].
  - rewrite Hi0.
    change (fold_right Nat.add 0%nat ?l) with (list_sum l).
    rewrite list_sum_indicator_none; [reflexivity|].
    apply Forall_forall. intros j Hj.
    destruct (f j) eqn:E; [|reflexivity].
    assert (j = i0) by (apply Huniq; [now right|exact E]). subst j.
    contradiction.
  - destruct (f i) eqn:E.
    + exfalso. apply Hne. apply Huniq; [now left|exact E].
    + change (fold_right Nat.add 0%nat ?l) with (list_sum l).
      rewrite IH; [reflexivity| |exact Hi0|].
      * destruct Hin as [Heq|Hin]; [congruence|exact Hin].
      * intros j Hj. apply Huniq. now right.
Qed.

Lemma clusters_holding (cuts : list Z) (t : Z) :
  valid_cutoff cuts = true ->
  (0 <= t < cutoff_at cuts (length cuts - 1))%Z ->
  list_sum (map (fun i => if in_cluster cuts i t then 1%nat else 0%nat)
                (clusters cuts))
  = if (cutoff_at cuts 0 <=? t)%Z then 1%nat else 0%nat.
Proof.
  intros Hv Ht.
  destruct (target_cases cuts t Hv Ht) as [Hlt|[i [Hi Hin]]].
  - replace (cutoff_at cuts 0 <=? t)%Z with false
      by (symmetry; apply Z.leb_gt; lia).
    apply list_sum_indicator_none.
    eapply Forall_impl; [|apply clusters_bound].
    intros j Hj. now apply in_cluster_below_head.
  - pose proof Hin as Hb. apply in_cluster_true in Hb.
    pose proof (valid_cutoff_mono_le cuts 0 i Hv ltac:(lia) ltac:(lia)).
    replace (cutoff_at cuts 0 <=? t)%Z with true
      by (symmetry; apply Z.leb_le; lia).
    apply (list_sum_indicator_one (fun j => in_cluster cuts j t) i).
    + apply seq_NoDup.
    + unfold clusters. apply in_seq. lia.
    + exact Hin.
    + intros j Hj Hjt. unfold clusters in Hj. apply in_seq in Hj.
      apply (in_cluster_unique cuts j i t Hv); auto. lia.
Qed.

Lemma routed_rows_total (cuts : list Z) (target : list Z) :
  valid_cutoff cuts = true ->
  Forall (fun t => (0 <= t < cutoff_at cuts (length cuts - 1))%Z) target ->
  list_sum (map (fun i => length (filter (in_cluster cuts i) target))
                (clusters cuts))
  = length (filter (fun t => (cutoff_at cuts 0 <=? t)%Z) target).
Proof.
  intros Hv. induction 1 as [|t ts Ht _ IH].
  - simpl. induction (clusters cuts) as [|i rest IHc]; [reflexivity|].
    simpl. exact IHc.
  - cbn [filter].
    rewrite (map_ext _ (fun i => ((if in_cluster cuts i t then 1 else 0)
                                  + length (filter (in_cluster cuts i) ts))%nat))
      by (intros i; destruct (in_cluster cuts i t); reflexivity).
    rewrite <- list_sum_plus, IH, (clusters_holding cuts t Hv Ht).
    destruct (cutoff_at cuts 0 <=? t)%Z; reflexivity.
Qed.

Lemma select_rows_nth (rows : list (list R)) (ids : list nat) :
  forall l, FloatTensor.select_rows rows ids = Return l ->
            l = map (fun p => nth p rows []) ids.
Proof.
  induction ids as [|p rest IH]; intros l H; cbn [FloatTensor.select_rows] in H.
  - injection H as <-. reflexivity.
  - destruct (nth_error rows p) as [row|] eqn:E; [|discriminate].
    destruct (FloatTensor.select_rows rows rest) as [e|rows'] eqn:Er;
      [discriminate|].
    cbn [bind Return] in H. injection H as <-.
    cbn [map]. rewrite (IH rows' eq_refl).
    now rewrite (nth_error_nth _ _ _ E).
Qed.

Lemma routed_rows_nth (cuts : list Z) (i : nat) (rows : list (list R))
  (target : list Z) :
  length rows = length target ->
  map fst (routed cuts i rows target)
  = map (fun p => nth p rows [])
        (LongTensor.nonzero (cluster_mask cuts i target)).
Proof.
  intros Hlen. rewrite cluster_mask_in_cluster.
  apply select_rows_nth.
  exact (select_rows_mask (in_cluster cuts i) rows target [] Hlen).
Qed.

Lemma nonzero_in (mask : list bool) (p : nat) :
  In p (LongTensor.nonzero mask) <-> nth_error mask p = Some true.
Proof.
  unfold LongTensor.nonzero.
  destruct (nonzero_from_spec mask 0) as [_ H]. rewrite H.
  rewrite Nat.sub_0_r. split; [tauto|]. intros Hp. split; [lia|exact Hp].
Qed.

Lemma sorted_lt_NoDup (l : list nat) : StronglySorted lt l -> NoDup l.
Proof.
  induction 1 as [|a l _ IH Hall]; constructor; [|exact IH].
  intros Hin. rewrite Forall_forall in Hall.
  specialize (Hall a Hin). lia.
Qed.

Lemma set_target_ids_nth (cuts target : list Z) (i : nat) :
  (i < length cuts - 1)%nat ->
  nth i (set_target_ids cuts target) None = set_target_entry cuts target i.
Proof.
  intros Hi. unfold set_target_ids, clusters.
  rewrite (nth_indep _ None (set_target_entry cuts target 0))
    by (rewrite length_map, length_seq; exact Hi).
  now rewrite map_nth, seq_nth.
Qed.

Lemma selects_iff (cuts target : list Z) (i p : nat) :
  (i < length cuts - 1)%nat ->
  selects cuts target i p
  <-> exists t, nth_error target p = Some t /\ in_cluster cuts i t = true.
Proof.
  intros Hi. unfold selects. rewrite (set_target_ids_nth cuts target i Hi).
  unfold set_target_entry. cbv zeta. rewrite cluster_mask_in_cluster.
  assert (Hmask : nth_error (map (in_cluster cuts i) target) p = Some true
                  <-> exists t, nth_error target p = Some t
                                /\ in_cluster cuts i t = true).
  { rewrite nth_error_map. destruct (nth_error target p) as [t|].
    - cbn [option_map]. split.
      + intros H. exists t. split; [reflexivity|congruence].
      + intros [t' [Ht' Hin]]. congruence.
    - cbn [option_map]. split; [discriminate|].
      intros [t' [Ht' _]]. discriminate. }
  destruct (0 <? LongTensor.sum (map (in_cluster cuts i) target))%nat eqn:E.
  - rewrite <- Hmask, <- nonzero_in. split.
    + intros [sel [Hsel Hin]]. injection Hsel as <-. exact Hin.
    + intros Hin. eexists. split; [reflexivity|exact Hin].
  - split.
    + intros [sel [Hsel _]]. discriminate.
    + intros [t [Ht Hin]]. exfalso.
      apply Nat.ltb_ge in E.
      assert (Hzero : LongTensor.sum (map (in_cluster cuts i) target) = 0%nat)
        by lia.
      apply mask_sum_zero in Hzero. rewrite Forall_forall in Hzero.
      apply nth_error_In in Ht. specialize (Hzero t Ht). congruence.
Qed.

(** X3: for targets in the vocabulary and valid cutoffs, [forward] hands
    every row with a target outside the head band to exactly one tail
    classifier and no other row to any.  The slot of cluster [i] holds the
    output of tail classifier [i] on the hidden rows at the positions
    [set_target] recorded for it, in that order and without repetition; a
    position is recorded for cluster [i] exactly when its target lies in
    [[c_i, c_{i+1})]; a position whose target is at or above [c0] is
    recorded for one cluster and no second one, a position whose target is
    below [c0] for none; so the tail slots together hold one row for every
    target outside the head band. *)
Theorem tail_rows_cover_targets (m : AdaptiveSoftmax) (hidden : Tensor)
  (target : list Z) :
  init_shapes m = true ->
  valid_cutoff (cutoff m) = true ->
  hidden_batch m hidden ->
  length target = size0 hidden ->
  Forall (fun t => (0 <= t < last (cutoff m) 0)%Z) target ->
  exists out calls,
    forward (set_target m target) hidden = Return (out, calls)
    /\ list_sum (map slot_rows (tl out))
       = length (filter (fun t => (cutoff_at (cutoff m) 0 <=? t)%Z) target)
    /\ (forall i, (i < length (cutoff m) - 1)%nat ->
          match nth i (set_target_ids (cutoff m) target) None,
                nth (S i) out None with
          | Some sel, Some x =>
              NoDup sel
              /\ exists s,
                   nth_error (tail m) i = Some s
                   /\ data x
                      = map (fun p => tail_row s (nth p (data hidden) [])) sel
          | None, None => True
          | _, _ => False
          end)
    /\ (forall i p, (i < length (cutoff m) - 1)%nat ->
          selects (cutoff m) target i p
          <-> exists t, nth_error target p = Some t
                        /\ (cutoff_at (cutoff m) i <= t
                            < cutoff_at (cutoff m) (i + 1))%Z)
    /\ (forall p t, nth_error target p = Some t ->
          if (cutoff_at (cutoff m) 0 <=? t)%Z
          then exists i, (i < length (cutoff m) - 1)%nat
                 /\ selects (cutoff m) target i p
                 /\ forall j, (j < length (cutoff m) - 1)%nat ->
                              selects (cutoff m) target j p -> j = i
          else forall i, (i < length (cutoff m) - 1)%nat ->
                         ~ selects (cutoff m) target i p).
Proof.
  intros Hs Hv Hb Hlen Hrange.
  do 2 eexists. split; [apply (forward_closed m hidden target Hs Hb Hlen)|].
  split; [|split; [|split]].
  - cbn [tl]. rewrite map_map.
    rewrite <- (routed_rows_total (cutoff m) target Hv)
      by (rewrite <- last_cutoff_at; exact Hrange).
    f_equal. apply map_ext_in. intros i Hi.
    unfold clusters in Hi. apply in_seq in Hi.
    pose proof (forward_slot_rows m hidden target i Hs Hlen ltac:(lia)) as H.
    destruct (forward_slot m hidden target i) as [x|]; cbn [slot_rows].
    + tauto.
    + now rewrite H.
  - intros i Hi. cbn [nth]. unfold clusters.
    rewrite (nth_indep _ None (forward_slot m hidden target 0))
      by (rewrite length_map, length_seq; exact Hi).
    rewrite map_nth, seq_nth by exact Hi. cbn [Nat.add].
    rewrite (set_target_ids_nth (cutoff m) target i Hi).
    destruct (tail_lookup m Hs i Hi) as [s Hsome].
    unfold forward_slot. rewrite Hsome.
    unfold set_target_entry. cbv zeta.
    destruct (0 <? LongTensor.sum (cluster_mask (cutoff m) i target))%nat;
      [|exact I].
    split.
    + apply sorted_lt_NoDup. unfold LongTensor.nonzero.
      apply nonzero_from_spec.
    + exists s. split; [reflexivity|]. cbn [data].
      rewrite <- (map_map fst (tail_row s)).
      rewrite (routed_rows_nth (cutoff m) i (data hidden) target)
        by (symmetry; exact Hlen).
      now rewrite map_map.
  - intros i p Hi. rewrite (selects_iff (cutoff m) target i p Hi).
    split; intros [t [Ht Hin]]; exists t; (split; [exact Ht|]);
      now apply in_cluster_true.
  - intros p t Hp.
    assert (Ht : (0 <= t < cutoff_at (cutoff m) (length (cutoff m) - 1))%Z).
    { rewrite <- last_cutoff_at. rewrite Forall_forall in Hrange.
      apply Hrange. now apply nth_error_In with p. }
    destruct (cutoff_at (cutoff m) 0 <=? t)%Z eqn:E.
    + apply Z.leb_le in E.
      destruct (target_cases (cutoff m) t Hv Ht) as [Hlt|[i [Hi Hin]]];
        [lia|].
      exists i. split; [exact Hi|]. split.
      * apply selects_iff; [exact Hi|]. now exists t.
      * intros j Hj Hsel. apply selects_iff in Hsel; [|exact Hj].
        destruct Hsel as [t' [Ht' Hin']].
        assert (t' = t) by congruence. subst t'.
        exact (in_cluster_unique (cutoff m) j i t Hv Hj Hi Hin' Hin).
    + apply Z.leb_gt in E. intros i Hi Hsel.
      apply selects_iff in Hsel; [|exact Hi].
      destruct Hsel as [t' [Ht' Hin']].
      assert (t' = t) by congruence. subst t'.
      rewrite (in_cluster_below_head (cutoff m) t i Hv E Hi) in Hin'.
      discriminate.
Qed.

Lemma tail_rows_cover_targets_witness :
  exists out calls,
    forward (set_target example_model [0%Z; 1%Z]) example_input
    = Return (out, calls)
    /\ list_sum (map slot_rows (tl out))
       = length (filter (fun t => (cutoff_at (cutoff example_model) 0 <=? t)%Z)
                        [0%Z; 1%Z])
    /\ (forall i, (i < length (cutoff example_model) - 1)%nat ->
          match nth i (set_target_ids (cutoff example_model) [0%Z; 1%Z]) None,
                nth (S i) out None with
          | Some sel, Some x =>
              NoDup sel
              /\ exists s,
                   nth_error (tail example_model) i = Some s
                   /\ data x
                      = map (fun p => tail_row s
                                        (nth p (data example_input) [])) sel
          | None, None => True
          | _, _ => False
          end)
    /\ (forall i p, (i < length (cutoff example_model) - 1)%nat ->
          selects (cutoff example_model) [0%Z; 1%Z] i p
          <-> exists t, nth_error [0%Z; 1%Z] p = Some t
                        /\ (cutoff_at (cutoff example_model) i <= t
                            < cutoff_at (cutoff example_model) (i + 1))%Z)
    /\ (forall p t, nth_error [0%Z; 1%Z] p = Some t ->
          if (cutoff_at (cutoff example_model) 0 <=? t)%Z
          then exists i, (i < length (cutoff example_model) - 1)%nat
                 /\ selects (cutoff example_model) [0%Z; 1%Z] i p
                 /\ forall j, (j < length (cutoff example_model) - 1)%nat ->
                              selects (cutoff example_model) [0%Z; 1%Z] j p ->
                              j = i
          else forall i, (i < length (cutoff example_model) - 1)%nat ->
                         ~ selects (cutoff example_model) [0%Z; 1%Z] i p).
Proof.
  apply (tail_rows_cover_targets example_model example_input [0%Z; 1%Z]).
  - reflexivity.
  - reflexivity.
  - split; [repeat constructor|reflexivity].
  - reflexivity.
  - repeat constructor; simpl; lia.
Defined.

(** ** What [remap_target] returns *)

Lemma cutoff_nonempty_of_valid (cuts : list Z) :
  valid_cutoff cuts = true -> (0 < length cuts)%nat.
Proof. destruct cuts; [discriminate|simpl; lia]. Qed.

Lemma in_cluster_above_last (cuts : list Z) (t : Z) (i : nat) :
  valid_cutoff cuts = true -> (last cuts 0 <= t)%Z ->
  (i < length cuts - 1)%nat ->
  in_cluster cuts i t = false.
Proof.
  intros Hv Ht Hi. rewrite last_cutoff_at in Ht.
  pose proof (valid_cutoff_mono_le cuts (i + 1) (length cuts - 1) Hv
                ltac:(lia) ltac:(lia)).
  unfold in_cluster. apply andb_false_iff. right. apply Z.ltb_ge. lia.
Qed.

Lemma route_outside (cuts : list Z) (t : Z) :
  valid_cutoff cuts = true ->
  (t < cutoff_at cuts 0 \/ last cuts 0 <= t)%Z ->
  route cuts t = t.
Proof.
  intros Hv Ht. unfold route. apply remap_id_outside.
  eapply Forall_impl; [|apply clusters_bound].
  intros i Hi. destruct Ht as [Ht|Ht].
  - now apply in_cluster_below_head.
  - now apply in_cluster_above_last.
Qed.

(** X4: [remap_target] returns one entry per cutoff; its first entry has
    the batch's length, leaves a target below [c0] or at or above the last
    cutoff as it is, and replaces a target of cluster [i] by the head id
    [c0 + i]. *)
Theorem remap_target_head_ids (cuts target : list Z) :
  valid_cutoff cuts = true ->
  exists new0 locals,
    remap_target cuts target = Some new0 :: locals
    /\ length new0 = length target
    /\ length locals = (length cuts - 1)%nat
    /\ forall p t, nth_error target p = Some t ->
         exists r,
           nth_error new0 p = Some r
           /\ ((t < cutoff_at cuts 0 \/ last cuts 0 <= t)%Z -> r = t)
           /\ forall i, (i < length cuts - 1)%nat ->
                        (cutoff_at cuts i <= t < cutoff_at cuts (i + 1))%Z ->
                        r = (cutoff_at cuts 0 + Z.of_nat i)%Z.
Proof.
  intros Hv. do 2 eexists. split; [apply remap_target_closed|].
  split; [apply length_map|].
  split; [unfold clusters; now rewrite length_map, length_seq|].
  intros p t Hp. exists (route cuts t). split.
  - rewrite nth_error_map, Hp. reflexivity.
  - split.
    + now apply route_outside.
    + intros i Hi Ht. apply route_cluster; [exact Hv|exact Hi|].
      now apply in_cluster_true.
Qed.

Lemma remap_target_head_ids_witness :
  exists new0 locals,
    remap_target [4; 7; 10]%Z [0; 5; 8; 12]%Z = Some new0 :: locals
    /\ length new0 = length [0; 5; 8; 12]%Z
    /\ length locals = (length [4; 7; 10]%Z - 1)%nat
    /\ forall p t, nth_error [0; 5; 8; 12]%Z p = Some t ->
         exists r,
           nth_error new0 p = Some r
           /\ ((t < cutoff_at [4; 7; 10]%Z 0 \/ last [4; 7; 10]%Z 0 <= t)%Z
               -> r = t)
           /\ forall i, (i < length [4; 7; 10]%Z - 1)%nat ->
                        (cutoff_at [4; 7; 10]%Z i <= t
                         < cutoff_at [4; 7; 10]%Z (i + 1))%Z ->
                        r = (cutoff_at [4; 7; 10]%Z 0 + Z.of_nat i)%Z.
Proof.
  apply (remap_target_head_ids [4; 7; 10]%Z [0; 5; 8; 12]%Z).
  reflexivity.
Defined.

Lemma masked_select_filter (f : Z -> bool) (target : list Z) :
  LongTensor.masked_select target (map f target) = filter f target.
Proof.
  induction target as [|t ts IH]; [reflexivity|].
  simpl. destruct (f t); now rewrite IH.
Qed.

(** X5: for int64 targets and cutoffs that are non-negative int64 values
    (increasing or not, with [c0 + len(cutoff)] an int64 value too), the
    local ids [remap_target] returns for a cluster are the targets of the
    cluster's range, in batch order, minus the lower cutoff; they lie in
    [[0, c_{i+1} - c_i)] and are int64 values, so the subtraction does not
    wrap; a cluster whose upper cutoff is not above its lower cutoff never
    receives a target. *)
Theorem local_ids_in_range (cuts target : list Z) (i : nat) :
  Forall (fun c => (0 <= c)%Z /\ int64 c) cuts ->
  int64 (cutoff_at cuts 0 + Z.of_nat (length cuts)) ->
  Forall int64 target ->
  (i < length cuts - 1)%nat ->
  match nth (S i) (remap_target cuts target) None with
  | Some loc =>
      loc = map (fun t => (t - cutoff_at cuts i)%Z)
                (filter (in_cluster cuts i) target)
      /\ loc <> []
      /\ (cutoff_at cuts i < cutoff_at cuts (i + 1))%Z
      /\ Forall (fun x => (0 <= x < cutoff_at cuts (i + 1)
                                    - cutoff_at cuts i)%Z
                          /\ int64 x) loc
  | None => Forall (fun t => in_cluster cuts i t = false) target
  end.
Proof.
  intros Hcuts _ _ Hi.
  assert (Hat : forall k, (k < length cuts)%nat ->
                          (0 <= cutoff_at cuts k < 2 ^ 63)%Z).
  { intros k Hk. rewrite Forall_forall in Hcuts.
    destruct (Hcuts (cutoff_at cuts k)) as [H0 [_ H1]]; [|lia].
    unfold cutoff_at. now apply nth_In. }
  pose proof (Hat i ltac:(lia)) as Hlo.
  pose proof (Hat (i + 1)%nat ltac:(lia)) as Hhi.
  rewrite remap_target_closed. cbn [nth]. unfold clusters.
  rewrite (nth_indep _ None (remap_entry cuts target 0))
    by (rewrite length_map, length_seq; exact Hi).
  rewrite map_nth, seq_nth by exact Hi. cbn [Nat.add].
  unfold remap_entry. cbv zeta.
  rewrite cluster_mask_in_cluster, masked_select_filter, mask_sum_filter.
  destruct (0 <? length (filter (in_cluster cuts i) target))%nat eqn:E.
  - apply Nat.ltb_lt in E.
    assert (Hall : Forall (fun x => (0 <= x < cutoff_at cuts (i + 1)
                                               - cutoff_at cuts i)%Z
                                    /\ int64 x)
                     (LongTensor.add (filter (in_cluster cuts i) target)
                                     (- cutoff_at cuts i))).
    { unfold LongTensor.add. apply Forall_forall. intros x Hx.
      apply in_map_iff in Hx. destruct Hx as [t [<- Ht]].
      apply filter_In in Ht. destruct Ht as [_ Ht].
      apply in_cluster_true in Ht. unfold int64. lia. }
    split; [reflexivity|].
    destruct (filter (in_cluster cuts i) target) as [|t ts] eqn:Ef;
      [simpl in E; lia|].
    split; [discriminate|]. split; [|exact Hall].
    assert (Ht : In t (filter (in_cluster cuts i) target))
      by (rewrite Ef; now left).
    apply filter_In in Ht. destruct Ht as [_ Ht].
    apply in_cluster_true in Ht. lia.
  - apply Nat.ltb_ge in E.
    apply mask_sum_zero. rewrite mask_sum_filter. lia.
Qed.

Lemma local_ids_in_range_witness :
  match nth 2 (remap_target [4; 7; 10]%Z [0; 5; 8; 9]%Z) None with
  | Some loc =>
      loc = map (fun t => (t - cutoff_at [4; 7; 10]%Z 1)%Z)
                (filter (in_cluster [4; 7; 10]%Z 1) [0; 5; 8; 9]%Z)
      /\ loc <> []
      /\ (cutoff_at [4; 7; 10]%Z 1 < cutoff_at [4; 7; 10]%Z (1 + 1))%Z
      /\ Forall (fun x => (0 <= x < cutoff_at [4; 7; 10]%Z (1 + 1)
                                    - cutoff_at [4; 7; 10]%Z 1)%Z
                          /\ int64 x) loc
  | None => Forall (fun t => in_cluster [4; 7; 10]%Z 1 t = false)
                   [0; 5; 8; 9]%Z
  end.
Proof.
  apply (local_ids_in_range [4; 7; 10]%Z [0; 5; 8; 9]%Z 1).
  - repeat constructor; unfold int64; lia.
  - unfold int64, cutoff_at. simpl. lia.
  - repeat constructor; unfold int64; lia.
  - simpl. lia.
Defined.

(** ** Targets the assertion of [AdaptiveLoss.forward] rejects *)

Lemma fold_min_le (l : list Z) :
  forall a, (fold_left Z.min l a <= a)%Z
            /\ Forall (fun x => (fold_left Z.min l a <= x)%Z) l.
Proof.
  induction l as [|y ys IH]; intros a; simpl; [split; [lia|constructor]|].
  destruct (IH (Z.min a y)) as [H1 H2]. split; [lia|].
  constructor; [lia|exact H2].
Qed.

Lemma fold_max_ge (l : list Z) :
  forall a, (a <= fold_left Z.max l a)%Z
            /\ Forall (fun x => (x <= fold_left Z.max l a)%Z) l.
Proof.
  induction l as [|y ys IH]; intros a; simpl; [split; [lia|constructor]|].
  destruct (IH (Z.max a y)) as [H1 H2]. split; [lia|].
  constructor; [lia|exact H2].
Qed.

Lemma tensor_min_le (tg : list Z) (x : Z) :
  In x tg -> exists lo, tensor_min tg = Return lo /\ (lo <= x)%Z.
Proof.
  destruct tg as [|a rest]; [contradiction|]. intros Hin.
  eexists. split; [reflexivity|].
  destruct (fold_min_le rest a) as [H1 H2].
  destruct Hin as [<-|Hin]; [exact H1|].
  rewrite Forall_forall in H2. now apply H2.
Qed.

Lemma tensor_max_ge (tg : list Z) (x : Z) :
  In x tg -> exists hi, tensor_max tg = Return hi /\ (x <= hi)%Z.
Proof.
  destruct tg as [|a rest]; [contradiction|]. intros Hin.
  eexists. split; [reflexivity|].
  destruct (fold_max_ge rest a) as [H1 H2].
  destruct Hin as [<-|Hin]; [exact H1|].
  rewrite Forall_forall in H2. now apply H2.
Qed.

(** X6: under valid cutoffs, a batch that holds a negative target, or a
    target at or above the last cutoff that exceeds the width of the head
    output, makes [AdaptiveLoss.forward] fail its assertion on the head
    slot, before any cross-entropy is computed. *)
Theorem bad_target_fails_assertion (l : AdaptiveLoss) (head_out : Tensor)
  (tails : list (option Tensor)) (target : list Z) (t : Z) :
  valid_cutoff (loss_cutoff l) = true ->
  In t target ->
  (t < 0 \/ (last (loss_cutoff l) 0 <= t /\ Z.of_nat (size1 head_out) < t))%Z ->
  AdaptiveLoss_forward l (Some head_out :: tails) target
  = Raise AssertionError.
Proof.
  intros Hv Hin Hbad.
  pose proof (cutoff_nonempty_of_valid (loss_cutoff l) Hv) as Hne.
  pose proof (valid_cutoff_pos (loss_cutoff l) 0 Hv Hne) as Hc0.
  assert (Hroute : route (loss_cutoff l) t = t).
  { apply route_outside; [exact Hv|]. destruct Hbad as [Hneg|[Hge _]].
    - left. lia.
    - now right. }
  unfold AdaptiveLoss_forward. rewrite remap_target_closed.
  change (map (fun t0 => remap_id (loss_cutoff l) (clusters (loss_cutoff l))
                           t0 t0) target)
    with (map (route (loss_cutoff l)) target).
  assert (Hmem : In t (map (route (loss_cutoff l)) target)).
  { rewrite <- Hroute. now apply in_map. }
  destruct (tensor_min_le _ t Hmem) as [lo [Hlo Hle]].
  destruct (tensor_max_ge _ t Hmem) as [hi [Hhi Hge]].
  unfold loss_after_remap. cbn [getitem nth_error bind Return loss_loop].
  rewrite Hlo, Hhi. cbn [bind Return].
  replace ((0 <=? lo)%Z && (hi <=? Z.of_nat (size1 head_out))%Z) with false;
    [reflexivity|].
  symmetry. apply andb_false_iff. destruct Hbad as [Hneg|[_ Hwide]].
  - left. apply Z.leb_gt. lia.
  - right. apply Z.leb_gt. lia.
Qed.

Lemma bad_target_fails_assertion_witness :
  AdaptiveLoss_forward (mkAdaptiveLoss [1; 3]%Z)
    [Some (mkTensor 2 [[0%R; 0%R]; [0%R; 0%R]]); None] [0%Z; (-1)%Z]
  = Raise AssertionError.
Proof.
  apply (bad_target_fails_assertion (mkAdaptiveLoss [1; 3]%Z)
           (mkTensor 2 [[0%R; 0%R]; [0%R; 0%R]]) [None] [0%Z; (-1)%Z] (-1)%Z).
  - reflexivity.
  - right. now left.
  - left. lia.
Defined.

(** ** Signs: log-probabilities and the loss *)

Lemma exp_le_one (x : R) : (exp x <= 1)%R -> (x <= 0)%R.
Proof.
  intros H. apply Rnot_lt_le. intros Hpos.
  pose proof (exp_increasing 0 x Hpos) as Hinc. rewrite exp_0 in Hinc. lra.
Qed.

Lemma Rsum_exp_nonneg (l : list R) : (0 <= Rsum (map exp l))%R.
Proof.
  unfold Rsum. induction l as [|y ys IH]; simpl; [lra|].
  pose proof (exp_pos y). lra.
Qed.

Lemma normalised_nonpositive (l : list R) :
  Rsum (map exp l) = 1%R -> Forall (fun x => (x <= 0)%R) l.
Proof.
  induction l as [|y ys IH]; intros H; [constructor|].
  cbn [map] in H. change (Rsum (?a :: ?b)) with (a + Rsum b)%R in H.
  pose proof (exp_pos y) as Hy. pose proof (Rsum_exp_nonneg ys) as Hys.
  constructor; [apply exp_le_one; lra|].
  apply Forall_forall. intros x Hx. apply exp_le_one.
  assert (Hle : (exp x <= Rsum (map exp ys))%R).
  { clear - Hx. induction ys as [|z zs IHz]; [contradiction|].
    cbn [map]. change (Rsum (?a :: ?b)) with (a + Rsum b)%R.
    pose proof (exp_pos z). pose proof (Rsum_exp_nonneg zs).
    destruct Hx as [->|Hx]; [lra|]. specialize (IHz Hx). lra. }
  lra.
Qed.

(** X7: every entry of the matrix [log_prob] returns is at most 0: each is
    the logarithm of a probability. *)
Theorem log_prob_entries_nonpositive (m : AdaptiveSoftmax) (input : Tensor) :
  init_shapes m = true ->
  valid_cutoff (cutoff m) = true ->
  hidden_batch m input ->
  exists prob,
    log_prob m input = Return prob
    /\ Forall (Forall (fun x => (x <= 0)%R)) (data prob).
Proof.
  intros Hs Hv Hb. eexists. split; [apply (log_prob_rows m input Hs Hv Hb)|].
  cbn [data]. apply Forall_forall. intros row Hrow.
  apply in_map_iff in Hrow. destruct Hrow as [h [<- _]].
  apply normalised_nonpositive. apply (prob_row_normalised m Hs Hv).
Qed.

Lemma log_prob_entries_nonpositive_witness :
  exists prob,
    log_prob example_model example_input = Return prob
    /\ Forall (Forall (fun x => (x <= 0)%R)) (data prob).
Proof.
  apply (log_prob_entries_nonpositive example_model example_input).
  - reflexivity.
  - reflexivity.
  - split; [repeat constructor|reflexivity].
Defined.

Lemma nth_nonpositive (row : list R) (k : nat) :
  Forall (fun x => (x <= 0)%R) row -> (nth k row 0 <= 0)%R.
Proof.
  intros Hall. destruct (nth_in_or_default k row 0%R) as [Hin| ->]; [|lra].
  rewrite Forall_forall in Hall. now apply Hall.
Qed.

Lemma Rsum_nonneg {A : Type} (g : A -> R) (l : list A) :
  (forall a, In a l -> (0 <= g a)%R) -> (0 <= Rsum (map g l))%R.
Proof.
  unfold Rsum. induction l as [|a l' IH]; intros H; simpl; [lra|].
  assert (0 <= g a)%R by (apply H; now left).
  assert (0 <= fold_right Rplus 0%R (map g l'))%R
    by (apply IH; intros b Hb; apply H; now right).
  lra.
Qed.

(** The value of the training step of [main.py], in closed form. *)
Lemma train_loss_value (cuts : list Z) (ntokens v' : Z)
  (m : AdaptiveSoftmax) (l : AdaptiveLoss) (hidden : Tensor)
  (target : list Z) :
  cutoff m = model_cutoff cuts ntokens ->
  loss_cutoff l = cuts ++ [v'] ->
  (ntokens <= v')%Z ->
  init_shapes m = true ->
  valid_cutoff (cutoff m) = true ->
  hidden_batch m hidden ->
  length target = size0 hidden ->
  target <> [] ->
  Forall (fun t => (0 <= t < ntokens)%Z) target ->
  train_loss m l hidden target
  = Return (mkLossState
              (NLLLoss (mkTensor
                          (Z.to_nat (cutoff_at (cutoff m)
                                       (length (cutoff m) - 1)))
                          (map (fun h => prob_prefix m h
                                           (length (cutoff m) - 1))
                               (data hidden)))
                       target)
              0).
Proof.
  intros Hm Hl Hv Hs Hvalid Hb Hlen Hne Hrange.
  assert (Hlast : cutoff_at (cutoff m) (length (cutoff m) - 1) = ntokens).
  { rewrite <- last_cutoff_at, Hm. unfold model_cutoff. apply last_last. }
  assert (Hrange' :
            Forall (fun t => (0 <= t < cutoff_at (cutoff m)
                                         (length (cutoff m) - 1))%Z) target)
    by now rewrite Hlast.
  assert (Hremap : remap_target (loss_cutoff l) target
                   = remap_target (cutoff m) target).
  { rewrite Hl, Hm. unfold model_cutoff.
    apply remap_target_last_cutoff; [|exact Hv].
    eapply Forall_impl; [|exact Hrange]. simpl. intros; lia. }
  destruct (training_value m hidden target Hs Hvalid Hlen Hrange' Hne)
    as [Hloss Hnll].
  unfold train_loss.
  rewrite (forward_closed m hidden target Hs Hb Hlen).
  cbn [bind Return fst]. unfold AdaptiveLoss_forward.
  rewrite Hremap, Hloss, Hnll. reflexivity.
Qed.

(** X8: the loss of a training step on in-vocabulary targets is never
    negative. *)
Theorem training_loss_nonnegative (cuts : list Z) (ntokens v' : Z)
  (m : AdaptiveSoftmax) (l : AdaptiveLoss) (hidden : Tensor)
  (target : list Z) :
  cutoff m = model_cutoff cuts ntokens ->
  loss_cutoff l = cuts ++ [v'] ->
  (ntokens <= v')%Z ->
  init_shapes m = true ->
  valid_cutoff (cutoff m) = true ->
  hidden_batch m hidden ->
  length target = size0 hidden ->
  target <> [] ->
  Forall (fun t => (0 <= t < ntokens)%Z) target ->
  exists loss,
    train_loss m l hidden target = Return (mkLossState loss 0)
    /\ (0 <= loss)%R.
Proof.
  intros Hm Hl Hv Hs Hvalid Hb Hlen Hne Hrange.
  eexists. split.
  - apply (train_loss_value cuts ntokens v' m l hidden target); assumption.
  - unfold NLLLoss, size0. cbn [data]. rewrite length_map.
    apply Rmult_le_pos.
    + apply Rsum_nonneg. intros [row t] Hp.
      apply in_combine_l in Hp. apply in_map_iff in Hp.
      destruct Hp as [h [Hh _]].
      assert (Hrow : Forall (fun x => (x <= 0)%R) row).
      { rewrite <- Hh. apply normalised_nonpositive.
        apply (prob_row_normalised m Hs Hvalid). }
      pose proof (nth_nonpositive row (Z.to_nat t) Hrow). cbn [fst snd]. lra.
    + apply Rlt_le, Rinv_0_lt_compat, lt_0_INR.
      fold (size0 hidden). rewrite <- Hlen.
      destruct target; [congruence|simpl; lia].
Qed.

Lemma training_loss_nonnegative_witness :
  exists loss,
    train_loss example_model (mkAdaptiveLoss [1; 3]%Z) example_input
      [0%Z; 1%Z]
    = Return (mkLossState loss 0)
    /\ (0 <= loss)%R.
Proof.
  apply (training_loss_nonnegative [1%Z] 2 3 example_model
           (mkAdaptiveLoss [1; 3]%Z) example_input [0%Z; 1%Z]).
  - reflexivity.
  - reflexivity.
  - lia.
  - reflexivity.
  - reflexivity.
  - split; [repeat constructor|reflexivity].
  - reflexivity.
  - discriminate.
  - repeat constructor; lia.
Defined.

(** ** The model [__init__] builds *)

Lemma forallb_repeat {A : Type} (f : A -> bool) (x : A) (n : nat) :
  f x = true -> forallb f (repeat x n) = true.
Proof.
  intros H. induction n as [|n IH]; [reflexivity|]. simpl. now rewrite H, IH.
Qed.

Lemma zero_Linear_shape (a b : Z) (with_bias : bool) (layer : Linear) :
  zero_Linear a b with_bias = Return layer ->
  Linear_shape layer a b with_bias = true.
Proof.
  unfold zero_Linear. destruct ((a <? 0) || (b <? 0))%Z eqn:E; [discriminate|].
  apply orb_false_iff in E. destruct E as [Ha Hb].
  apply Z.ltb_ge in Ha. apply Z.ltb_ge in Hb.
  intros H. injection H as <-. unfold Linear_shape.
  cbn [in_features out_features weight bias].
  rewrite !Z2Nat.id by lia. rewrite !Z.eqb_refl, repeat_length, Nat.eqb_refl.
  rewrite forallb_repeat by (rewrite repeat_length; apply Nat.eqb_refl).
  destruct with_bias; [|reflexivity].
  rewrite repeat_length. cbn [andb]. apply Nat.eqb_refl.
Qed.

(** X9: when [nn.Linear] returns layers of the sizes it is asked for, a
    model built by [AdaptiveSoftmax.__init__] stores the hidden size and the
    cutoffs it was given, has no routing yet, a head of [c0 + K] outputs
    with bias, and [K] tail classifiers, the [i]-th made of two bias-free
    layers [nhid -> nhid // 4^i -> c_{i+1} - c_i]. *)
Theorem init_builds_model (new_Linear : Z -> Z -> bool -> result Linear)
  (n : Z) (cuts : list Z) (m : AdaptiveSoftmax) :
  (forall a b with_bias layer,
      new_Linear a b with_bias = Return layer ->
      Linear_shape layer a b with_bias = true) ->
  AdaptiveSoftmax_init new_Linear n cuts = Return m ->
  cutoff m = cuts /\ nhid m = n /\ id m = None
  /\ output_size m = (cutoff_at cuts 0 + Z.of_nat (length cuts) - 1)%Z
  /\ length (tail m) = (length cuts - 1)%nat
  /\ Linear_shape (head m) n (output_size m) true = true
  /\ forall i s, nth_error (tail m) i = Some s ->
       Linear_shape (fst s) n (n / 4 ^ Z.of_nat i)%Z false = true
       /\ Linear_shape (snd s) (n / 4 ^ Z.of_nat i)%Z
            (cutoff_at cuts (i + 1) - cutoff_at cuts i)%Z false = true.
Proof.
  intros Hnew Hinit.
  pose proof (init_gives_shapes new_Linear n cuts m Hnew Hinit) as Hshapes.
  assert (Hne : cuts <> []).
  { intros ->. discriminate Hinit. }
  destruct (AdaptiveSoftmax_init_returns new_Linear n cuts Hne) as [_ Hstored].
  destruct (Hstored m Hinit) as [Hc [Hn Hid]].
  destruct (init_shapes_spec m Hshapes) as [Hos [Hhead [Hlen Htail]]].
  rewrite Hc in Hos, Hlen, Htail. rewrite Hn in Hhead, Htail.
  repeat split; try assumption.
  - exact (proj1 (tail_shapes_nth n cuts (tail m) 0 i s Htail H)).
  - exact (proj2 (tail_shapes_nth n cuts (tail m) 0 i s Htail H)).
Qed.

Lemma init_builds_model_witness :
  cutoff example_model = [1; 2]%Z /\ nhid example_model = 1%Z
  /\ id example_model = None
  /\ output_size example_model
     = (cutoff_at [1; 2]%Z 0 + Z.of_nat (length [1; 2]%Z) - 1)%Z
  /\ length (tail example_model) = (length [1; 2]%Z - 1)%nat
  /\ Linear_shape (head example_model) 1 (output_size example_model) true
     = true
  /\ forall i s, nth_error (tail example_model) i = Some s ->
       Linear_shape (fst s) 1 (1 / 4 ^ Z.of_nat i)%Z false = true
       /\ Linear_shape (snd s) (1 / 4 ^ Z.of_nat i)%Z
            (cutoff_at [1; 2]%Z (i + 1) - cutoff_at [1; 2]%Z i)%Z false
          = true.
Proof.
  apply (init_builds_model zero_Linear 1 [1; 2]%Z example_model).
  - apply zero_Linear_shape.
  - reflexivity.
Defined.

(** * [main.py]: batching *)

(** ** [batchify] *)

Lemma nth_skipn_shift {A : Type} (l : list A) (k i : nat) (d : A) :
  nth i (skipn k l) d = nth (k + i) l d.
Proof.
  revert l. induction k as [|k IH]; intros l; [reflexivity|].
  destruct l as [|a l']; [destruct i; reflexivity|]. simpl. apply IH.
Qed.

Lemma nth_firstn_below {A : Type} (l : list A) (j n : nat) (d : A) :
  (j < n)%nat -> nth j (firstn n l) d = nth j l d.
Proof.
  revert l n. induction j as [|j IH]; intros l n Hj.
  - destruct n; [lia|]. destruct l; reflexivity.
  - destruct n; [lia|]. destruct l; [reflexivity|].
    simpl. apply IH. lia.
Qed.

Lemma nth_map_seq {A : Type} (F : nat -> A) (n i : nat) (d : A) :
  (i < n)%nat -> nth i (map F (seq 0 n)) d = F i.
Proof.
  intros Hi. rewrite (nth_indep _ d (F 0%nat))
    by (rewrite length_map, length_seq; exact Hi).
  now rewrite map_nth, seq_nth.
Qed.

(** The run of [batchify] on a batch size between 1 and the length. *)
Lemma batchify_value (data : list Z) (bsz : Z) :
  (0 < bsz <= Z.of_nat (length data))%Z ->
  let b := Z.to_nat bsz in
  let q := (length data / b)%nat in
  batchify data bsz
  = Return (map (fun i =>
                   map (fun j => nth (j * q + i) data 0%Z) (seq 0 b))
                (seq 0 q)).
Proof.
  intros Hb b q.
  assert (Hbpos : (0 < b)%nat) by (unfold b; lia).
  assert (Hbz : bsz = Z.of_nat b) by (unfold b; lia).
  assert (Hq : (Z.of_nat (length data) / bsz)%Z = Z.of_nat q).
  { unfold q. rewrite Hbz. symmetry. apply Nat2Z.inj_div. }
  assert (Hqpos : (0 < q)%nat).
  { unfold q. apply Nat.div_str_pos. lia. }
  assert (Hqb : (q * b <= length data)%nat).
  { unfold q. rewrite Nat.mul_comm. apply Nat.Div0.mul_div_le. }
  unfold batchify.
  replace (bsz =? 0)%Z with false by (symmetry; apply Z.eqb_neq; lia).
  rewrite Hq. unfold narrow0.
  replace ((0 <=? 0)%Z && (0 <=? Z.of_nat q * bsz)%Z
           && (0 + Z.of_nat q * bsz <=? Z.of_nat (length data))%Z)
    with true.
  2:{ symmetry. rewrite !andb_true_iff, !Z.leb_le.
      rewrite Hbz. nia. }
  cbn [bind Return]. change (Z.to_nat 0) with 0%nat. cbn [skipn].
  assert (Hprod : Z.to_nat (Z.of_nat q * bsz) = (q * b)%nat)
    by (rewrite Hbz; lia).
  rewrite Hprod.
  assert (Hlen : length (firstn (q * b) data) = (q * b)%nat)
    by (rewrite length_firstn; lia).
  unfold view_rows. rewrite Hlen.
  replace ((0 <? bsz)%Z && (Z.of_nat (q * b) mod bsz =? 0)%Z)
    with true.
  2:{ symmetry. rewrite andb_true_iff, Z.ltb_lt, Z.eqb_eq.
      split; [lia|].
      rewrite Hbz, Nat2Z.inj_mul. apply Z.mod_mul. lia. }
  cbn [bind Return].
  assert (Hwidth : Z.to_nat (Z.of_nat (q * b) / bsz) = q).
  { rewrite Hbz, Nat2Z.inj_mul, Z.div_mul by lia. lia. }
  rewrite Hwidth, Nat2Z.id. fold b. unfold transpose.
  apply f_equal. apply map_ext_in. intros i Hi. apply in_seq in Hi.
  rewrite map_map. apply map_ext_in. intros j Hj. apply in_seq in Hj.
  rewrite nth_firstn_below by lia.
  rewrite nth_skipn_shift. apply nth_firstn_below. nia.
Qed.

(** X10: for a batch size between 1 and the corpus length, [batchify]
    returns [len // bsz] rows of [bsz] columns; the entry in row [i] and
    column [j] is token [j * (len // bsz) + i] of the corpus, so each
    column is a contiguous run of the corpus, and fewer than [bsz] tokens
    at the end are left out. *)
Theorem batchify_columns_are_runs (data : list Z) (bsz : Z) :
  (0 < bsz <= Z.of_nat (length data))%Z ->
  exists rows,
    batchify data bsz = Return rows
    /\ Z.of_nat (length rows) = (Z.of_nat (length data) / bsz)%Z
    /\ Forall (fun row => Z.of_nat (length row) = bsz) rows
    /\ (forall i j, (i < length rows)%nat -> (Z.of_nat j < bsz)%Z ->
          nth j (nth i rows []) 0%Z = nth (j * length rows + i) data 0%Z)
    /\ (Z.of_nat (length data) - Z.of_nat (length rows) * bsz < bsz)%Z.
Proof.
  intros Hb. eexists. split; [apply (batchify_value data bsz Hb)|].
  assert (Hbz : bsz = Z.of_nat (Z.to_nat bsz)) by lia.
  set (b := Z.to_nat bsz) in *.
  rewrite length_map, length_seq.
  assert (Hq : (Z.of_nat (length data) / bsz)%Z = Z.of_nat (length data / b)).
  { rewrite Hbz. symmetry. apply Nat2Z.inj_div. }
  split; [now rewrite Hq|]. split; [|split].
  - apply Forall_forall. intros row Hrow. apply in_map_iff in Hrow.
    destruct Hrow as [i [<- _]]. rewrite length_map, length_seq. lia.
  - intros i j Hi Hj.
    rewrite nth_map_seq by exact Hi. rewrite nth_map_seq by lia.
    reflexivity.
  - rewrite <- Hq.
    pose proof (Z.mod_pos_bound (Z.of_nat (length data)) bsz ltac:(lia)).
    pose proof (Z.div_mod (Z.of_nat (length data)) bsz ltac:(lia)). nia.
Qed.

Lemma batchify_columns_are_runs_witness :
  exists rows,
    batchify [10; 11; 12; 13; 14; 15; 16]%Z 3 = Return rows
    /\ Z.of_nat (length rows)
       = (Z.of_nat (length [10; 11; 12; 13; 14; 15; 16]%Z) / 3)%Z
    /\ Forall (fun row => Z.of_nat (length row) = 3%Z) rows
    /\ (forall i j, (i < length rows)%nat -> (Z.of_nat j < 3)%Z ->
          nth j (nth i rows []) 0%Z
          = nth (j * length rows + i) [10; 11; 12; 13; 14; 15; 16]%Z 0%Z)
    /\ (Z.of_nat (length [10; 11; 12; 13; 14; 15; 16]%Z)
        - Z.of_nat (length rows) * 3 < 3)%Z.
Proof.
  apply (batchify_columns_are_runs [10; 11; 12; 13; 14; 15; 16]%Z 3).
  simpl. lia.
Defined.

(** The picture in the comment of [main.py]: the alphabet in four
    columns. *)
Example batchify_alphabet :
  batchify (map Z.of_nat (seq 0 26)) 4
  = Return [[0; 6; 12; 18]; [1; 7; 13; 19]; [2; 8; 14; 20];
            [3; 9; 15; 21]; [4; 10; 16; 22]; [5; 11; 17; 23]]%Z.
Proof. reflexivity. Qed.

(** X11: the other batch sizes.  [batchify] raises [ZeroDivisionError] for
    a batch size of 0 and a tensor error for a negative one ([narrow] is
    asked for more than there is, or [view] for a negative size).  For a
    batch size above the corpus length it raises nothing: the quotient is
    0, [narrow] keeps no element, [view] gives [bsz] empty rows and their
    transpose has no row. *)
Theorem batchify_other_sizes (data : list Z) (bsz : Z) :
  (bsz <= 0 \/ Z.of_nat (length data) < bsz)%Z ->
  batchify data bsz
  = (if (bsz =? 0)%Z then Raise ZeroDivisionError
     else if (bsz <? 0)%Z then Raise RuntimeError
     else Return [])
  /\ (Z.of_nat (length data) < bsz ->
      narrow0 data 0 (Z.of_nat (length data) / bsz * bsz) = Return []
      /\ view_rows [] bsz = Return (repeat [] (Z.to_nat bsz)))%Z.
Proof.
  intros Hbad. split.
  - unfold batchify.
    destruct (bsz =? 0)%Z eqn:E0; [reflexivity|].
    apply Z.eqb_neq in E0.
    destruct (bsz <? 0)%Z eqn:Eneg.
    + apply Z.ltb_lt in Eneg. unfold narrow0.
      destruct ((0 <=? 0)%Z
                && (0 <=? Z.of_nat (length data) / bsz * bsz)%Z
                && (0 + Z.of_nat (length data) / bsz * bsz
                    <=? Z.of_nat (length data))%Z); [|reflexivity].
      cbn [bind Return]. unfold view_rows.
      replace (0 <? bsz)%Z with false by (symmetry; apply Z.ltb_ge; lia).
      reflexivity.
    + apply Z.ltb_ge in Eneg.
      assert (Hbig : (Z.of_nat (length data) < bsz)%Z) by lia.
      rewrite Z.div_small by lia. unfold narrow0.
      change (0 * bsz)%Z with 0%Z.
      replace ((0 <=? 0)%Z && (0 <=? 0)%Z
               && (0 + 0 <=? Z.of_nat (length data))%Z) with true
        by (symmetry; rewrite !andb_true_iff, !Z.leb_le; lia).
      cbn [bind Return Z.to_nat skipn firstn]. unfold view_rows.
      cbn [length Z.of_nat].
      replace (0 <? bsz)%Z with true by (symmetry; apply Z.ltb_lt; lia).
      rewrite Z.mod_0_l by lia. reflexivity.
  - intros Hbig. rewrite Z.div_small by lia. split.
    { unfold narrow0. change (0 * bsz)%Z with 0%Z.
      replace ((0 <=? 0)%Z && (0 <=? 0)%Z
               && (0 + 0 <=? Z.of_nat (length data))%Z) with true
        by (symmetry; rewrite !andb_true_iff, !Z.leb_le; lia).
      reflexivity. }
    unfold view_rows. cbn [length Z.of_nat].
    replace (0 <? bsz)%Z with true by (symmetry; apply Z.ltb_lt; lia).
    rewrite Z.mod_0_l by lia. cbn [andb Z.eqb].
    rewrite Z.div_0_l by lia. cbn [Z.to_nat firstn].
    apply f_equal.
    generalize (Z.to_nat bsz). intros k.
    assert (H : forall a, map (fun j : nat =>
                    @firstn Z 0 (skipn (j * 0) [])) (seq a k) = repeat [] k).
    { induction k as [|k IH]; intros a; [reflexivity|].
      cbn [seq map repeat]. now rewrite IH. }
    apply H.
Qed.

Lemma batchify_other_sizes_witness :
  batchify [1; 2; 3]%Z 5
  = (if (5 =? 0)%Z then Raise ZeroDivisionError
     else if (5 <? 0)%Z then Raise RuntimeError
     else Return [])
  /\ (Z.of_nat (length [1; 2; 3]%Z) < 5 ->
      narrow0 [1; 2; 3]%Z 0 (Z.of_nat (length [1; 2; 3]%Z) / 5 * 5)
      = Return []
      /\ view_rows [] 5 = Return (repeat [] (Z.to_nat 5)))%Z.
Proof.
  apply (batchify_other_sizes [1; 2; 3]%Z 5). right. simpl. lia.
Defined.

(** ** [get_batch] *)

Lemma getslice_inside {A : Type} (t : list A) (lo len : nat) :
  (0 < len)%nat -> (lo + len <= length t)%nat ->
  getslice t (Z.of_nat lo) (Z.of_nat lo + Z.of_nat len)
  = Some (firstn len (skipn lo t)).
Proof.
  intros Hlen Hin. unfold getslice, clamp_index.
  replace (Z.of_nat lo <? 0)%Z with false by (symmetry; apply Z.ltb_ge; lia).
  replace (Z.of_nat lo + Z.of_nat len <? 0)%Z with false
    by (symmetry; apply Z.ltb_ge; lia).
  rewrite !Z.min_l by lia.
  replace (Z.of_nat lo <? Z.of_nat lo + Z.of_nat len)%Z with true
    by (symmetry; apply Z.ltb_lt; lia).
  f_equal. f_equal; [lia|]. f_equal. lia.
Qed.

Lemma in_firstn {A : Type} (x : A) (n : nat) (l : list A) :
  In x (firstn n l) -> In x l.
Proof.
  intros H. rewrite <- (firstn_skipn n l). apply in_or_app. now left.
Qed.

Lemma in_skipn {A : Type} (x : A) (n : nat) (l : list A) :
  In x (skipn n l) -> In x l.
Proof.
  intros H. rewrite <- (firstn_skipn n l). apply in_or_app. now right.
Qed.

(** [get_batch] at a start the loops of [main.py] produce. *)
Lemma get_batch_rows (bptt : Z) (source : list (list Z)) (i : nat) :
  (0 < bptt)%Z -> (i < length source - 1)%nat ->
  let s := Nat.min (Z.to_nat bptt) (length source - 1 - i) in
  get_batch bptt source (Z.of_nat i)
  = Some (firstn s (skipn i source),
          concat (firstn s (skipn (S i) source))).
Proof.
  intros Hb Hi s. unfold get_batch.
  assert (Hs : Z.min bptt (Z.of_nat (length source) - 1 - Z.of_nat i)
               = Z.of_nat s) by (unfold s; lia).
  assert (Hspos : (0 < s)%nat) by (unfold s; lia).
  assert (Hsle : (i + s <= length source - 1)%nat) by (unfold s; lia).
  rewrite Hs.
  rewrite (getslice_inside source i s) by lia.
  replace (Z.of_nat i + 1)%Z with (Z.of_nat (S i)) by lia.
  rewrite (getslice_inside source (S i) s) by lia.
  reflexivity.
Qed.

Lemma nth_concat_uniform (b : nat) (rows : list (list Z)) :
  Forall (fun row => length row = b) rows ->
  forall k j, (k < length rows)%nat -> (j < b)%nat ->
              nth (k * b + j) (concat rows) 0%Z = nth j (nth k rows []) 0%Z.
Proof.
  induction 1 as [|row rest Hrow _ IH]; intros k j Hk Hj; [simpl in Hk; lia|].
  destruct k as [|k]; cbn [concat nth].
  - rewrite app_nth1 by lia. reflexivity.
  - rewrite app_nth2 by (simpl; lia).
    replace (S k * b + j - length row)%nat with (k * b + j)%nat
      by (simpl; lia).
    apply IH; [simpl in Hk; lia|exact Hj].
Qed.

Lemma length_concat_uniform (b : nat) (rows : list (list Z)) :
  Forall (fun row => length row = b) rows ->
  length (concat rows) = (length rows * b)%nat.
Proof.
  induction 1 as [|row rest Hrow _ IH]; [reflexivity|].
  cbn [concat length]. rewrite length_app, IH, Hrow. lia.
Qed.

(** X12: at a start [i] before the last row and with a positive [bptt],
    [get_batch] returns [min(bptt, len - 1 - i)] input rows, at least one,
    and as many target rows: input row [k] is row [i + k] of the source and
    target row [k] is the row after it, so that entry [k * B + j] of the
    flattened targets is the token that follows input entry [(k, j)] in
    column [j]. *)
Theorem get_batch_targets_follow_inputs (bptt : Z) (source : list (list Z))
  (i b : nat) :
  (0 < bptt)%Z ->
  (i < length source - 1)%nat ->
  Forall (fun row => length row = b) source ->
  exists data target,
    get_batch bptt source (Z.of_nat i) = Some (data, target)
    /\ Z.of_nat (length data)
       = Z.min bptt (Z.of_nat (length source) - 1 - Z.of_nat i)
    /\ (0 < length data)%nat
    /\ length target = (length data * b)%nat
    /\ forall k, (k < length data)%nat ->
         nth k data [] = nth (i + k) source []
         /\ forall j, (j < b)%nat ->
              nth (k * b + j) target 0%Z
              = nth j (nth (i + k + 1) source []) 0%Z.
Proof.
  intros Hb Hi Hrect.
  do 2 eexists. split; [apply (get_batch_rows bptt source i Hb Hi)|].
  set (s := Nat.min (Z.to_nat bptt) (length source - 1 - i)).
  assert (Hlen1 : length (firstn s (skipn i source)) = s)
    by (rewrite length_firstn, length_skipn; unfold s; lia).
  assert (Hlen2 : length (firstn s (skipn (S i) source)) = s)
    by (rewrite length_firstn, length_skipn; unfold s; lia).
  assert (Hrect2 : Forall (fun row => length row = b)
                     (firstn s (skipn (S i) source))).
  { apply Forall_forall. intros row Hrow.
    apply in_firstn in Hrow. apply in_skipn in Hrow.
    rewrite Forall_forall in Hrect. now apply Hrect. }
  rewrite Hlen1. split; [unfold s; lia|]. split; [unfold s; lia|]. split.
  - now rewrite (length_concat_uniform b _ Hrect2), Hlen2.
  - intros k Hk. split.
    + rewrite nth_firstn_below by exact Hk. apply nth_skipn_shift.
    + intros j Hj.
      rewrite (nth_concat_uniform b _ Hrect2) by (rewrite ?Hlen2; lia).
      rewrite nth_firstn_below by exact Hk.
      rewrite nth_skipn_shift. do 2 f_equal. lia.
Qed.

Lemma get_batch_targets_follow_inputs_witness :
  exists data target,
    get_batch 2 [[0; 6]; [1; 7]; [2; 8]; [3; 9]]%Z (Z.of_nat 2)
    = Some (data, target)
    /\ Z.of_nat (length data)
       = Z.min 2 (Z.of_nat (length [[0; 6]; [1; 7]; [2; 8]; [3; 9]]%Z) - 1
                  - Z.of_nat 2)
    /\ (0 < length data)%nat
    /\ length target = (length data * 2)%nat
    /\ forall k, (k < length data)%nat ->
         nth k data [] = nth (2 + k) [[0; 6]; [1; 7]; [2; 8]; [3; 9]]%Z []
         /\ forall j, (j < 2)%nat ->
              nth (k * 2 + j) target 0%Z
              = nth j (nth (2 + k + 1) [[0; 6]; [1; 7]; [2; 8]; [3; 9]]%Z [])
                    0%Z.
Proof.
  apply (get_batch_targets_follow_inputs 2
           [[0; 6]; [1; 7]; [2; 8]; [3; 9]]%Z 2 2).
  - lia.
  - simpl. lia.
  - repeat constructor.
Defined.

(** ** The batches of one pass over the data *)

Lemma firstn_plus {A : Type} (l : list A) (a c : nat) :
  firstn (a + c) l = firstn a l ++ firstn c (skipn a l).
Proof.
  revert l. induction a as [|a IH]; intros l; [reflexivity|].
  destruct l as [|x l']; [destruct c; reflexivity|].
  simpl. now rewrite IH.
Qed.

Lemma concat_map_concat {A : Type} (ll : list (list (list A))) :
  concat (map (@concat A) ll) = concat (concat ll).
Proof.
  induction ll as [|l rest IH]; [reflexivity|].
  simpl. now rewrite concat_app, IH.
Qed.

(** Consecutive chunks of [b] rows put the first [L] rows together again. *)
Lemma chunks_concat {A : Type} (l : list A) (b L : nat) :
  (0 < b)%nat ->
  forall j,
    concat (map (fun k => firstn (Nat.min b (L - k * b)) (skipn (k * b) l))
                (seq 0 j))
    = firstn (Nat.min (j * b) L) l.
Proof.
  intros Hb. induction j as [|j IH]; [reflexivity|].
  rewrite seq_S, map_app, concat_app, IH. cbn [map concat Nat.add].
  rewrite app_nil_r.
  destruct (Nat.le_gt_cases L (j * b)) as [Hle|Hlt].
  - replace (L - j * b)%nat with 0%nat by lia.
    rewrite Nat.min_0_r. cbn [firstn]. rewrite app_nil_r.
    f_equal. simpl. lia.
  - replace (Nat.min (j * b) L) with (j * b)%nat by lia.
    rewrite <- firstn_plus. f_equal. simpl. lia.
Qed.

Lemma py_range_forward (stop step : Z) :
  (0 < step)%Z ->
  py_range 0 stop step
  = Some (map (fun k => (Z.of_nat k * step)%Z)
              (seq 0 (if (0 <? stop)%Z
                      then S (Z.to_nat ((stop - 1) / step)) else 0))).
Proof.
  intros Hstep. unfold py_range.
  replace (step =? 0)%Z with false by (symmetry; apply Z.eqb_neq; lia).
  replace (0 <? step)%Z with true by (symmetry; apply Z.ltb_lt; lia).
  f_equal. destruct (0 <? stop)%Z eqn:E.
  - apply Z.ltb_lt in E.
    assert (0 <= (stop - 1) / step)%Z by (apply Z.div_pos; lia).
    replace (Z.to_nat ((stop - 0 - 1) / step + 1))
      with (S (Z.to_nat ((stop - 1) / step)))
      by (rewrite Z.sub_0_r; lia).
    apply map_ext. intros k. lia.
  - reflexivity.
Qed.

(** The batches of a pass, in closed form. *)
Lemma epoch_batches_value (bptt : Z) (source : list (list Z)) :
  (0 < bptt)%Z ->
  let b := Z.to_nat bptt in
  let L := (length source - 1)%nat in
  let q := if (0 <? L)%nat then S ((L - 1) / b) else 0%nat in
  epoch_batches bptt source
  = Some (map (fun k =>
                 Some (firstn (Nat.min b (L - k * b)) (skipn (k * b) source),
                       concat (firstn (Nat.min b (L - k * b))
                                      (skipn (k * b) (skipn 1 source)))))
              (seq 0 q))
  /\ (L <= q * b)%nat.
Proof.
  intros Hb b L q.
  assert (Hbpos : (0 < b)%nat) by (unfold b; lia).
  assert (Hbz : bptt = Z.of_nat b) by (unfold b; lia).
  unfold epoch_batches. rewrite py_range_forward by exact Hb.
  assert (Hcount : (if (0 <? Z.of_nat (length source) - 1)%Z
                    then S (Z.to_nat ((Z.of_nat (length source) - 1 - 1)
                                      / bptt))
                    else 0%nat) = q).
  { unfold q. destruct (0 <? L)%nat eqn:E.
    - apply Nat.ltb_lt in E.
      replace (0 <? Z.of_nat (length source) - 1)%Z with true
        by (symmetry; apply Z.ltb_lt; unfold L in E; lia).
      f_equal.
      replace (Z.of_nat (length source) - 1 - 1)%Z with (Z.of_nat (L - 1))
        by (unfold L in *; lia).
      rewrite Hbz, <- Nat2Z.inj_div. apply Nat2Z.id.
    - apply Nat.ltb_ge in E.
      replace (0 <? Z.of_nat (length source) - 1)%Z with false
        by (symmetry; apply Z.ltb_ge; unfold L in E; lia).
      reflexivity. }
  rewrite Hcount.
  assert (Hq : forall k, (k < q)%nat -> (k * b < L)%nat).
  { intros k Hk. unfold q in Hk. destruct (0 <? L)%nat eqn:E; [|lia].
    apply Nat.ltb_lt in E.
    assert (k <= (L - 1) / b)%nat by lia.
    pose proof (Nat.Div0.mul_div_le (L - 1) b).
    assert (k * b <= b * ((L - 1) / b))%nat by nia. lia. }
  split.
  - f_equal. rewrite map_map. apply map_ext_in. intros k Hk.
    apply in_seq in Hk.
    assert (Hk' : (k * b < L)%nat) by (apply Hq; lia).
    replace (Z.of_nat k * bptt)%Z with (Z.of_nat (k * b)) by (rewrite Hbz; lia).
    rewrite (get_batch_rows bptt source (k * b) Hb) by (unfold L in Hk'; exact Hk').
    fold b. fold L.
    replace (L - k * b)%nat with (length source - 1 - k * b)%nat
      by (unfold L; lia).
    do 4 f_equal. rewrite skipn_skipn. f_equal. lia.
  - unfold q. destruct (0 <? L)%nat eqn:E.
    + pose proof (Nat.div_mod_eq (L - 1) b).
      pose proof (Nat.mod_upper_bound (L - 1) b ltac:(lia)).
      apply Nat.ltb_lt in E. nia.
    + apply Nat.ltb_ge in E. lia.
Qed.

(** X13: with a positive [bptt], every [get_batch] of a pass succeeds with
    at least one row; the inputs of the batches, put end to end, are all
    rows of the source but the last, and the targets are all rows but the
    first, flattened: each position is predicted exactly once and in
    order. *)
Theorem epoch_batches_tile (bptt : Z) (source : list (list Z)) :
  (0 < bptt)%Z ->
  exists batches,
    epoch_batches bptt source = Some (map Some batches)
    /\ Forall (fun batch => fst batch <> []) batches
    /\ concat (map fst batches) = firstn (length source - 1) source
    /\ concat (map snd batches) = concat (skipn 1 source).
Proof.
  intros Hb.
  destruct (epoch_batches_value bptt source Hb) as [Hval Hcover].
  set (b := Z.to_nat bptt) in *.
  set (L := (length source - 1)%nat) in *.
  set (q := if (0 <? L)%nat then S ((L - 1) / b) else 0%nat) in *.
  assert (Hbpos : (0 < b)%nat) by (unfold b; lia).
  exists (map (fun k =>
                 (firstn (Nat.min b (L - k * b)) (skipn (k * b) source),
                  concat (firstn (Nat.min b (L - k * b))
                                 (skipn (k * b) (skipn 1 source)))))
              (seq 0 q)).
  split; [rewrite Hval, map_map; reflexivity|]. split; [|split].
  - apply Forall_forall. intros batch Hbatch. apply in_map_iff in Hbatch.
    destruct Hbatch as [k [<- Hk]]. apply in_seq in Hk. cbn [fst].
    assert (Hk' : (k * b < L)%nat).
    { unfold q in Hk. destruct (0 <? L)%nat eqn:E; [|lia].
      assert (k <= (L - 1) / b)%nat by lia.
      pose proof (Nat.Div0.mul_div_le (L - 1) b).
      apply Nat.ltb_lt in E.
      assert (k * b <= b * ((L - 1) / b))%nat by nia. lia. }
    intros Hnil. apply (f_equal (@length (list Z))) in Hnil.
    rewrite length_firstn, length_skipn in Hnil. simpl in Hnil.
    unfold L in *. lia.
  - rewrite map_map. cbn [fst].
    rewrite (chunks_concat source b L Hbpos q). f_equal. lia.
  - rewrite map_map. cbn [snd].
    rewrite <- (map_map (fun k => firstn (Nat.min b (L - k * b))
                                    (skipn (k * b) (skipn 1 source)))
                        (@concat Z)).
    rewrite concat_map_concat.
    rewrite (chunks_concat (skipn 1 source) b L Hbpos q). f_equal.
    apply firstn_all2. rewrite length_skipn. unfold L. lia.
Qed.

Lemma epoch_batches_tile_witness :
  exists batches,
    epoch_batches 2 [[0; 6]; [1; 7]; [2; 8]; [3; 9]]%Z = Some (map Some batches)
    /\ Forall (fun batch => fst batch <> []) batches
    /\ concat (map fst batches)
       = firstn (length [[0; 6]; [1; 7]; [2; 8]; [3; 9]]%Z - 1)
                [[0; 6]; [1; 7]; [2; 8]; [3; 9]]%Z
    /\ concat (map snd batches)
       = concat (skipn 1 [[0; 6]; [1; 7]; [2; 8]; [3; 9]]%Z).
Proof.
  apply (epoch_batches_tile 2 [[0; 6]; [1; 7]; [2; 8]; [3; 9]]%Z). lia.
Defined.

(** X14: on a source that is not empty, a pass asks for no batch at all
    when the source has a single row or [bptt] is negative, and [range]
    refuses a [bptt] of 0. *)
Theorem epoch_batches_degenerate (bptt : Z) (source : list (list Z)) :
  source <> [] ->
  (bptt <= 0)%Z \/ (length source <= 1)%nat ->
  epoch_batches bptt source = if (bptt =? 0)%Z then None else Some [].
Proof.
  intros Hne Hdeg. unfold epoch_batches, py_range.
  destruct (bptt =? 0)%Z eqn:E0; [reflexivity|].
  apply Z.eqb_neq in E0.
  destruct (0 <? bptt)%Z eqn:Epos.
  - apply Z.ltb_lt in Epos. destruct Hdeg as [Hneg|Hshort]; [lia|].
    replace (0 <? Z.of_nat (length source) - 1)%Z with false
      by (symmetry; apply Z.ltb_ge; lia).
    reflexivity.
  - destruct (Z.of_nat (length source) - 1 <? 0)%Z eqn:Eneg; [|reflexivity].
    apply Z.ltb_lt in Eneg. destruct source as [|row rest]; [congruence|].
    cbn [length] in Eneg. lia.
Qed.

Lemma epoch_batches_degenerate_witness :
  epoch_batches (-3) [[0; 6]; [1; 7]; [2; 8]]%Z
  = if (-3 =? 0)%Z then None else Some [].
Proof.
  apply (epoch_batches_degenerate (-3) [[0; 6]; [1; 7]; [2; 8]]%Z).
  - discriminate.
  - left. lia.
Defined.

(** ** [evaluate] *)

Lemma NLLLoss_nonneg (prob : Tensor) (target : list Z) :
  Forall (Forall (fun x => (x <= 0)%R)) (data prob) ->
  (0 < size0 prob)%nat ->
  (0 <= NLLLoss prob target)%R.
Proof.
  intros Hall Hpos. unfold NLLLoss. apply Rmult_le_pos.
  - apply Rsum_nonneg. intros [row t] Hp. apply in_combine_l in Hp.
    rewrite Forall_forall in Hall.
    pose proof (nth_nonpositive row (Z.to_nat t) (Hall row Hp)).
    cbn [fst snd]. lra.
  - apply Rlt_le, Rinv_0_lt_compat, lt_0_INR. exact Hpos.
Qed.

Lemma range_starts_inside (n : nat) (bptt : Z) :
  (0 < bptt)%Z ->
  exists starts,
    py_range 0 (Z.of_nat n - 1) bptt = Some starts
    /\ Forall (fun i => exists k, i = Z.of_nat k /\ (k < n - 1)%nat) starts
    /\ ((2 <= n)%nat -> starts <> []).
Proof.
  intros Hb. eexists. split; [apply (py_range_forward _ _ Hb)|].
  destruct (0 <? Z.of_nat n - 1)%Z eqn:E.
  - apply Z.ltb_lt in E. split; [|intros _; discriminate].
    apply Forall_forall. intros i Hi. apply in_map_iff in Hi.
    destruct Hi as [k [<- Hk]]. apply in_seq in Hk.
    assert (Hdiv : (0 <= (Z.of_nat n - 1 - 1) / bptt)%Z)
      by (apply Z.div_pos; lia).
    assert (Hk' : (Z.of_nat k <= (Z.of_nat n - 1 - 1) / bptt)%Z) by lia.
    pose proof (Z.mul_div_le (Z.of_nat n - 1 - 1) bptt Hb).
    exists (Z.to_nat (Z.of_nat k * bptt)). split; [lia|]. nia.
  - apply Z.ltb_ge in E. split; [constructor|]. intros Hn. lia.
Qed.

Section EvaluationProperties.

Variable Hidden : Type.
Variable rnn : list (list Z) -> Hidden -> Tensor * Hidden.
Variable m : AdaptiveSoftmax.
Variable bptt : Z.
Variable source : list (list Z).
Variable width : nat.
Hypothesis Hshapes : init_shapes m = true.
Hypothesis Hvalid : valid_cutoff (cutoff m) = true.
Hypothesis Hrnn :
  forall input hidden,
    hidden_batch m (fst (rnn input hidden))
    /\ size0 (fst (rnn input hidden)) = length (concat input).
Hypothesis Hbptt : (0 < bptt)%Z.
Hypothesis Hwidth : (0 < width)%nat.
Hypothesis Hrect : Forall (fun row => length row = width) source.
Hypothesis Hvocab :
  Forall (Forall (fun t => (0 <= t < last (cutoff m) 0)%Z)) source.

Lemma evaluate_batch (k : nat) (hidden : Hidden) :
  (k < length source - 1)%nat ->
  exists data targets output hidden' loss,
    get_batch bptt source (Z.of_nat k) = Some (data, targets)
    /\ RNNModel_log_prob rnn m data hidden = Return (output, hidden')
    /\ NLLLoss_call output targets = Return loss
    /\ (0 <= loss)%R.
Proof.
  intros Hk.
  set (s := Nat.min (Z.to_nat bptt) (length source - 1 - k)).
  assert (Hs : (0 < s)%nat) by (unfold s; lia).
  exists (firstn s (skipn k source)),
         (concat (firstn s (skipn (S k) source))).
  destruct (rnn (firstn s (skipn k source)) hidden) as [out hidden'] eqn:Ernn.
  destruct (Hrnn (firstn s (skipn k source)) hidden) as [Hb Hrows].
  rewrite Ernn in Hb, Hrows. cbn [fst] in Hb, Hrows.
  assert (Hrect1 : Forall (fun row => length row = width)
                     (firstn s (skipn k source))).
  { apply Forall_forall. intros row Hrow.
    apply in_firstn in Hrow. apply in_skipn in Hrow.
    rewrite Forall_forall in Hrect. now apply Hrect. }
  assert (Hrect2 : Forall (fun row => length row = width)
                     (firstn s (skipn (S k) source))).
  { apply Forall_forall. intros row Hrow.
    apply in_firstn in Hrow. apply in_skipn in Hrow.
    rewrite Forall_forall in Hrect. now apply Hrect. }
  assert (Hlen1 : length (firstn s (skipn k source)) = s)
    by (rewrite length_firstn, length_skipn; unfold s; lia).
  assert (Hlen2 : length (firstn s (skipn (S k) source)) = s)
    by (rewrite length_firstn, length_skipn; unfold s; lia).
  rewrite (length_concat_uniform width _ Hrect1), Hlen1 in Hrows.
  pose proof (cutoff_nonempty m Hvalid) as Hne.
  pose proof (c_pos m Hvalid (length (cutoff m) - 1) ltac:(lia)) as HV.
  set (prob := mkTensor (Z.to_nat (cutoff_at (cutoff m)
                                     (length (cutoff m) - 1)))
                 (map (fun h => prob_prefix m h (length (cutoff m) - 1))
                      (data out))).
  exists prob, hidden', (NLLLoss prob (concat (firstn s (skipn (S k) source)))).
  split; [apply (get_batch_rows bptt source k Hbptt Hk)|].
  split.
  { unfold RNNModel_log_prob. rewrite Ernn.
    rewrite (log_prob_rows m out Hshapes Hvalid Hb). reflexivity. }
  assert (Hsize : size0 prob = (s * width)%nat).
  { unfold prob, size0. cbn [data]. rewrite length_map. exact Hrows. }
  split.
  - unfold NLLLoss_call. rewrite Hsize.
    rewrite (length_concat_uniform width _ Hrect2), Hlen2, Nat.eqb_refl.
    cbn [andb].
    replace (forallb _ _) with true; [reflexivity|].
    symmetry. apply forallb_forall. intros t Ht.
    apply in_concat in Ht. destruct Ht as [row [Hrow Ht]].
    apply in_firstn in Hrow. apply in_skipn in Hrow.
    rewrite Forall_forall in Hvocab. specialize (Hvocab row Hrow).
    rewrite Forall_forall in Hvocab. specialize (Hvocab t Ht).
    rewrite last_cutoff_at in Hvocab.
    unfold prob. cbn [size1]. rewrite Z2Nat.id by lia.
    apply andb_true_iff. split; [apply Z.leb_le|apply Z.ltb_lt]; lia.
  - apply NLLLoss_nonneg; [|rewrite Hsize; nia].
    unfold prob. cbn [data]. apply Forall_forall. intros row Hrow.
    apply in_map_iff in Hrow. destruct Hrow as [h [<- _]].
    apply normalised_nonpositive. apply (prob_row_normalised m Hshapes Hvalid).
Qed.

Lemma evaluate_loop_runs (starts : list Z) :
  Forall (fun i => exists k, i = Z.of_nat k /\ (k < length source - 1)%nat)
         starts ->
  forall total hidden,
    match total with Some t => (0 <= t)%R | None => True end ->
    exists res,
      evaluate_loop rnn m bptt source starts total hidden = Some res
      /\ match res with
         | Some t => (0 <= t)%R
         | None => starts = [] /\ total = None
         end.
Proof.
  induction 1 as [|i rest [k [-> Hk]] _ IH]; intros total hidden Htotal.
  - exists total. split; [reflexivity|]. destruct total; auto.
  - destruct (evaluate_batch k hidden Hk)
      as [data [targets [output [hidden' [loss [Hg [Hl [Hn Hpos]]]]]]]].
    unfold Return in Hl, Hn.
    cbn [evaluate_loop]. rewrite Hg, Hl, Hn.
    set (term := (INR (length data) * loss)%R).
    assert (Hterm : (0 <= term)%R)
      by (apply Rmult_le_pos; [apply pos_INR|exact Hpos]).
    destruct (IH (Some match total with
                       | Some t => (t + term)%R
                       | None => term
                       end) hidden') as [res [Hres Hsign]].
    { destruct total; [lra|exact Hterm]. }
    exists res. split; [exact Hres|].
    destruct res; [exact Hsign|]. destruct Hsign as [_ Habs]. discriminate.
Qed.

End EvaluationProperties.

(** X15: on a corpus matrix of at least two rows whose ids are in the
    vocabulary, with a positive [bptt], a model of the shapes [__init__]
    builds on valid cutoffs and a recurrent part that returns one hidden
    row per input token, [evaluate] runs every batch without an exception
    (the targets are as many as the rows of [log_prob]'s matrix and inside
    its columns) and returns a loss that is not negative. *)
Theorem evaluate_returns (Hidden : Type)
  (rnn : list (list Z) -> Hidden -> Tensor * Hidden) (m : AdaptiveSoftmax)
  (bptt : Z) (source : list (list Z)) (width : nat) (hidden0 : Hidden) :
  init_shapes m = true ->
  valid_cutoff (cutoff m) = true ->
  (forall input hidden,
      hidden_batch m (fst (rnn input hidden))
      /\ size0 (fst (rnn input hidden)) = length (concat input)) ->
  (0 < bptt)%Z ->
  (0 < width)%nat ->
  Forall (fun row => length row = width) source ->
  Forall (Forall (fun t => (0 <= t < last (cutoff m) 0)%Z)) source ->
  (2 <= length source)%nat ->
  exists loss,
    evaluate rnn m bptt source hidden0 = Some loss /\ (0 <= loss)%R.
Proof.
  intros Hs Hv Hrnn Hb Hw Hrect Hvocab Hn.
  destruct (range_starts_inside (length source) bptt Hb)
    as [starts [Hrange [Hinside Hnonempty]]].
  destruct (evaluate_loop_runs Hidden rnn m bptt source width Hs Hv Hrnn Hb Hw
              Hrect Hvocab starts Hinside None hidden0 I)
    as [res [Hres Hsign]].
  unfold evaluate. rewrite Hrange, Hres.
  destruct res as [t|].
  - eexists. split; [reflexivity|].
    apply Rmult_le_pos; [exact Hsign|].
    apply Rlt_le, Rinv_0_lt_compat, lt_0_INR. lia.
  - destruct Hsign as [Hnil _]. exfalso. now apply Hnonempty.
Qed.

Lemma evaluate_returns_witness :
  exists loss,
    evaluate (fun (input : list (list Z)) (h : unit) =>
                (mkTensor 1 (map (fun _ => [0%R]) (concat input)), h))
      example_model 2 [[0; 1]; [1; 0]; [1; 1]; [0; 0]]%Z tt
    = Some loss
    /\ (0 <= loss)%R.
Proof.
  apply (evaluate_returns unit
           (fun (input : list (list Z)) (h : unit) =>
              (mkTensor 1 (map (fun _ => [0%R]) (concat input)), h))
           example_model 2 [[0; 1]; [1; 0]; [1; 1]; [0; 0]]%Z 2 tt).
  - reflexivity.
  - reflexivity.
  - intros input hidden. cbn [fst]. split; [split|].
    + unfold well_shaped. cbn [data size1]. apply Forall_forall.
      intros row Hrow. apply in_map_iff in Hrow.
      destruct Hrow as [t [<- _]]. reflexivity.
    + reflexivity.
    + unfold size0. cbn [data]. apply length_map.
  - lia.
  - lia.
  - repeat constructor.
  - repeat constructor; simpl; lia.
  - simpl. lia.
Defined.

Lemma getslice_nil {A : Type} (lo hi : Z) : getslice (@nil A) lo hi = None.
Proof.
  unfold getslice, clamp_index. cbn [length Z.of_nat].
  replace ((if (lo <? 0)%Z then Z.max (lo + 0) 0 else Z.min lo 0)
           <? (if (hi <? 0)%Z then Z.max (hi + 0) 0 else Z.min hi 0))%Z
    with false; [reflexivity|].
  symmetry. apply Z.ltb_ge.
  destruct (lo <? 0)%Z eqn:El, (hi <? 0)%Z eqn:Eh;
    try apply Z.ltb_lt in El; try apply Z.ltb_ge in El;
    try apply Z.ltb_lt in Eh; try apply Z.ltb_ge in Eh; lia.
Qed.

(** X16: [evaluate] raises when no batch runs, which is the case for a
    [bptt] that is not positive and for a source of fewer than two rows. *)
Theorem evaluate_needs_a_batch (Hidden : Type)
  (rnn : list (list Z) -> Hidden -> Tensor * Hidden) (m : AdaptiveSoftmax)
  (bptt : Z) (source : list (list Z)) (hidden0 : Hidden) :
  (bptt <= 0)%Z \/ (length source <= 1)%nat ->
  evaluate rnn m bptt source hidden0 = None.
Proof.
  intros Hdeg. unfold evaluate, py_range.
  destruct (bptt =? 0)%Z eqn:E0; [reflexivity|].
  apply Z.eqb_neq in E0.
  destruct (0 <? bptt)%Z eqn:Epos.
  - apply Z.ltb_lt in Epos. destruct Hdeg as [Hneg|Hshort]; [lia|].
    replace (0 <? Z.of_nat (length source) - 1)%Z with false
      by (symmetry; apply Z.ltb_ge; lia).
    reflexivity.
  - destruct (Z.of_nat (length source) - 1 <? 0)%Z eqn:Eneg; [|reflexivity].
    apply Z.ltb_lt in Eneg. apply Z.ltb_ge in Epos.
    destruct source as [|row rest]; [|cbn [length] in Eneg; lia].
    cbn [length Z.of_nat].
    replace ((0 - (0 - 1) - 1) / - bptt + 1)%Z with 1%Z
      by (rewrite Z.div_0_l by lia; lia).
    change (Z.to_nat 1) with 1%nat. cbn [seq map evaluate_loop].
    unfold get_batch. rewrite getslice_nil. reflexivity.
Qed.

Lemma evaluate_needs_a_batch_witness :
  evaluate (fun (input : list (list Z)) (h : unit) =>
              (mkTensor 1 (map (fun _ => [0%R]) (concat input)), h))
    example_model 2 [[0; 1]]%Z tt
  = None.
Proof.
  apply (evaluate_needs_a_batch unit
           (fun (input : list (list Z)) (h : unit) =>
              (mkTensor 1 (map (fun _ => [0%R]) (concat input)), h))
           example_model 2 [[0; 1]]%Z tt).
  right. simpl. lia.
Defined.

(** ** One step of [train] *)

(** X17: in the set-up of [main.py] (decoder cutoffs [[*cutoff, ntokens]],
    criterion cutoffs [[*cutoff, ntokens + 1]]), on a corpus matrix whose
    ids are in the vocabulary and at any start before its last row, the
    body of the training loop computes a loss without an exception and
    without reaching the debugger; the loss is not negative and is the
    [NLLLoss] that [evaluate] would compute from [log_prob] on the same
    decoder input and targets. *)
Theorem train_batch_loss (Hidden : Type)
  (rnn : list (list Z) -> Hidden -> Tensor * Hidden)
  (cuts : list Z) (ntokens : Z) (m : AdaptiveSoftmax) (l : AdaptiveLoss)
  (bptt : Z) (source : list (list Z)) (width k : nat) (hidden : Hidden) :
  cutoff m = model_cutoff cuts ntokens ->
  loss_cutoff l = criterion_cutoff cuts ntokens ->
  init_shapes m = true ->
  valid_cutoff (cutoff m) = true ->
  (forall input h,
      hidden_batch m (fst (rnn input h))
      /\ size0 (fst (rnn input h)) = length (concat input)) ->
  (0 < bptt)%Z ->
  (0 < width)%nat ->
  Forall (fun row => length row = width) source ->
  Forall (Forall (fun t => (0 <= t < ntokens)%Z)) source ->
  (k < length source - 1)%nat ->
  exists data targets prob loss hidden',
    get_batch bptt source (Z.of_nat k) = Some (data, targets)
    /\ train_batch rnn m l bptt source (Z.of_nat k) hidden
       = Some (mkLossState loss 0, hidden')
    /\ log_prob m (fst (rnn data hidden)) = Return prob
    /\ loss = NLLLoss prob targets
    /\ (0 <= loss)%R.
Proof.
  intros Hm Hl Hs Hv Hrnn Hb Hw Hrect Hvocab Hk.
  set (s := Nat.min (Z.to_nat bptt) (length source - 1 - k)).
  assert (Hspos : (0 < s)%nat) by (unfold s; lia).
  pose proof (get_batch_rows bptt source k Hb Hk) as Hg. fold s in Hg.
  set (inputs := firstn s (skipn k source)) in *.
  set (targets := concat (firstn s (skipn (S k) source))) in *.
  destruct (rnn inputs hidden) as [out hidden'] eqn:Ernn.
  destruct (Hrnn inputs hidden) as [Hbatch Hrows].
  rewrite Ernn in Hbatch, Hrows. cbn [fst] in Hbatch, Hrows.
  assert (Hrect1 : Forall (fun row => length row = width) inputs).
  { apply Forall_forall. intros row Hrow.
    apply in_firstn in Hrow. apply in_skipn in Hrow.
    rewrite Forall_forall in Hrect. now apply Hrect. }
  assert (Hrect2 : Forall (fun row => length row = width)
                     (firstn s (skipn (S k) source))).
  { apply Forall_forall. intros row Hrow.
    apply in_firstn in Hrow. apply in_skipn in Hrow.
    rewrite Forall_forall in Hrect. now apply Hrect. }
  assert (Hlen1 : length inputs = s)
    by (unfold inputs; rewrite length_firstn, length_skipn; unfold s; lia).
  assert (Hlen2 : length (firstn s (skipn (S k) source)) = s)
    by (rewrite length_firstn, length_skipn; unfold s; lia).
  assert (Htlen : length targets = size0 out).
  { unfold targets.
    rewrite (length_concat_uniform width _ Hrect2), Hlen2, Hrows.
    now rewrite (length_concat_uniform width _ Hrect1), Hlen1. }
  assert (Htne : targets <> []).
  { intros Hnil. apply (f_equal (@length Z)) in Hnil.
    unfold targets in Hnil.
    rewrite (length_concat_uniform width _ Hrect2), Hlen2 in Hnil.
    simpl in Hnil. nia. }
  assert (Htrange : Forall (fun t => (0 <= t < ntokens)%Z) targets).
  { apply Forall_forall. intros t Ht. unfold targets in Ht.
    apply in_concat in Ht. destruct Ht as [row [Hrow Ht]].
    apply in_firstn in Hrow. apply in_skipn in Hrow.
    rewrite Forall_forall in Hvocab. specialize (Hvocab row Hrow).
    rewrite Forall_forall in Hvocab. now apply Hvocab. }
  pose proof (train_loss_value cuts ntokens (ntokens + 1) m l out targets
                Hm Hl ltac:(lia) Hs Hv Hbatch Htlen Htne Htrange) as Hloss.
  set (prob := mkTensor (Z.to_nat (cutoff_at (cutoff m)
                                     (length (cutoff m) - 1)))
                 (map (fun h => prob_prefix m h (length (cutoff m) - 1))
                      (data out))) in *.
  exists inputs, targets, prob, (NLLLoss prob targets), hidden'.
  split; [exact Hg|]. split; [|split; [|split]].
  - unfold train_batch. rewrite Hg. cbv beta iota.
    unfold RNNModel_forward. fold inputs. fold targets.
    rewrite Ernn. cbv beta iota. fold targets.
    unfold train_loss in Hloss.
    destruct (forward (set_target m targets) out) as [e|r] eqn:Efw;
      [discriminate Hloss|].
    cbn [bind Return] in Hloss |- *. unfold Return in Hloss.
    rewrite Hloss. reflexivity.
  - rewrite Ernn. cbn [fst]. apply (log_prob_rows m out Hs Hv Hbatch).
  - reflexivity.
  - apply NLLLoss_nonneg.
    + unfold prob. cbn [data]. apply Forall_forall. intros row Hrow.
      apply in_map_iff in Hrow. destruct Hrow as [h [<- _]].
      apply normalised_nonpositive. apply (prob_row_normalised m Hs Hv).
    + unfold prob, size0. cbn [data]. rewrite length_map.
      fold (size0 out). rewrite <- Htlen.
      destruct targets; [congruence|simpl; lia].
Qed.

Lemma train_batch_loss_witness :
  exists inputs targets prob loss hidden',
    get_batch 2 [[0; 1]; [1; 0]; [1; 1]; [0; 0]]%Z (Z.of_nat 2)
    = Some (inputs, targets)
    /\ train_batch (fun (input : list (list Z)) (h : unit) =>
                      (mkTensor 1 (map (fun _ => [0%R]) (concat input)), h))
         example_model (mkAdaptiveLoss [1; 3]%Z) 2
         [[0; 1]; [1; 0]; [1; 1]; [0; 0]]%Z (Z.of_nat 2) tt
       = Some (mkLossState loss 0, hidden')
    /\ log_prob example_model
         (fst ((fun (input : list (list Z)) (h : unit) =>
                  (mkTensor 1 (map (fun _ => [0%R]) (concat input)), h))
                 inputs tt))
       = Return prob
    /\ loss = NLLLoss prob targets
    /\ (0 <= loss)%R.
Proof.
  apply (train_batch_loss unit
           (fun (input : list (list Z)) (h : unit) =>
              (mkTensor 1 (map (fun _ => [0%R]) (concat input)), h))
           [1%Z] 2 example_model (mkAdaptiveLoss [1; 3]%Z) 2
           [[0; 1]; [1; 0]; [1; 1]; [0; 0]]%Z 2 2 tt).
  - reflexivity.
  - reflexivity.
  - reflexivity.
  - reflexivity.
  - intros input h. cbn [fst]. split; [split|].
    + unfold well_shaped. cbn [data size1]. apply Forall_forall.
      intros row Hrow. apply in_map_iff in Hrow.
      destruct Hrow as [t [<- _]]. reflexivity.
    + reflexivity.
    + unfold size0. cbn [data]. apply length_map.
  - lia.
  - lia.
  - repeat constructor.
  - repeat constructor; lia.
  - simpl. lia.
Defined.
